(** * Broheim Mod Tracker: a shallow embedding of [Broheim_ModTracker.py]

    The development follows the script function by function: the manifest
    normalizer [parse_mod_info], the statistics engine
    [calculate_statistics], the plain serializer [export_to_csv], the
    snapshot reader [load_csv_for_comparison] and the set computations of
    [compare_exports]; then [sort_mods], [generate_colors] with the colour
    table of [export_to_ods], the menus [select_profile] and [select_mode],
    and the file dialogue of [compare_exports].  The Python builtins and the
    [csv] module they call are embedded next to them.

    Conventions.  A Python [str] is a [string] whose characters are code
    points below 256.  A Python [int] is a [Z].  A computation that can raise
    is a value of [Res].  A [dict] used as a lookup table is a [gmap]; a
    [dict] whose insertion order matters is an association list. *)

From Stdlib Require Import ZArith Ascii DecimalString DecimalZ DecimalN.
From Stdlib Require String.
From stdpp Require Import gmap strings list fin_maps sorting.

(* ===================================================================== *)
(** * Part I: definitions                                                 *)
(* ===================================================================== *)

(** ** Exceptions *)

Inductive PyExc : Type :=
  | AttributeError
  | KeyError
  | ValueError
  | CsvError.

Inductive Res (A : Type) : Type :=
  | Ok (a : A)
  | Raise (e : PyExc).
Arguments Ok {A} a.
Arguments Raise {A} e.

Definition res_bind {A B : Type} (r : Res A) (k : A → Res B) : Res B :=
  match r with
  | Ok a => k a
  | Raise e => Raise e
  end.

Notation "x <~ r ; k" := (res_bind r (fun x => k))
  (at level 100, r at next level, right associativity, only parsing).

(** A comprehension whose body can raise: the elements are taken in
    order, and the first exception ends it. *)
Section Comprehension.
Context {A B : Type} (f : A → Res B).

Fixpoint res_mapM (l : list A) : Res (list B) :=
  match l with
  | [] => Ok []
  | x :: rest => y <~ f x; ys <~ res_mapM rest; Ok (y :: ys)
  end.
End Comprehension.

(** ** Characters and strings *)

Definition LF : ascii := "010"%char.
Definition CR : ascii := "013"%char.
Definition COMMA : ascii := ","%char.
Definition DQUOTE : ascii := "034"%char.

Definition char_eqb (a b : ascii) : bool := Ascii.eqb a b.

(** [str.isspace] on one character, for code points below 256. *)
Definition py_isspace (c : ascii) : bool :=
  let n := N_of_ascii c in
  ((9 <=? n) && (n <=? 13) || (28 <=? n) && (n <=? 32)
   || (n =? 133) || (n =? 160))%N.

(** The blanks that [int()] skips around a numeral: the C locale's spaces
    and the two non-ASCII spaces below 256. *)
Definition int_isspace (c : ascii) : bool :=
  let n := N_of_ascii c in
  ((9 <=? n) && (n <=? 13) || (n =? 32) || (n =? 133) || (n =? 160))%N.

Definition is_digit (c : ascii) : bool :=
  let n := N_of_ascii c in ((48 <=? n) && (n <=? 57))%N.

Definition str_eqb (s t : string) : bool := String.eqb s t.

Definition str_is_empty (s : string) : bool :=
  match s with "" => true | _ => false end.

Fixpoint str_contains (c : ascii) (s : string) : bool :=
  match s with
  | "" => false
  | String a r => char_eqb a c || str_contains c r
  end.

Fixpoint lstrip_with (sp : ascii → bool) (s : string) : string :=
  match s with
  | "" => ""
  | String c r => if sp c then lstrip_with sp r else s
  end.

Fixpoint rstrip_with (sp : ascii → bool) (s : string) : string :=
  match s with
  | "" => ""
  | String c r =>
      let r' := rstrip_with sp r in
      if sp c && str_is_empty r' then "" else String c r'
  end.

(** [s.strip()] *)
Definition strip (s : string) : string :=
  rstrip_with py_isspace (lstrip_with py_isspace s).

(** [s.startswith(p)] *)
Definition startswith (s p : string) : bool := String.prefix p s.

(** [s.split(sep)] for a one-character separator. *)
Fixpoint str_split (sep : ascii) (s : string) : list string :=
  match s with
  | "" => [""]
  | String c r =>
      if char_eqb c sep then "" :: str_split sep r
      else match str_split sep r with
           | p :: ps => String c p :: ps
           | [] => [String c ""]
           end
  end.

(** [sep.join(l)] *)
Fixpoint str_join (sep : string) (l : list string) : string :=
  match l with
  | [] => ""
  | [s] => s
  | s :: rest => s +:+ sep +:+ str_join sep rest
  end.

Fixpoint str_concat (l : list string) : string :=
  match l with
  | [] => ""
  | s :: rest => s +:+ str_concat rest
  end.

(** ** Integers as text *)

(** The interpreter's default limit on the number of digits of an [int]
    that [str] prints or that [int] reads
    ([sys.int_info.default_max_str_digits]). *)
Definition int_max_str_digits : N := 4300.

Fixpoint count_digits (s : string) : N :=
  match s with
  | "" => 0
  | String c r => ((if is_digit c then 1 else 0) + count_digits r)%N
  end.

(** The decimal numeral of an integer, with a minus sign when it is
    negative. *)
Definition decimal (z : Z) : string := NilZero.string_of_int (Z.to_int z).

(** [str(z)] for an [int]: ValueError when the numeral has more digits
    than the limit. *)
Definition str_of_int (z : Z) : Res string :=
  let s := decimal z in
  if (int_max_str_digits <? count_digits s)%N then Raise ValueError else Ok s.

(** [str(n)] for a count.  A count is the length of a list or the size of
    a [Counter], which is below 2^63 and so has 19 digits at most: the
    limit cannot be reached. *)
Definition str_of_nat (n : nat) : string := decimal (Z.of_nat n).

(** The digits of a numeral with its underscores removed; an underscore is
    accepted only between two digits. [prev] tells whether the previous
    character was a digit. *)
Fixpoint int_digits (prev : bool) (s : string) : option string :=
  match s with
  | "" => if prev then Some "" else None
  | String c r =>
      if is_digit c then String c <$> int_digits true r
      else if char_eqb c "_"%char then
        (if prev then
           match r with
           | String d _ => if is_digit d then int_digits false r else None
           | "" => None
           end
         else None)
      else None
  end.

Definition int_unsigned (s : string) : option Z :=
  match int_digits false s with
  | Some ds =>
      match NilEmpty.uint_of_string ds with
      | Some d => Some (Z.of_uint d)
      | None => None
      end
  | None => None
  end.

(** [int(s)] in base ten; [None] stands for [ValueError], which is raised
    for a text that is no numeral and for a numeral with more digits than
    the limit. *)
Definition py_int (s : string) : option Z :=
  let t := rstrip_with int_isspace (lstrip_with int_isspace s) in
  if (int_max_str_digits <? count_digits t)%N then None
  else match t with
       | String c r =>
           if char_eqb c "+"%char then int_unsigned r
           else if char_eqb c "-"%char then Z.opp <$> int_unsigned r
           else int_unsigned t
       | "" => None
       end.

(** ** Values of the manifest *)

(** What [yaml.safe_load] hands over for one entry: a mapping from keys to
    values.  The values embedded are null, booleans, ints, texts, lists and
    mappings with text keys; floats, dates, sets and binary data, which the
    loader can also build, are outside this development, and so is every
    statement about an entry that holds one. *)
#[warnings="-register-all"]
Inductive PyVal : Type :=
  | PyNone
  | PyBool (b : bool)
  | PyInt (z : Z)
  | PyStr (s : string)
  | PyList (items : list PyVal)
  | PyDict (entries : list (string * PyVal)).

Definition RawMod : Type := list (string * PyVal).

Fixpoint dict_lookup {V : Type} (d : list (string * V)) (k : string) : option V :=
  match d with
  | [] => None
  | (k', v) :: rest => if str_eqb k' k then Some v else dict_lookup rest k
  end.

(** [d.get(k, dflt)] on a dict. *)
Definition dict_get (d : list (string * PyVal)) (k : string) (dflt : PyVal) : PyVal :=
  match dict_lookup d k with
  | Some v => v
  | None => dflt
  end.

(** [v.get(k, dflt)] on any value: only a dict has the method. *)
Definition py_get (v : PyVal) (k : string) (dflt : PyVal) : Res PyVal :=
  match v with
  | PyDict d => Ok (dict_get d k dflt)
  | _ => Raise AttributeError
  end.

(** Truth value of an object, as [if] and [else] test it. *)
Definition py_truth (v : PyVal) : bool :=
  match v with
  | PyNone => false
  | PyBool b => b
  | PyInt z => negb (Z.eqb z 0)
  | PyStr s => negb (str_is_empty s)
  | PyList l => match l with [] => false | _ => true end
  | PyDict d => match d with [] => false | _ => true end
  end.

Definition hex_digit (n : N) : ascii :=
  ascii_of_N (if n <? 10 then 48 + n else 87 + n)%N.

Definition is_printable (c : ascii) : bool :=
  let n := N_of_ascii c in
  negb ((n <? 32) || (127 <=? n) && (n <=? 160) || (n =? 173))%N.

(** One character of [repr(s)] inside the quote [q]. *)
Definition repr_char (q c : ascii) : string :=
  if char_eqb c q || char_eqb c "\"%char then String "\"%char (String c "")
  else if char_eqb c "009"%char then "\t"
  else if char_eqb c LF then "\n"
  else if char_eqb c CR then "\r"
  else if is_printable c then String c ""
  else
    let n := N_of_ascii c in
    String "\"%char (String "x"%char
      (String (hex_digit (n / 16)) (String (hex_digit (n mod 16)) ""))).

Fixpoint repr_chars (q : ascii) (s : string) : string :=
  match s with
  | "" => ""
  | String c r => repr_char q c +:+ repr_chars q r
  end.

(** [repr(s)] for a [str]: single quotes, unless the text has a single
    quote and no double quote. *)
Definition repr_str (s : string) : string :=
  let q := if str_contains "'"%char s && negb (str_contains DQUOTE s)
           then DQUOTE else "'"%char in
  String q (repr_chars q s) +:+ String q "".

(** [repr(v)]; it raises where the [repr] of an int inside [v] does. *)
Fixpoint py_repr (v : PyVal) : Res string :=
  match v with
  | PyNone => Ok "None"
  | PyBool b => Ok (if b then "True" else "False")
  | PyInt z => str_of_int z
  | PyStr s => Ok (repr_str s)
  | PyList l =>
      items <~ res_mapM py_repr l;
      Ok ("[" +:+ str_join ", " items +:+ "]")
  | PyDict d =>
      items <~ res_mapM (fun kv => match kv with
                                   | (k, x) =>
                                       r <~ py_repr x;
                                       Ok (repr_str k +:+ ": " +:+ r)
                                   end) d;
      Ok ("{" +:+ str_join ", " items +:+ "}")
  end.

(** [str(v)], which is also what a replacement field of an f-string
    renders. *)
Definition py_str (v : PyVal) : Res string :=
  match v with
  | PyStr s => Ok s
  | _ => py_repr v
  end.

(** ** The manifest normalizer *)

(** The dict that [parse_mod_info] returns.  Four of its values are
    whatever the manifest held (type [V]); the version and the enabled
    flag are always text. *)
Record ModInfo (V : Type) : Type := mkModInfo {
  name : V;
  author : V;
  version : string;
  description : V;
  enabled : string;
  website : V
}.
Arguments mkModInfo {V}.
Arguments name {V}.
Arguments author {V}.
Arguments version {V}.
Arguments description {V}.
Arguments enabled {V}.
Arguments website {V}.

(** A canonical record: every field is text. *)
Abbreviation Mod := (ModInfo string).

Definition parse_mod_info (m : RawMod) : Res (ModInfo PyVal) :=
  let version := dict_get m "versionNumber" (PyDict []) in
  major <~ py_get version "major" (PyInt 0);
  major_str <~ py_str major;
  minor <~ py_get version "minor" (PyInt 0);
  minor_str <~ py_str minor;
  patch <~ py_get version "patch" (PyInt 0);
  patch_str <~ py_str patch;
  let version_str := major_str +:+ "." +:+ minor_str +:+ "." +:+ patch_str in
  Ok {| name := dict_get m "displayName" (dict_get m "name" (PyStr "Unknown"));
        author := dict_get m "authorName" (PyStr "Unknown");
        version := version_str;
        description := dict_get m "description" (PyStr "");
        enabled := if py_truth (dict_get m "enabled" (PyBool false)) then "Yes" else "No";
        website := dict_get m "websiteUrl" (PyStr "") |}.

(** ** The statistics engine *)

(** [int(p)] as the comprehension of [version_key] calls it. *)
Definition int_of_str (p : string) : Res Z :=
  match py_int p with
  | Some z => Ok z
  | None => Raise ValueError
  end.

(** The body of the [try] block of [version_key]. *)
Definition version_key_try (m : Mod) : Res (list Z) :=
  let parts := str_split "."%char (version m) in
  res_mapM int_of_str parts.

(** [version_key]: the bare [except] turns every failure into (0, 0, 0). *)
Definition version_key (m : Mod) : list Z :=
  match version_key_try m with
  | Ok t => t
  | Raise _ => [0; 0; 0]%Z
  end.

(** [a < b] on tuples of ints: lexicographic, a proper prefix is smaller. *)
Fixpoint tuple_lt (a b : list Z) : bool :=
  match a, b with
  | [], [] => false
  | [], _ :: _ => true
  | _ :: _, [] => false
  | x :: a', y :: b' =>
      if (x <? y)%Z then true
      else if (y <? x)%Z then false
      else tuple_lt a' b'
  end.

Section Sorting.
Context {A K : Type} (key : A → K) (lt : K → K → bool).

(** [x] goes in front of the first element whose key is not below its
    own, so it stays in front of the equal elements that came after it. *)
Fixpoint insert_sorted (x : A) (l : list A) : list A :=
  match l with
  | [] => [x]
  | y :: l' => if lt (key y) (key x) then y :: insert_sorted x l' else x :: l
  end.

Definition stable_sort (l : list A) : list A := foldr insert_sorted [] l.

(** [sorted(l, key=key, reverse=rev)].  The sort is stable in both
    directions: a reversed sort reverses the list, sorts it and reverses
    the outcome, which leaves equal elements in their original order. *)
Definition sorted (rev : bool) (l : list A) : list A :=
  if rev then reverse (stable_sort (reverse l)) else stable_sort l.
End Sorting.

(** [Counter(iterable)]: the counts, in the order the keys first came. *)
Fixpoint counter_add (c : list (string * nat)) (a : string) : list (string * nat) :=
  match c with
  | [] => [(a, 1)]
  | (b, n) :: rest =>
      if str_eqb b a then (b, S n) :: rest else (b, n) :: counter_add rest a
  end.

Definition Counter (l : list string) : list (string * nat) :=
  foldl counter_add [] l.

(** [c.most_common(n)], which is [sorted(c.items(), key=itemgetter(1),
    reverse=True)[:n]]. *)
Definition most_common (n : nat) (c : list (string * nat)) : list (string * nat) :=
  take n (sorted snd Nat.ltb true c).

(** The dict that [calculate_statistics] returns. *)
Record Stats : Type := mkStats {
  profile_name : string;
  export_date : string;
  total_mods : nat;
  enabled_mods : nat;
  disabled_mods : nat;
  unique_authors : nat;
  top_authors : list (string * nat);
  newest_mods : list Mod;
  oldest_mods : list Mod
}.

(** [l[-n:]] *)
Definition last_n {A : Type} (n : nat) (l : list A) : list A :=
  drop (length l - n) l.

(** [now] is the clock reading, already formatted. *)
Definition calculate_statistics (mods_list : list Mod) (profile : string)
    (now : string) : Stats :=
  let total := length mods_list in
  let enabled_count :=
    length (List.filter (fun m => str_eqb (enabled m) "Yes") mods_list) in
  let author_counts := Counter (map author mods_list) in
  let sorted_by_version := sorted version_key tuple_lt true mods_list in
  {| profile_name := profile;
     export_date := now;
     total_mods := total;
     enabled_mods := enabled_count;
     disabled_mods := total - enabled_count;
     unique_authors := length author_counts;
     top_authors := most_common 5 author_counts;
     newest_mods := take 5 sorted_by_version;
     oldest_mods := reverse (last_n 5 sorted_by_version) |}.

(** The other description the specification gives of the oldest list:
    sort ascending by the same key and take the first five. *)
Definition oldest_by_ascending_sort (mods_list : list Mod) : list Mod :=
  take 5 (sorted version_key tuple_lt false mods_list).

(** ** The [csv] module: writer *)

Definition CRLF : string := String CR (String LF "").

Definition csv_needs_quotes (s : string) : bool :=
  str_contains COMMA s || str_contains DQUOTE s
  || str_contains CR s || str_contains LF s.

Fixpoint csv_double_quotes (s : string) : string :=
  match s with
  | "" => ""
  | String c r =>
      if char_eqb c DQUOTE then String DQUOTE (String DQUOTE (csv_double_quotes r))
      else String c (csv_double_quotes r)
  end.

(** One field under the excel dialect with minimal quoting. *)
Definition csv_field (s : string) : string :=
  if csv_needs_quotes s
  then String DQUOTE (csv_double_quotes s +:+ String DQUOTE "")
  else s.

(** The line of a row, before its terminator. *)
Definition csv_line (cells : list string) : string :=
  str_join "," (map csv_field cells).

(** [writer.writerow(cells)]: the text it adds to the file.  A row made of
    one empty field is written as a pair of quotes. *)
Definition writerow (cells : list string) : string :=
  let line := csv_line cells in
  match cells with
  | [] => CRLF
  | _ => if str_is_empty line then String DQUOTE (String DQUOTE CRLF)
         else line +:+ CRLF
  end.

(** ** The plain serializer *)

Definition headers : list string :=
  ["Author"; "Mod Name"; "Version"; "Enabled"; "Description"; "Website"].

Definition summary_row (m : Mod) : list string :=
  [name m; author m; version m].

Definition mod_row (m : Mod) : list string :=
  [author m; name m; version m; enabled m; description m; website m].

(** The rows written before the header row of the mod table. *)
Definition statistics_rows (stats : Stats) : list (list string) :=
  [ ["PROFILE STATISTICS"];
    [""];
    ["Profile Name:"; profile_name stats];
    ["Export Date:"; export_date stats];
    ["Total Mods:"; str_of_nat (total_mods stats)];
    ["Enabled Mods:"; str_of_nat (enabled_mods stats)];
    ["Disabled Mods:"; str_of_nat (disabled_mods stats)];
    ["Unique Authors:"; str_of_nat (unique_authors stats)];
    [""];
    ["TOP AUTHORS (by mod count)"] ]
  ++ map (fun ac => [ac.1; str_of_nat ac.2 +:+ " mods"]) (top_authors stats)
  ++ [ [""];
       ["NEWEST MODS (by version)"];
       ["Mod Name"; "Author"; "Version"] ]
  ++ map summary_row (newest_mods stats)
  ++ [ [""];
       ["OLDEST MODS (by version)"];
       ["Mod Name"; "Author"; "Version"] ]
  ++ map summary_row (oldest_mods stats)
  ++ [ [""];
       [""];
       ["COMPLETE MOD LIST"];
       [""] ].

(** The text of the statistics section. *)
Definition statistics_section (stats : Stats) : string :=
  str_concat (map writerow (statistics_rows stats)).

(** [export_to_csv]: the text of the file it writes (opened with
    [newline=''], so nothing is translated on the way out).  The line it
    prints on the console is left out. *)
Definition export_to_csv (mods_list : list Mod) (stats : Stats) : string :=
  statistics_section stats
  +:+ writerow headers
  +:+ str_concat (map (fun m => writerow (mod_row m)) mods_list).

(** ** Reading text files *)

(** Universal newlines, as a file opened in text mode for reading applies
    them: a CR, a LF and a CR LF pair each come out as one LF.  [after_cr]
    tells that the previous character was a CR. *)
Fixpoint universal_newlines (after_cr : bool) (s : string) : string :=
  match s with
  | "" => ""
  | String c r =>
      if char_eqb c CR then String LF (universal_newlines true r)
      else if char_eqb c LF then
        (if after_cr then universal_newlines false r
         else String LF (universal_newlines false r))
      else String c (universal_newlines false r)
  end.

(** The lines of a text, each with its line feed. *)
Fixpoint split_lines (s : string) : list string :=
  match s with
  | "" => []
  | String c r =>
      if char_eqb c LF then String c "" :: split_lines r
      else match split_lines r with
           | l :: ls => String c l :: ls
           | [] => [String c ""]
           end
  end.

(** [f.readlines()] on a file opened in text mode. *)
Definition readlines (content : string) : list string :=
  split_lines (universal_newlines false content).

(** ** The [csv] module: reader *)

Inductive ParserState : Type :=
  | START_RECORD
  | START_FIELD
  | IN_FIELD
  | IN_QUOTED_FIELD
  | QUOTE_IN_QUOTED_FIELD
  | EAT_CRNL.

Record Reader : Type := mkReader {
  rd_state : ParserState;
  rd_fields : list string;
  rd_field : string
}.

Definition field_limit : N := 131072.

Definition set_state (st : ParserState) (r : Reader) : Reader :=
  mkReader st (rd_fields r) (rd_field r).

Definition parse_add_char (r : Reader) (c : ascii) : Res Reader :=
  if (field_limit <=? N.of_nat (String.length (rd_field r)))%N
  then Raise CsvError
  else Ok (mkReader (rd_state r) (rd_fields r) (rd_field r +:+ String c "")).

Definition parse_save_field (r : Reader) : Reader :=
  mkReader (rd_state r) (rd_fields r ++ [rd_field r]) "".

Definition is_newline (c : ascii) : bool := char_eqb c LF || char_eqb c CR.

(** One step of the reader's automaton under the excel dialect; [None] is
    the end-of-line mark that follows the characters of every line. *)
Definition parse_process_char (r : Reader) (c : option ascii) : Res Reader :=
  let start_field (r : Reader) : Res Reader :=
    match c with
    | None => Ok (set_state START_RECORD (parse_save_field r))
    | Some ch =>
        if is_newline ch then Ok (set_state EAT_CRNL (parse_save_field r))
        else if char_eqb ch DQUOTE then Ok (set_state IN_QUOTED_FIELD r)
        else if char_eqb ch COMMA then Ok (parse_save_field r)
        else r' <~ parse_add_char r ch; Ok (set_state IN_FIELD r')
    end in
  match rd_state r with
  | START_RECORD =>
      match c with
      | None => Ok r
      | Some ch =>
          if is_newline ch then Ok (set_state EAT_CRNL r)
          else start_field (set_state START_FIELD r)
      end
  | START_FIELD => start_field r
  | IN_FIELD =>
      match c with
      | None => Ok (set_state START_RECORD (parse_save_field r))
      | Some ch =>
          if is_newline ch then Ok (set_state EAT_CRNL (parse_save_field r))
          else if char_eqb ch COMMA then Ok (set_state START_FIELD (parse_save_field r))
          else parse_add_char r ch
      end
  | IN_QUOTED_FIELD =>
      match c with
      | None => Ok r
      | Some ch =>
          if char_eqb ch DQUOTE then Ok (set_state QUOTE_IN_QUOTED_FIELD r)
          else parse_add_char r ch
      end
  | QUOTE_IN_QUOTED_FIELD =>
      match c with
      | None => Ok (set_state START_RECORD (parse_save_field r))
      | Some ch =>
          if char_eqb ch DQUOTE then
            r' <~ parse_add_char r ch; Ok (set_state IN_QUOTED_FIELD r')
          else if char_eqb ch COMMA then Ok (set_state START_FIELD (parse_save_field r))
          else if is_newline ch then Ok (set_state EAT_CRNL (parse_save_field r))
          else r' <~ parse_add_char r ch; Ok (set_state IN_FIELD r')
      end
  | EAT_CRNL =>
      match c with
      | None => Ok (set_state START_RECORD r)
      | Some ch => if is_newline ch then Ok r else Raise CsvError
      end
  end.

Definition parse_reset : Reader := mkReader START_RECORD [] "".

Fixpoint feed (r : Reader) (line : string) : Res Reader :=
  match line with
  | "" => Ok r
  | String c rest => r' <~ parse_process_char r (Some c); feed r' rest
  end.

Definition feed_line (r : Reader) (line : string) : Res Reader :=
  r' <~ feed r line; parse_process_char r' None.

Definition in_quoted_field (r : Reader) : bool :=
  match rd_state r with IN_QUOTED_FIELD => true | _ => false end.

(** All the records a [csv.reader] yields over the given lines.  A record
    ends with the first line that leaves the automaton in [START_RECORD];
    when the lines run out inside a record, what was read so far is the
    last record. *)
Fixpoint csv_reader_from (r : Reader) (lines : list string) : Res (list (list string)) :=
  match lines with
  | [] =>
      if negb (str_is_empty (rd_field r)) || in_quoted_field r
      then Ok [rd_fields (parse_save_field r)]
      else Ok []
  | line :: rest =>
      r' <~ feed_line r line;
      match rd_state r' with
      | START_RECORD =>
          rows <~ csv_reader_from parse_reset rest; Ok (rd_fields r' :: rows)
      | _ => csv_reader_from r' rest
      end
  end.

Definition csv_reader (lines : list string) : Res (list (list string)) :=
  csv_reader_from parse_reset lines.

(** A row of a [csv.DictReader]: the cells under the field names ([None]
    for a field the record was too short for) and, for a record longer
    than the header, the cells left over, which the dict holds under the
    key [None]. *)
Record Row : Type := mkRow {
  row_cells : gmap string (option string);
  row_rest : option (list string)
}.

Definition dict_row (fieldnames record : list string) : Row :=
  let d := foldl (fun d kv => <[kv.1 := Some kv.2]> d) ∅ (zip fieldnames record) in
  let lf := length fieldnames in
  let lr := length record in
  if lf <? lr then mkRow d (Some (drop lf record))
  else mkRow (foldl (fun d k => <[k := None]> d) d (drop lr fieldnames)) None.

Definition is_blank_record (record : list string) : bool :=
  match record with [] => true | _ => false end.

(** All the rows of [csv.DictReader(f)]: the first record gives the field
    names, empty records are skipped. *)
Definition DictReader (lines : list string) : Res (list Row) :=
  records <~ csv_reader lines;
  match records with
  | [] => Ok []
  | fieldnames :: rest =>
      Ok (map (dict_row fieldnames)
              (List.filter (fun rec => negb (is_blank_record rec)) rest))
  end.

(** ** The snapshot reader *)

Definition header_prefix : string := "Author,Mod Name,Version".

Definition is_header_line (line : string) : bool :=
  startswith (strip line) header_prefix.

(** The loop that looks for [header_line_idx]. *)
Fixpoint find_header (lines : list string) : option nat :=
  match lines with
  | [] => None
  | line :: rest =>
      if is_header_line line then Some 0 else S <$> find_header rest
  end.

(** [row.get(k)] is true: the cell is there and is a non-empty text. *)
Definition row_text (row : Row) (k : string) : option string :=
  match row_cells row !! k with
  | Some (Some s) => if str_is_empty s then None else Some s
  | _ => None
  end.

(** The body of the loop over the rows. *)
Definition add_row (mods : gmap string Row) (row : Row) : gmap string Row :=
  match row_text row "Author", row_text row "Mod Name" with
  | Some a, Some n => <[a +:+ ":" +:+ n := row]> mods
  | _, _ => mods
  end.

(** [load_csv_for_comparison]: what it prints and what it returns, from
    the name of the file and its decoded content. *)
Definition load_csv_for_comparison (file_name content : string)
    : list string * Res (gmap string Row) :=
  let lines := readlines content in
  match find_header lines with
  | None =>
      (["Warning: Could not find mod data header in " +:+ file_name], Ok ∅)
  | Some header_line_idx =>
      let csv_data := str_concat (drop header_line_idx lines) in
      ([], rows <~ DictReader (split_lines csv_data); Ok (foldl add_row ∅ rows))
  end.

(** ** The comparison engine *)

Definition Change : Type := string * option string * option string.

Record Comparison : Type := mkComparison {
  added : gset string;
  removed : gset string;
  common : gset string;
  updated : list Change;
  enabled_changes : list Change
}.

(** [mods[key]] *)
Definition mods_item (mods : gmap string Row) (key : string) : Res Row :=
  match mods !! key with
  | Some row => Ok row
  | None => Raise KeyError
  end.

(** [row[k]] *)
Definition row_item (row : Row) (k : string) : Res (option string) :=
  match row_cells row !! k with
  | Some v => Ok v
  | None => Raise KeyError
  end.

Definition cell_eqb (a b : option string) : bool :=
  match a, b with
  | Some s, Some t => str_eqb s t
  | None, None => true
  | _, _ => false
  end.

(** One turn of the loop over the common keys. *)
Definition compare_key (mods1 mods2 : gmap string Row)
    (acc : list Change * list Change) (key : string)
    : Res (list Change * list Change) :=
  row1 <~ mods_item mods1 key;
  row2 <~ mods_item mods2 key;
  v1 <~ row_item row1 "Version";
  v2 <~ row_item row2 "Version";
  let upd := if cell_eqb v1 v2 then acc.1 else acc.1 ++ [(key, v2, v1)] in
  e1 <~ row_item row1 "Enabled";
  e2 <~ row_item row2 "Enabled";
  let ena := if cell_eqb e1 e2 then acc.2 else acc.2 ++ [(key, e2, e1)] in
  Ok (upd, ena).

Fixpoint compare_keys (mods1 mods2 : gmap string Row)
    (acc : list Change * list Change) (keys : list string)
    : Res (list Change * list Change) :=
  match keys with
  | [] => Ok acc
  | key :: rest =>
      acc' <~ compare_key mods1 mods2 acc key;
      compare_keys mods1 mods2 acc' rest
  end.

(** The computation in the middle of [compare_exports], from the two
    snapshots ([mods1] the newer, [mods2] the older) to the four results;
    choosing the files and printing the report are left out. *)
Definition compare_exports (mods1 mods2 : gmap string Row) : Res Comparison :=
  let keys1 := dom mods1 in
  let keys2 := dom mods2 in
  let added := keys1 ∖ keys2 in
  let removed := keys2 ∖ keys1 in
  let common := keys1 ∩ keys2 in
  changes <~ compare_keys mods1 mods2 ([], []) (elements common);
  Ok (mkComparison added removed common changes.1 changes.2).

(** ** Notions used in the statements and in the proofs *)

(** *** Texts *)

Fixpoint str_forall (P : ascii → bool) (s : string) : bool :=
  match s with
  | "" => true
  | String c r => P c && str_forall P r
  end.

Definition all_digits (s : string) : bool :=
  negb (str_is_empty s) && str_forall is_digit s.

(** A text of the form major.minor.patch, each part a non-negative
    decimal numeral. *)
Definition is_version_text (s : string) : bool :=
  match str_split "."%char s with
  | [a; b; c] => all_digits a && all_digits b && all_digits c
  | _ => false
  end.

(** *** The normalizer *)

(** Induction on a value together with the values inside it. *)
Section PyVal_induction.
Variable P : PyVal → Prop.
Hypothesis HNone : P PyNone.
Hypothesis HBool : ∀ b, P (PyBool b).
Hypothesis HInt : ∀ z, P (PyInt z).
Hypothesis HStr : ∀ s, P (PyStr s).
Hypothesis HList : ∀ l, Forall P l → P (PyList l).
Hypothesis HDict : ∀ d, Forall (λ kv, P kv.2) d → P (PyDict d).

Fixpoint PyVal_nested_ind (v : PyVal) : P v :=
  match v with
  | PyNone => HNone
  | PyBool b => HBool b
  | PyInt z => HInt z
  | PyStr s => HStr s
  | PyList l =>
      HList l ((fix go (l : list PyVal) : Forall P l :=
                  match l with
                  | [] => Forall_nil_2 P
                  | x :: r => Forall_cons_2 P x r (PyVal_nested_ind x) (go r)
                  end) l)
  | PyDict d =>
      HDict d ((fix go (d : list (string * PyVal)) : Forall (λ kv, P kv.2) d :=
                  match d with
                  | [] => Forall_nil_2 _
                  | (k, x) :: r =>
                      Forall_cons_2 (λ kv, P kv.2) (k, x) r (PyVal_nested_ind x) (go r)
                  end) d)
  end.
End PyVal_induction.

(** An int whose numeral is within the limit of [str] and [int]. *)
Definition within_limit (z : Z) : bool :=
  (count_digits (decimal z) <=? int_max_str_digits)%N.

(** No int inside the value has more digits than the limit. *)
Fixpoint within_digit_limit (v : PyVal) : bool :=
  match v with
  | PyInt z => within_limit z
  | PyList l => forallb within_digit_limit l
  | PyDict d => forallb (fun kv => match kv with (_, x) => within_digit_limit x end) d
  | _ => true
  end.

(** The version sub-record is absent or is a mapping. *)
Definition version_is_mapping (m : RawMod) : bool :=
  match dict_get m "versionNumber" (PyDict []) with
  | PyDict _ => true
  | _ => false
  end.

(** An entry the normalizer accepts: its version sub-record is absent or
    is a mapping, and no int inside what stands under major, minor and
    patch has more digits than the limit. *)
Definition normalizable (m : RawMod) : bool :=
  match dict_get m "versionNumber" (PyDict []) with
  | PyDict d =>
      within_digit_limit (dict_get d "major" (PyInt 0))
      && within_digit_limit (dict_get d "minor" (PyInt 0))
      && within_digit_limit (dict_get d "patch" (PyInt 0))
  | _ => false
  end.

(** One component of the version sub-record, when it is absent (then 0)
    or a non-negative int (not a boolean) within the limit. *)
Definition version_component (d : list (string * PyVal)) (k : string) : option Z :=
  match dict_lookup d k with
  | None => Some 0%Z
  | Some (PyInt z) => if (0 <=? z)%Z && within_limit z then Some z else None
  | Some _ => None
  end.

(** A text made of [n] copies of a character. *)
Fixpoint str_repeat (n : nat) (c : ascii) : string :=
  match n with
  | 0 => ""
  | S k => String c (str_repeat k c)
  end.

(** The name rule in the words of the specification: the display name if
    present and not null, else the internal name, else "Unknown". *)
Definition name_rule_of_spec (m : RawMod) : PyVal :=
  match dict_lookup m "displayName" with
  | Some PyNone | None =>
      match dict_lookup m "name" with
      | Some v => v
      | None => PyStr "Unknown"
      end
  | Some v => v
  end.

(** *** Statistics *)

(** [x] may stand before [y] in an ascending order of the keys. *)
Definition key_le {A K : Type} (key : A → K) (lt : K → K → bool) (x y : A) : Prop :=
  lt (key y) (key x) = false.

(** [a] is seen for the first time at position [i] of [l]. *)
Definition first_seen_at (l : list string) (a : string) (i : nat) : Prop :=
  l !! i = Some a ∧ ∀ j, j < i → l !! j ≠ Some a.

(** A record for the examples. *)
Definition sample_mod (n v : string) : Mod := mkModInfo n "Azumatt" v "" "Yes" "".

(** Six records of pairwise distinct versions, and seven records two of
    which have one version, for the examples. *)
Definition six_mods : list Mod :=
  [sample_mod "A" "1.0.0"; sample_mod "B" "10.0.0"; sample_mod "C" "2.5.0";
   sample_mod "D" "0.9.1"; sample_mod "E" "3.0.0"; sample_mod "F" "2.10.0"].

Definition seven_mods : list Mod := six_mods ++ [sample_mod "G" "1.0.0"].

(** *** Export and snapshot *)

(** The identity key of a record, as the reader builds it. *)
Definition mod_key (m : Mod) : string := author m +:+ ":" +:+ name m.

(** A text within the reader's field limit. *)
Definition fits (s : string) : Prop :=
  (N.of_nat (String.length s) ≤ field_limit)%N.

(** A cell the round trip leaves alone: no CR, and not longer than the
    reader's field limit. *)
Definition csv_safe (s : string) : bool :=
  negb (str_contains CR s) && (N.of_nat (String.length s) <=? field_limit)%N.

(** A cell as it is read back: the file is read in text mode, which
    turns every CR and every CR LF pair into a LF. *)
Definition read_back (s : string) : string := universal_newlines false s.

(** A cell the reader accepts: as read back it is not longer than the
    field limit. *)
Definition readable (s : string) : bool :=
  (N.of_nat (String.length (read_back s)) <=? field_limit)%N.

(** A record the round trip gives back: it has an author and a name; its
    author, name, version and enabled flag have no carriage return; each of
    its six cells is readable.  The description and the website may hold
    carriage returns. *)
Definition exportable (m : Mod) : bool :=
  negb (str_is_empty (author m)) && negb (str_is_empty (name m))
  && forallb (λ s, negb (str_contains CR s)) [author m; name m; version m; enabled m]
  && forallb readable (mod_row m).

(** The row the reader builds for a record whose cells have no carriage
    return. *)
Definition snapshot_row (m : Mod) : Row := dict_row headers (mod_row m).

(** The row the reader builds for any record. *)
Definition read_back_row (m : Mod) : Row :=
  dict_row headers (map read_back (mod_row m)).

(** Records with a carriage return in one field, for the examples. *)
Definition cr_in_description_mod : Mod :=
  mkModInfo "Ward, Is Love" "Azumatt" "3.0.1"
    (String "a" (String CR (String "b" ""))) "No" "".

Definition cr_in_author_mod : Mod :=
  mkModInfo "Jotunn" (String "a" (String CR (String "b" ""))) "1.0.0" "" "Yes" "".

Definition cr_in_name_mod : Mod :=
  mkModInfo (String "a" (String CR (String "b" ""))) "Azumatt" "1.0.0" "" "Yes" "".

Definition cr_in_version_mod : Mod :=
  mkModInfo "Jotunn" "Azumatt" (String "1" (String CR "")) "" "Yes" "".

Definition cr_in_enabled_mod : Mod :=
  mkModInfo "Jotunn" "Azumatt" "1.0.0" "" (String "Y" (String CR "")) "".

(** A record whose description has one character more than the reader's
    field limit. *)
Definition long_description_mod : Mod :=
  mkModInfo "Jotunn" "Azumatt" "1.0.0" (str_repeat (N.to_nat 131073) "x") "Yes" "".

(** The table as the reader sees it: one line feed after each line. *)
Definition table_text (rows : list (list string)) : string :=
  str_concat (map (λ cells, csv_line cells +:+ String LF "") rows).

(** A row of two cells or more. *)
Definition wide_row (cells : list string) : Prop := 2 ≤ length cells.

(** The records read from a text, the automaton being in state [r] at the
    start of it. *)
Definition read_text (r : Reader) (s : string) : Res (list (list string)) :=
  csv_reader_from r (split_lines s).

(** The automaton has read the field [f] and waits for what ends it. *)
Definition field_done (r : Reader) (fs : list string) (f : string) : Prop :=
  rd_fields r = fs ∧ rd_field r = f
  ∧ (rd_state r = QUOTE_IN_QUOTED_FIELD ∨ rd_state r = IN_FIELD
     ∨ (rd_state r = START_FIELD ∧ f = "")).

(** *** Comparison *)

(** A row that has its Version and Enabled cells. *)
Definition has_columns (row : Row) : Prop :=
  is_Some (row_cells row !! "Version") ∧ is_Some (row_cells row !! "Enabled").

(** The change that the loop records for the key of [t] under the column
    [col]: the older cell first, the newer cell second. *)
Definition column_change (mods1 mods2 : gmap string Row) (col : string)
    (t : Change) : Prop :=
  ∃ row1 row2,
    mods1 !! t.1.1 = Some row1 ∧ mods2 !! t.1.1 = Some row2
    ∧ row_cells row1 !! col = Some t.2 ∧ row_cells row2 !! col = Some t.1.2
    ∧ t.1.2 ≠ t.2.

(** The scenario of the specification: the newer snapshot has A:X enabled,
    the older has A:X disabled and B:Y. *)
Definition sample_row (a n v e : string) : Row :=
  dict_row headers [a; n; v; e; ""; ""].

Definition sample_newer : gmap string Row :=
  {["A:X" := sample_row "A" "X" "1.0.0" "Yes"]}.

Definition sample_older : gmap string Row :=
  <["B:Y" := sample_row "B" "Y" "2.0.0" "Yes"]>
    {["A:X" := sample_row "A" "X" "1.0.0" "No"]}.

(** ** Further functions of the script *)

(** *** [sort_mods] *)

(** [c.lower()] for a code point below 256. *)
Definition char_lower (c : ascii) : ascii :=
  let n := N_of_ascii c in
  if ((65 <=? n) && (n <=? 90)
      || (192 <=? n) && (n <=? 222) && negb (n =? 215))%N
  then ascii_of_N (n + 32)
  else c.

(** [s.lower()] *)
Fixpoint lower (s : string) : string :=
  match s with
  | "" => ""
  | String c r => String (char_lower c) (lower r)
  end.

(** [a < b] on [str]: by code points, a proper prefix is smaller. *)
Fixpoint str_lt (a b : string) : bool :=
  match a, b with
  | "", "" => false
  | "", String _ _ => true
  | String _ _, "" => false
  | String x a', String y b' =>
      if (N_of_ascii x <? N_of_ascii y)%N then true
      else if (N_of_ascii y <? N_of_ascii x)%N then false
      else str_lt a' b'
  end.

(** [a < b] on pairs of [str]. *)
Definition pair_lt (a b : string * string) : bool :=
  if str_lt a.1 b.1 then true
  else if str_lt b.1 a.1 then false
  else str_lt a.2 b.2.

(** [v.lower()] on any value: only a [str] has the method. *)
Definition py_lower (v : PyVal) : Res string :=
  match v with
  | PyStr s => Ok (lower s)
  | _ => Raise AttributeError
  end.

(** The key function of [sort_mods]. *)
Definition sort_key (x : ModInfo PyVal) : Res (string * string) :=
  a <~ py_lower (author x);
  n <~ py_lower (name x);
  Ok (a, n).

(** [sort_mods]: the keys are computed for all the records first, then the
    records are sorted on them. *)
Definition sort_mods (mods_list : list (ModInfo PyVal)) : Res (list (ModInfo PyVal)) :=
  keys <~ res_mapM sort_key mods_list;
  Ok (map snd (sorted fst pair_lt false (zip keys mods_list))).

(** The first two steps of [export_mode] on the loaded manifest: normalize
    every entry, then sort. *)
Definition normalize_and_sort (mods_data : list RawMod) : Res (list (ModInfo PyVal)) :=
  mods_list <~ res_mapM parse_mod_info mods_data;
  sort_mods mods_list.

(** *** [generate_colors] and the colours of [export_to_ods] *)

Definition colors : list string :=
  ["#E6F3FF"; "#FFE6E6"; "#E6FFE6"; "#FFF4E6"; "#F0E6FF";
   "#FFFFE6"; "#FFE6F0"; "#E6FFFF"; "#F5E6D3"; "#E6E6FF"].

Definition generate_colors (num_authors : nat) : list string :=
  map (λ i, colors !!! (i mod length colors)) (seq 0 num_authors).

(** [list(dict.fromkeys(l))]: the elements of [l] without repetition, in
    the order they first come. *)
Definition dict_fromkeys (l : list string) : list string :=
  foldl (λ seen a, if bool_decide (a ∈ seen) then seen else seen ++ [a]) [] l.

(** [author_colors] of [export_to_ods]: [dict(zip(authors, colours))]. *)
Definition author_colors (mods_list : list Mod) : list (string * string) :=
  let authors := dict_fromkeys (map author mods_list) in
  zip authors (generate_colors (length authors)).

(** *** The menus *)

(** What a call of [input] meets: a line typed by the user, or an
    interrupt from the keyboard. *)
Inductive InputEvent : Type :=
  | Typed (line : string)
  | Interrupted.

(** The outcome of a dialogue: an answer, or the name of an exception
    that it does not catch.  [input] raises EOFError at the end of the
    input. *)
Inductive Prompted (A : Type) : Type :=
  | Answered (a : A)
  | Uncaught (exception : string).
Arguments Answered {A} a.
Arguments Uncaught {A} exception.

(** [int(s)] on a line of input: [None] where it raises ValueError, for
    a text that is no numeral or has too many digits. *)
Definition int_of_input (s : string) : option Z := py_int s.

(** [l[i]]: a negative index counts from the end; [None] where it raises
    IndexError. *)
Definition py_list_item {A : Type} (l : list A) (i : Z) : option A :=
  let n := Z.of_nat (length l) in
  if (i <? 0)%Z
  then (if (i + n <? 0)%Z then None else l !! Z.to_nat (i + n))
  else l !! Z.to_nat i.

(** The loop of [select_profile]; the console output is left out. *)
Fixpoint select_profile (profiles : list string) (inputs : list InputEvent)
    : Prompted (option string) :=
  match inputs with
  | [] => Uncaught "EOFError"
  | Interrupted :: _ => Answered None
  | Typed line :: rest =>
      let choice := strip line in
      match int_of_input choice with
      | None => select_profile profiles rest
      | Some idx =>
          if (idx =? 0)%Z then Answered None
          else if ((1 <=? idx) && (idx <=? Z.of_nat (length profiles)))%Z
          then match py_list_item profiles (idx - 1) with
               | Some p => Answered (Some p)
               | None => Uncaught "IndexError"
               end
          else select_profile profiles rest
      end
  end.

(** The loop of [select_mode]; the console output is left out. *)
Fixpoint select_mode (inputs : list InputEvent) : Prompted Z :=
  match inputs with
  | [] => Uncaught "EOFError"
  | Interrupted :: _ => Answered 3%Z
  | Typed line :: rest =>
      let choice := strip line in
      if bool_decide (choice ∈ ["1"; "2"; "3"])
      then match int_of_input choice with
           | Some z => Answered z
           | None => Uncaught "ValueError"
           end
      else select_mode rest
  end.

(** The dialogue of [compare_exports] that picks the two files, from the
    list of the files found; [None] is the return to the main menu. *)
Definition choose_files {A : Type} (csv_files : list A) (inputs : list InputEvent)
    : Prompted (option (A * A)) :=
  let len := Z.of_nat (length csv_files) in
  if (len <? 2)%Z then
    match inputs with
    | [] => Uncaught "EOFError"
    | Interrupted :: _ => Uncaught "KeyboardInterrupt"
    | Typed _ :: _ => Answered None
    end
  else
    match inputs with
    | [] => Uncaught "EOFError"
    | Interrupted :: _ => Answered None
    | Typed line1 :: rest1 =>
        let choice1 := strip line1 in
        if str_eqb choice1 "0" then Answered None
        else match int_of_input choice1 with
        | None => Answered None
        | Some i1 =>
            let idx1 := (i1 - 1)%Z in
            match rest1 with
            | [] => Uncaught "EOFError"
            | Interrupted :: _ => Answered None
            | Typed line2 :: rest2 =>
                let choice2 := strip line2 in
                if str_eqb choice2 "0" then Answered None
                else match int_of_input choice2 with
                | None => Answered None
                | Some i2 =>
                    let idx2 := (i2 - 1)%Z in
                    if ((idx1 <? 0) || (len <=? idx1)
                        || (idx2 <? 0) || (len <=? idx2))%Z
                    then match rest2 with
                         | [] => Uncaught "EOFError"
                         | _ :: _ => Answered None
                         end
                    else match py_list_item csv_files idx1,
                               py_list_item csv_files idx2 with
                         | Some file1, Some file2 => Answered (Some (file1, file2))
                         | _, _ => Uncaught "IndexError"
                         end
                end
            end
        end
    end.

(** *** Keys on display *)

(** [s.split(sep, 1)] for a one-character separator. *)
Fixpoint str_split_once (sep : ascii) (s : string) : list string :=
  match s with
  | "" => [""]
  | String c r =>
      if char_eqb c sep then [""; r]
      else match str_split_once sep r with
           | p :: ps => String c p :: ps
           | [] => [String c ""]
           end
  end.

(** [author, name = key.split(':', 1)] *)
Definition split_key (key : string) : Res (string * string) :=
  match str_split_once ":"%char key with
  | [a; n] => Ok (a, n)
  | _ => Raise ValueError
  end.

(** *** From the two files to the comparison *)

(** The middle of [compare_exports] once the two files are chosen: the
    warnings of the two loads, and the result of the comparison.  The
    second file is not read when reading the first one raises. *)
Definition compare_files (name1 content1 name2 content2 : string)
    : list string * Res Comparison :=
  match load_csv_for_comparison name1 content1 with
  | (out1, Raise e) => (out1, Raise e)
  | (out1, Ok mods1) =>
      match load_csv_for_comparison name2 content2 with
      | (out2, Raise e) => (out1 ++ out2, Raise e)
      | (out2, Ok mods2) => (out1 ++ out2, compare_exports mods1 mods2)
      end
  end.

(** ** Notions used in the further statements *)

#[export] Instance PyExc_eq_dec : EqDecision PyExc.
Proof. solve_decision. Defined.

#[export] Instance Res_eq_dec {A : Type} `{EqDecision A} : EqDecision (Res A).
Proof. solve_decision. Defined.

(** The sort key of a record, where it has one. *)
Definition key_of (x : ModInfo PyVal) : string * string :=
  match sort_key x with
  | Ok k => k
  | Raise _ => ("", "")
  end.

Definition is_text (v : PyVal) : bool :=
  match v with PyStr _ => true | _ => false end.

(** A manifest entry that the first two steps of the export accept: the
    normalizer accepts it, and the values that become its name and its
    author are texts. *)
Definition sortable_entry (raw : RawMod) : bool :=
  normalizable raw
  && is_text (dict_get raw "displayName" (dict_get raw "name" (PyStr "Unknown")))
  && is_text (dict_get raw "authorName" (PyStr "Unknown")).

(** A normalized record for the examples. *)
Definition sample_info (n a : string) : ModInfo PyVal :=
  mkModInfo (PyStr n) (PyStr a) "1.0.0" (PyStr "") "Yes" (PyStr "").

(** A line that [select_profile] answers with a new prompt when there are
    [n] profiles: no numeral, or a number outside 0..n. *)
Definition rejected_choice (n : nat) (line : string) : bool :=
  match int_of_input (strip line) with
  | None => true
  | Some idx => (idx <? 0)%Z || (Z.of_nat n <? idx)%Z
  end.

(** A line that [select_mode] answers with a new prompt. *)
Definition rejected_mode (line : string) : bool :=
  negb (bool_decide (strip line ∈ ["1"; "2"; "3"])).

(** A record whose six cells the round trip leaves alone. *)
Definition safe_cells (m : Mod) : bool := forallb csv_safe (mod_row m).

(** A record the snapshot reader keeps: it has an author and a name. *)
Definition keyed (m : Mod) : bool :=
  negb (str_is_empty (author m)) && negb (str_is_empty (name m)).

(** What the comparison of the scenario returns. *)
Definition sample_comparison : Comparison :=
  mkComparison ∅ {["B:Y"]} {["A:X"]} [] [("A:X", Some "No", Some "Yes")].

(** The record that stands for the key [k] in a collection once written
    and read back: the last of the records with an author and a name
    whose key is [k]. *)
Definition record_of (mods_list : list Mod) (k : string) : option Mod :=
  last (filter (λ m, keyed m = true ∧ mod_key m = k) mods_list).

(** A text without a line break. *)
Definition single_line (s : string) : bool :=
  negb (str_contains CR s) && negb (str_contains LF s).

(** A record whose name, author and version have no line break. *)
Definition single_line_summary (m : Mod) : bool :=
  forallb single_line (summary_row m).

(** The name of the record is Author, leading blanks apart. *)
Definition named_author (m : Mod) : bool :=
  str_eqb (lstrip_with py_isspace (name m)) "Author".

(** The text of a row on its line, before the terminator. *)
Definition row_line (cells : list string) : string :=
  match cells with
  | [] => ""
  | _ => if str_is_empty (csv_line cells) then String DQUOTE (String DQUOTE "")
         else csv_line cells
  end.

(** A row that takes one line of the file, and not one that the snapshot
    reader takes for the header of the table. *)
Definition plain_row (cells : list string) : Prop :=
  Forall (λ s, single_line s = true) cells
  ∧ is_header_line (row_line cells +:+ String LF "") = false.

(** Two collections for the examples. *)
Definition sample_newer_mods : list Mod :=
  [sample_mod "Jotunn" "2.20.1"; sample_mod "Ward, Is Love" "3.0.1"].

Definition sample_older_mods : list Mod :=
  [sample_mod "Jotunn" "2.20.0"; sample_mod "Jotunn" "2.20.0"; sample_mod "Gone" "1.0.0"].

(** A record whose summary row reads like the header of the table. *)
Definition confusing_mod : Mod :=
  mkModInfo "Author" "Mod Name" "Version 1" "" "Yes" "".

(** The cell under a column of the row under a key, in what the snapshot
    reader returned. *)
Definition loaded_cell (loaded : list string * Res (gmap string Row))
    (key col : string) : option (option string) :=
  match loaded.2 with
  | Ok mods => mods !! key ≫= λ row, row_cells row !! col
  | Raise _ => None
  end.

(** What the snapshot reader returns on the export of a collection with
    its own statistics. *)
Definition reloaded (mods_list : list Mod) : list string * Res (gmap string Row) :=
  load_csv_for_comparison "Default.csv"
    (export_to_csv mods_list
       (calculate_statistics mods_list "Default" "2024-01-01 00:00:00")).

(* ===================================================================== *)
(** * Part II: properties                                                 *)
(* ===================================================================== *)

Example parse_mod_info_ex1 :
  parse_mod_info [("name", PyStr "denikson-BepInExPack_Valheim");
                  ("displayName", PyStr "BepInExPack Valheim");
                  ("versionNumber", PyDict [("major", PyInt 5); ("minor", PyInt 4);
                                            ("patch", PyInt 2333)]);
                  ("enabled", PyBool true)]
  = Ok (mkModInfo (PyStr "BepInExPack Valheim") (PyStr "Unknown") "5.4.2333"
                  (PyStr "") "Yes" (PyStr "")).
Proof. reflexivity. Qed.

(** ** Strings *)

Lemma app_cons_str (c : ascii) (s t : string) :
  String c s +:+ t = String c (s +:+ t).
Proof. reflexivity. Qed.

Lemma app_nil_l_str (s : string) : "" +:+ s = s.
Proof. reflexivity. Qed.

Lemma app_nil_r_str (s : string) : s +:+ "" = s.
Proof.
  induction s as [|c s IH]; [reflexivity|].
  rewrite app_cons_str, IH. reflexivity.
Qed.

Lemma app_assoc_str (s t u : string) : (s +:+ t) +:+ u = s +:+ t +:+ u.
Proof.
  induction s as [|c s IH]; [reflexivity|].
  rewrite !app_cons_str, IH. reflexivity.
Qed.

Lemma char_eqb_eq (a b : ascii) : char_eqb a b = true ↔ a = b.
Proof. apply Ascii.eqb_eq. Qed.

Lemma char_eqb_refl (a : ascii) : char_eqb a a = true.
Proof. apply char_eqb_eq. reflexivity. Qed.

Lemma char_eqb_neq (a b : ascii) : char_eqb a b = false ↔ a ≠ b.
Proof. apply Ascii.eqb_neq. Qed.

Lemma str_eqb_eq (s t : string) : str_eqb s t = true ↔ s = t.
Proof. apply String.eqb_eq. Qed.

Lemma str_eqb_refl (s : string) : str_eqb s s = true.
Proof. apply str_eqb_eq. reflexivity. Qed.

Lemma str_eqb_neq (s t : string) : str_eqb s t = false ↔ s ≠ t.
Proof. apply String.eqb_neq. Qed.

Lemma str_contains_app (c : ascii) (s t : string) :
  str_contains c (s +:+ t) = str_contains c s || str_contains c t.
Proof.
  induction s as [|a s IH]; [reflexivity|].
  rewrite app_cons_str. simpl. rewrite IH, orb_assoc. reflexivity.
Qed.

Lemma str_forall_app (P : ascii → bool) (s t : string) :
  str_forall P (s +:+ t) = str_forall P s && str_forall P t.
Proof.
  induction s as [|a s IH]; [reflexivity|].
  rewrite app_cons_str. simpl. rewrite IH, andb_assoc. reflexivity.
Qed.

Lemma str_forall_not_contains (P : ascii → bool) (c : ascii) (s : string) :
  P c = false → str_forall P s = true → str_contains c s = false.
Proof.
  intros Hc. induction s as [|a s IH]; [reflexivity|].
  simpl. intros [Ha Hs]%andb_true_iff.
  rewrite (IH Hs), orb_false_r. apply char_eqb_neq. intros ->. congruence.
Qed.

(** Splitting at a separator that the first part does not contain. *)
Lemma str_split_last (sep : ascii) (s : string) :
  str_contains sep s = false → str_split sep s = [s].
Proof.
  induction s as [|c s IH]; [reflexivity|].
  simpl. intros [Hc Hs]%orb_false_iff. rewrite Hc, (IH Hs). reflexivity.
Qed.

Lemma str_split_app (sep : ascii) (s t : string) :
  str_contains sep s = false →
  str_split sep (s +:+ String sep t) = s :: str_split sep t.
Proof.
  induction s as [|c s IH].
  - intros _. rewrite app_nil_l_str. simpl. rewrite char_eqb_refl. reflexivity.
  - intros H. simpl in H. apply orb_false_iff in H as [Hc Hs].
    rewrite app_cons_str. simpl. rewrite Hc, (IH Hs). reflexivity.
Qed.

Lemma str_join_cons2 (sep s s' : string) (l : list string) :
  str_join sep (s :: s' :: l) = s +:+ sep +:+ str_join sep (s' :: l).
Proof. reflexivity. Qed.

Lemma str_split_join (sep : ascii) (l : list string) :
  l ≠ [] → Forall (λ s, str_contains sep s = false) l →
  str_split sep (str_join (String sep "") l) = l.
Proof.
  induction l as [|s l IH]; [done|].
  intros _ Hl. apply Forall_cons in Hl as [Hs Hl].
  destruct l as [|s' l].
  - apply str_split_last, Hs.
  - rewrite str_join_cons2, app_cons_str, app_nil_l_str.
    rewrite str_split_app by done. rewrite IH; done.
Qed.

(** ** Decimal numerals *)

Lemma string_of_uint_digits (d : Decimal.uint) :
  str_forall is_digit (NilEmpty.string_of_uint d) = true.
Proof. induction d; simpl; auto. Qed.

Lemma str_of_nonneg_digits (z : Z) :
  (0 ≤ z)%Z → all_digits (decimal z) = true.
Proof.
  intros Hz. unfold decimal, all_digits.
  destruct z as [|p|p]; [reflexivity| |lia].
  simpl. pose proof (DecimalPos.Unsigned.to_uint_nonnil p) as Hnil.
  pose proof (string_of_uint_digits (Pos.to_uint p)) as Hd.
  unfold NilZero.string_of_uint.
  destruct (Pos.to_uint p); [done|..]; rewrite Hd; reflexivity.
Qed.

Lemma all_digits_no_dot (s : string) :
  all_digits s = true → str_contains "."%char s = false.
Proof.
  intros [_ Hs]%andb_true_iff. eapply str_forall_not_contains; [|exact Hs]. reflexivity.
Qed.

Lemma is_version_text_join (a b c : string) :
  all_digits a = true → all_digits b = true → all_digits c = true →
  is_version_text (a +:+ "." +:+ b +:+ "." +:+ c) = true.
Proof.
  intros Ha Hb Hc. unfold is_version_text.
  rewrite !app_cons_str, !app_nil_l_str.
  rewrite !str_split_app by (by apply all_digits_no_dot).
  rewrite str_split_last by (by apply all_digits_no_dot).
  rewrite Ha, Hb, Hc. reflexivity.
Qed.

(** [str] prints an int exactly when its numeral is within the limit. *)
Lemma str_of_int_outcome (z : Z) :
  str_of_int z = if within_limit z then Ok (decimal z) else Raise ValueError.
Proof.
  unfold str_of_int, within_limit.
  destruct (N.ltb_spec int_max_str_digits (count_digits (decimal z))) as [H|H].
  - apply N.leb_gt in H. by rewrite H.
  - apply N.leb_le in H. by rewrite H.
Qed.

(** ** Rendering values *)

Lemma res_mapM_outcome {A B : Type} (f : A → Res B) (ok : A → bool) (e : PyExc)
    (l : list A) :
  Forall (λ x, if ok x then ∃ y, f x = Ok y else f x = Raise e) l →
  if forallb ok l then ∃ ys, res_mapM f l = Ok ys else res_mapM f l = Raise e.
Proof.
  induction 1 as [|x l Hx _ IH]; simpl; [by eexists|].
  destruct (ok x); simpl.
  - destruct Hx as [y ->]. simpl. destruct (forallb ok l).
    + destruct IH as [ys ->]. by eexists.
    + by rewrite IH.
  - by rewrite Hx.
Qed.

(** [repr] renders a value exactly when no int inside it is over the
    limit; otherwise it raises ValueError. *)
Lemma py_repr_outcome (v : PyVal) :
  if within_digit_limit v then ∃ s, py_repr v = Ok s
  else py_repr v = Raise ValueError.
Proof.
  induction v as [|b|z|s|l IH|d IH] using PyVal_nested_ind;
    try (simpl; by eexists).
  - simpl. rewrite str_of_int_outcome. destruct (within_limit z); [by eexists|done].
  - cbn [py_repr within_digit_limit].
    pose proof (res_mapM_outcome py_repr within_digit_limit ValueError l IH) as H.
    destruct (forallb within_digit_limit l).
    + destruct H as [ys ->]. by eexists.
    + by rewrite H.
  - cbn [py_repr within_digit_limit].
    pose proof (res_mapM_outcome
                  (λ kv : string * PyVal,
                     match kv with
                     | (k, x) => r <~ py_repr x; Ok (repr_str k +:+ ": " +:+ r)
                     end)
                  (λ kv : string * PyVal,
                     match kv with (_, x) => within_digit_limit x end)
                  ValueError d) as H.
    destruct (forallb _ d).
    + destruct H as [ys ->]; [|by eexists].
      eapply Forall_impl; [exact IH|]. intros [k x] Hx. simpl in Hx.
      destruct (within_digit_limit x); [|by rewrite Hx].
      destruct Hx as [r ->]. by eexists.
    + rewrite H; [done|].
      eapply Forall_impl; [exact IH|]. intros [k x] Hx. simpl in Hx.
      destruct (within_digit_limit x); [|by rewrite Hx].
      destruct Hx as [r ->]. by eexists.
Qed.

Lemma py_str_outcome (v : PyVal) :
  if within_digit_limit v then ∃ s, py_str v = Ok s
  else py_str v = Raise ValueError.
Proof.
  pose proof (py_repr_outcome v) as H.
  destruct v; try exact H. simpl. by eexists.
Qed.

(** ** The manifest normalizer *)

Lemma parse_mod_info_raises (m : RawMod) :
  version_is_mapping m = false → parse_mod_info m = Raise AttributeError.
Proof.
  unfold version_is_mapping, parse_mod_info.
  destruct (dict_get m "versionNumber" (PyDict [])); done.
Qed.

(** What the normalizer does with every entry: a record for an entry it
    accepts, ValueError for a mapping version with an int over the limit,
    AttributeError for a version that is no mapping. *)
Lemma parse_mod_info_outcome (m : RawMod) :
  if normalizable m then
    ∃ v, parse_mod_info m
         = Ok {| name := dict_get m "displayName" (dict_get m "name" (PyStr "Unknown"));
                 author := dict_get m "authorName" (PyStr "Unknown");
                 version := v;
                 description := dict_get m "description" (PyStr "");
                 enabled := if py_truth (dict_get m "enabled" (PyBool false))
                            then "Yes" else "No";
                 website := dict_get m "websiteUrl" (PyStr "") |}
  else if version_is_mapping m then parse_mod_info m = Raise ValueError
  else parse_mod_info m = Raise AttributeError.
Proof.
  unfold normalizable, version_is_mapping, parse_mod_info.
  destruct (dict_get m "versionNumber" (PyDict [])) as [| | | | |d]; try done.
  simpl.
  pose proof (py_str_outcome (dict_get d "major" (PyInt 0))) as H1.
  pose proof (py_str_outcome (dict_get d "minor" (PyInt 0))) as H2.
  pose proof (py_str_outcome (dict_get d "patch" (PyInt 0))) as H3.
  destruct (within_digit_limit (dict_get d "major" (PyInt 0)));
    [destruct H1 as [s1 ->]|by rewrite H1].
  destruct (within_digit_limit (dict_get d "minor" (PyInt 0)));
    [destruct H2 as [s2 ->]|by rewrite H2].
  destruct (within_digit_limit (dict_get d "patch" (PyInt 0)));
    [destruct H3 as [s3 ->]|by rewrite H3].
  simpl. by eexists.
Qed.

Lemma parse_mod_info_fields (m : RawMod) (r : ModInfo PyVal) :
  parse_mod_info m = Ok r →
  normalizable m = true
  ∧ name r = dict_get m "displayName" (dict_get m "name" (PyStr "Unknown"))
  ∧ author r = dict_get m "authorName" (PyStr "Unknown")
  ∧ description r = dict_get m "description" (PyStr "")
  ∧ website r = dict_get m "websiteUrl" (PyStr "")
  ∧ enabled r = (if py_truth (dict_get m "enabled" (PyBool false)) then "Yes" else "No").
Proof.
  intros Hr. pose proof (parse_mod_info_outcome m) as H.
  destruct (normalizable m).
  - destruct H as [v H]. rewrite H in Hr. injection Hr as <-. done.
  - destruct (version_is_mapping m); congruence.
Qed.


(** A second way to fail: an int of 4301 digits under major cannot be
    rendered, and the normalizer raises ValueError. *)
Example parse_mod_info_huge_int :
  parse_mod_info [("versionNumber", PyDict [("major", PyInt (10 ^ 4300))])]
  = Raise ValueError
  ∧ ∃ r, parse_mod_info [("versionNumber", PyDict [("major", PyInt (10 ^ 4300 - 1))])]
         = Ok r.
Proof.
  split.
  - pose proof (parse_mod_info_outcome
                  [("versionNumber", PyDict [("major", PyInt (10 ^ 4300))])]) as H.
    assert (normalizable [("versionNumber", PyDict [("major", PyInt (10 ^ 4300))])]
            = false) as Hn by (vm_compute; reflexivity).
    rewrite Hn in H. exact H.
  - pose proof (parse_mod_info_outcome
                  [("versionNumber", PyDict [("major", PyInt (10 ^ 4300 - 1))])]) as H.
    assert (normalizable [("versionNumber", PyDict [("major", PyInt (10 ^ 4300 - 1))])]
            = true) as Hn by (vm_compute; reflexivity).
    rewrite Hn in H. destruct H as [v H]. by eexists.
Qed.



(** The empty mapping is accepted, with every default. *)
Example parse_mod_info_empty :
  parse_mod_info []
  = Ok (mkModInfo (PyStr "Unknown") (PyStr "Unknown") "0.0.0" (PyStr "") "No" (PyStr "")).
Proof. reflexivity. Qed.

(** C3 (as stated, refuted): a display name that is present and null is
    what the normalizer returns; it does not fall back to the internal
    name. *)
Lemma parse_mod_info_null_display_name :
  ∃ r, parse_mod_info [("displayName", PyNone); ("name", PyStr "Jotunn")] = Ok r
       ∧ name r = PyNone
       ∧ name_rule_of_spec [("displayName", PyNone); ("name", PyStr "Jotunn")]
         = PyStr "Jotunn"
       ∧ name r ≠ name_rule_of_spec [("displayName", PyNone); ("name", PyStr "Jotunn")].
Proof. eexists. repeat split. discriminate. Qed.

(** C3 (amended): the normalized name is the value under the display-name
    key whenever that key is present, a null value included; otherwise the
    value under the internal-name key if present; otherwise the text
    Unknown.  It agrees with the rule of the specification on every record
    whose display name is not a present null. *)
Theorem parse_mod_info_name (m : RawMod) (r : ModInfo PyVal) :
  parse_mod_info m = Ok r →
  name r = match dict_lookup m "displayName" with
           | Some v => v
           | None => match dict_lookup m "name" with
                     | Some v => v
                     | None => PyStr "Unknown"
                     end
           end
  ∧ (dict_lookup m "displayName" ≠ Some PyNone → name r = name_rule_of_spec m).
Proof.
  intros Hr. destruct (parse_mod_info_fields m r Hr) as (_ & -> & _).
  unfold name_rule_of_spec, dict_get.
  split; [reflexivity|].
  destruct (dict_lookup m "displayName") as [[]|]; done.
Qed.

Lemma parse_mod_info_name_witness :
  name (mkModInfo (PyStr "Jotunn") (PyStr "Unknown") "0.0.0" (PyStr "") "No" (PyStr ""))
  = PyStr "Jotunn".
Proof.
  exact (proj1 (parse_mod_info_name [("name", PyStr "Jotunn")] _ eq_refl)).
Defined.

(** C9 (as stated, refuted): an ill-typed sub-field is rendered as it is,
    so the version text is neither of the numeric form nor the default. *)
Lemma parse_mod_info_version_ill_typed :
  ∃ r, parse_mod_info [("versionNumber", PyDict [("major", PyStr "beta")])] = Ok r
       ∧ version r = "beta.0.0"
       ∧ is_version_text (version r) = false
       ∧ version r ≠ "0.0.0".
Proof. eexists. repeat split. discriminate. Qed.

(** A boolean is rendered as a word, not as the int it counts as. *)
Example parse_mod_info_version_boolean :
  ∃ r, parse_mod_info [("versionNumber", PyDict [("major", PyBool true)])] = Ok r
       ∧ version r = "True.0.0".
Proof. eexists. split; reflexivity. Qed.

(** A negative int is rendered with its sign, which is no component of
    the form. *)
Example parse_mod_info_version_negative :
  ∃ r, parse_mod_info [("versionNumber", PyDict [("minor", PyInt (-1))])] = Ok r
       ∧ version r = "0.-1.0"
       ∧ is_version_text (version r) = false.
Proof. eexists. repeat split. Qed.

Lemma version_component_str (d : list (string * PyVal)) (k : string) (z : Z) :
  version_component d k = Some z →
  py_str (dict_get d k (PyInt 0)) = Ok (decimal z) ∧ (0 ≤ z)%Z.
Proof.
  unfold version_component, dict_get.
  destruct (dict_lookup d k) as [[| |z'| | |]|]; try done.
  - destruct (Z.leb_spec 0 z'); [|done]. simpl.
    destruct (within_limit z') eqn:Hlim; [|done]. intros [= ->].
    by rewrite str_of_int_outcome, Hlim.
  - intros [= <-]. done.
Qed.

(** C9 (amended): when versionNumber is absent or is a mapping whose
    major, minor and patch are each absent or a non-negative int of 4300
    digits at most, the version field is the three decimal numerals joined
    by dots, an absent component counting as 0; it then has the form
    major.minor.patch. *)
Theorem parse_mod_info_version (m : RawMod) (d : list (string * PyVal)) (a b c : Z) :
  dict_get m "versionNumber" (PyDict []) = PyDict d →
  version_component d "major" = Some a →
  version_component d "minor" = Some b →
  version_component d "patch" = Some c →
  ∃ r, parse_mod_info m = Ok r
       ∧ version r = decimal a +:+ "." +:+ decimal b +:+ "." +:+ decimal c
       ∧ is_version_text (version r) = true.
Proof.
  intros Hd Ha Hb Hc. unfold parse_mod_info. rewrite Hd. simpl.
  apply version_component_str in Ha as [-> ?], Hb as [-> ?], Hc as [-> ?].
  eexists. split; [reflexivity|]. split; [reflexivity|]. simpl.
  apply is_version_text_join; apply str_of_nonneg_digits; done.
Qed.

Lemma parse_mod_info_version_witness :
  ∃ r, parse_mod_info [("versionNumber", PyDict [("major", PyInt 5); ("patch", PyInt 2333)])]
       = Ok r
       ∧ version r = "5.0.2333"
       ∧ is_version_text (version r) = true.
Proof.
  exact (parse_mod_info_version
           [("versionNumber", PyDict [("major", PyInt 5); ("patch", PyInt 2333)])]
           [("major", PyInt 5); ("patch", PyInt 2333)] 5 0 2333
           eq_refl eq_refl eq_refl eq_refl).
Defined.

(** With no version sub-record at all the version is the default. *)
Lemma parse_mod_info_version_default (m : RawMod) (r : ModInfo PyVal) :
  dict_lookup m "versionNumber" = None →
  parse_mod_info m = Ok r → version r = "0.0.0".
Proof.
  unfold parse_mod_info, dict_get. intros ->. intros [= <-]. reflexivity.
Qed.

(** ** Stable sorting *)

Section sorting_facts.
Context {A K : Type} `{EqDecision K} (key : A → K) (lt : K → K → bool).
Hypothesis lt_irrefl : ∀ a, lt a a = false.
Hypothesis lt_trans : ∀ a b c, lt a b = true → lt b c = true → lt a c = true.
Hypothesis lt_total : ∀ a b, lt a b = false → lt b a = false → a = b.

Local Abbreviation key_le := (key_le key lt).

Lemma key_le_trans (x y z : A) : key_le x y → key_le y z → key_le x z.
Proof.
  unfold key_le. intros Hxy Hyz.
  destruct (lt (key z) (key x)) eqn:Hzx; [|reflexivity].
  destruct (lt (key x) (key y)) eqn:Hlt.
  - rewrite (lt_trans _ _ _ Hzx Hlt) in Hyz. discriminate.
  - rewrite (lt_total _ _ Hlt Hxy) in Hzx. congruence.
Qed.


Lemma insert_sorted_perm (x : A) (l : list A) :
  insert_sorted key lt x l ≡ₚ x :: l.
Proof.
  induction l as [|y l IH]; simpl; [reflexivity|].
  destruct (lt (key y) (key x)); [|reflexivity].
  rewrite IH. apply Permutation_swap.
Qed.

Lemma stable_sort_perm (l : list A) : stable_sort key lt l ≡ₚ l.
Proof.
  induction l as [|x l IH]; simpl; [reflexivity|].
  rewrite insert_sorted_perm, IH. reflexivity.
Qed.

Lemma insert_sorted_sorted (x : A) (l : list A) :
  StronglySorted key_le l → StronglySorted key_le (insert_sorted key lt x l).
Proof.
  induction 1 as [|y l Hl IH Hy]; simpl.
  - repeat constructor.
  - destruct (lt (key y) (key x)) eqn:Hyx.
    + constructor; [exact IH|].
      rewrite insert_sorted_perm. constructor; [|exact Hy].
      unfold key_le. destruct (lt (key x) (key y)) eqn:Hxy; [|reflexivity].
      pose proof (lt_trans _ _ _ Hxy Hyx) as Hxx.
      rewrite lt_irrefl in Hxx. discriminate.
    + constructor; [constructor; assumption|].
      constructor; [exact Hyx|].
      eapply Forall_impl; [exact Hy|].
      intros z Hz. eapply key_le_trans; [exact Hyx|exact Hz].
Qed.

Lemma stable_sort_sorted (l : list A) :
  StronglySorted key_le (stable_sort key lt l).
Proof.
  induction l as [|x l IH]; simpl; [constructor|].
  apply insert_sorted_sorted, IH.
Qed.

(** Stability: the elements of one key keep their order. *)
Lemma insert_sorted_filter (k : K) (x : A) (l : list A) :
  filter (λ y, key y = k) (insert_sorted key lt x l)
  = filter (λ y, key y = k) (x :: l).
Proof.
  induction l as [|y l IH]; simpl; [reflexivity|].
  destruct (lt (key y) (key x)) eqn:Hyx; [|reflexivity].
  rewrite !filter_cons in *. rewrite IH.
  destruct (decide (key y = k)) as [Hy|Hy], (decide (key x = k)) as [Hx|Hx];
    try reflexivity.
  rewrite Hy, Hx, lt_irrefl in Hyx. discriminate.
Qed.

Lemma stable_sort_filter (k : K) (l : list A) :
  filter (λ y, key y = k) (stable_sort key lt l) = filter (λ y, key y = k) l.
Proof.
  induction l as [|x l IH]; simpl; [reflexivity|].
  rewrite insert_sorted_filter, !filter_cons, IH. reflexivity.
Qed.

Lemma sorted_perm (rev : bool) (l : list A) : sorted key lt rev l ≡ₚ l.
Proof.
  destruct rev; simpl; [|apply stable_sort_perm].
  rewrite reverse_Permutation, stable_sort_perm. apply reverse_Permutation.
Qed.

Lemma sorted_length (rev : bool) (l : list A) :
  length (sorted key lt rev l) = length l.
Proof. apply Permutation_length, sorted_perm. Qed.

Lemma sorted_filter (rev : bool) (k : K) (l : list A) :
  filter (λ y, key y = k) (sorted key lt rev l) = filter (λ y, key y = k) l.
Proof.
  destruct rev; simpl; [|apply stable_sort_filter].
  rewrite filter_reverse, stable_sort_filter, filter_reverse.
  apply reverse_involutive.
Qed.

(** A reversed sort is in descending order. *)
Lemma sorted_reverse_sorted (l : list A) :
  StronglySorted (flip key_le) (sorted key lt true l).
Proof.
  simpl. generalize (stable_sort_sorted (reverse l)).
  generalize (stable_sort key lt (reverse l)). intros s Hs.
  induction Hs as [|x s Hs IH Hx].
  - rewrite reverse_nil. constructor.
  - rewrite reverse_cons. apply StronglySorted_app.
    split; [|split; [exact IH|repeat constructor]].
    intros y z Hy Hz. apply list_elem_of_singleton in Hz as ->.
    rewrite elem_of_reverse in Hy. rewrite Forall_forall in Hx.
    apply Hx, Hy.
Qed.

End sorting_facts.


(** ** Tuples of ints *)

Lemma tuple_lt_irrefl (a : list Z) : tuple_lt a a = false.
Proof.
  induction a as [|x a IH]; simpl; [reflexivity|].
  rewrite Z.ltb_irrefl. exact IH.
Qed.

Lemma tuple_lt_trans (a b c : list Z) :
  tuple_lt a b = true → tuple_lt b c = true → tuple_lt a c = true.
Proof.
  revert b c. induction a as [|x a IH]; intros [|y b] [|z c]; simpl; try done.
  destruct (Z.ltb_spec x y), (Z.ltb_spec y x), (Z.ltb_spec y z),
    (Z.ltb_spec z y), (Z.ltb_spec x z), (Z.ltb_spec z x);
    try done; try lia.
  apply IH.
Qed.

Lemma tuple_lt_total (a b : list Z) :
  tuple_lt a b = false → tuple_lt b a = false → a = b.
Proof.
  revert b. induction a as [|x a IH]; intros [|y b]; simpl; try done.
  destruct (Z.ltb_spec x y), (Z.ltb_spec y x); try done; try lia.
  intros Hab Hba. f_equal; [lia|]. apply IH; assumption.
Qed.

Lemma nat_ltb_irrefl (a : nat) : Nat.ltb a a = false.
Proof. apply Nat.ltb_irrefl. Qed.

Lemma nat_ltb_trans (a b c : nat) :
  Nat.ltb a b = true → Nat.ltb b c = true → Nat.ltb a c = true.
Proof. rewrite !Nat.ltb_lt. lia. Qed.

Lemma nat_ltb_total (a b : nat) :
  Nat.ltb a b = false → Nat.ltb b a = false → a = b.
Proof. rewrite !Nat.ltb_ge. lia. Qed.

(** ** Version keys *)

Lemma lstrip_with_head (sp : ascii → bool) (c : ascii) (r : string) :
  sp c = false → lstrip_with sp (String c r) = String c r.
Proof. intros H. simpl. rewrite H. reflexivity. Qed.

Lemma rstrip_with_none (sp : ascii → bool) (s : string) :
  str_forall (λ c, negb (sp c)) s = true → rstrip_with sp s = s.
Proof.
  induction s as [|c s IH]; [reflexivity|].
  simpl. intros [Hc Hs]%andb_true_iff. rewrite (IH Hs).
  apply negb_true_iff in Hc. rewrite Hc. reflexivity.
Qed.

Lemma digit_not_space (c : ascii) : is_digit c = true → int_isspace c = false.
Proof. destruct c as [[] [] [] [] [] [] [] []]; done. Qed.

Lemma digit_not_sign (c : ascii) :
  is_digit c = true → char_eqb c "+"%char = false ∧ char_eqb c "-"%char = false.
Proof. destruct c as [[] [] [] [] [] [] [] []]; done. Qed.

Lemma digits_no_space (s : string) :
  str_forall is_digit s = true →
  str_forall (λ c, negb (int_isspace c)) s = true.
Proof.
  induction s as [|c s IH]; [reflexivity|].
  simpl. intros [Hc Hs]%andb_true_iff.
  rewrite (digit_not_space c Hc), (IH Hs). reflexivity.
Qed.

Lemma int_digits_digits (b : bool) (s : string) :
  str_forall is_digit s = true → b = true ∨ s ≠ "" →
  int_digits b s = Some s.
Proof.
  revert b. induction s as [|c s IH]; intros b Hs Hb.
  - destruct Hb as [->|Hb]; done.
  - simpl in *. apply andb_true_iff in Hs as [Hc Hs].
    rewrite Hc, (IH true Hs) by auto. reflexivity.
Qed.

Lemma digit_not_limit_sign (c : ascii) (s : string) :
  is_digit c = false → count_digits (String c s) = count_digits s.
Proof. intros Hc. cbn [count_digits]. rewrite Hc. apply N.add_0_l. Qed.

(** [int()] on a plain numeral within the limit. *)
Lemma py_int_digits (s : string) :
  all_digits s = true →
  (count_digits s ≤ int_max_str_digits)%N →
  py_int s = Z.of_uint <$> NilEmpty.uint_of_string s.
Proof.
  intros [Hne Hs]%andb_true_iff Hlim. destruct s as [|c r]; [done|].
  pose proof Hs as Hs'. simpl in Hs'. apply andb_true_iff in Hs' as [Hc Hr].
  unfold py_int. rewrite lstrip_with_head by (by apply digit_not_space).
  rewrite rstrip_with_none by (by apply digits_no_space).
  destruct (N.ltb_spec int_max_str_digits (count_digits (String c r))); [lia|].
  destruct (digit_not_sign c Hc) as [-> ->].
  unfold int_unsigned. rewrite int_digits_digits by (done || by right).
  destruct (NilEmpty.uint_of_string (String c r)); reflexivity.
Qed.

Lemma py_int_uint (d : Decimal.uint) :
  d ≠ Decimal.Nil →
  (count_digits (NilEmpty.string_of_uint d) ≤ int_max_str_digits)%N →
  py_int (NilEmpty.string_of_uint d) = Some (Z.of_uint d).
Proof.
  intros Hd Hlim. rewrite py_int_digits.
  - rewrite NilEmpty.usu. reflexivity.
  - unfold all_digits. rewrite string_of_uint_digits, andb_true_r.
    destruct d; done.
  - exact Hlim.
Qed.

Lemma decimal_pos (p : positive) :
  decimal (Z.pos p) = NilEmpty.string_of_uint (Pos.to_uint p).
Proof.
  unfold decimal. simpl. unfold NilZero.string_of_uint.
  pose proof (DecimalPos.Unsigned.to_uint_nonnil p) as Hnil.
  destruct (Pos.to_uint p); done.
Qed.

Lemma decimal_neg (p : positive) :
  decimal (Z.neg p) = String "-" (NilEmpty.string_of_uint (Pos.to_uint p)).
Proof.
  unfold decimal. simpl. unfold NilZero.string_of_uint.
  pose proof (DecimalPos.Unsigned.to_uint_nonnil p) as Hnil.
  destruct (Pos.to_uint p); done.
Qed.

(** Reading back what [str()] printed: an int within the limit comes
    back. *)
Lemma py_int_decimal (z : Z) :
  within_limit z = true → py_int (decimal z) = Some z.
Proof.
  unfold within_limit. intros Hlim%N.leb_le.
  destruct z as [|p|p]; [reflexivity|..];
    pose proof (DecimalPos.Unsigned.to_uint_nonnil p) as Hnil.
  - pose proof (DecimalZ.of_to (Z.pos p)) as Hz. simpl in Hz.
    rewrite decimal_pos in *. rewrite py_int_uint by done.
    f_equal. exact Hz.
  - pose proof (DecimalZ.of_to (Z.neg p)) as Hz. simpl in Hz.
    rewrite decimal_neg in *. rewrite digit_not_limit_sign in Hlim by reflexivity.
    unfold py_int. rewrite lstrip_with_head by reflexivity.
    rewrite rstrip_with_none.
    2:{ simpl. apply digits_no_space, string_of_uint_digits. }
    rewrite digit_not_limit_sign by reflexivity.
    destruct (N.ltb_spec int_max_str_digits
                (count_digits (NilEmpty.string_of_uint (Pos.to_uint p)))); [lia|].
    simpl. unfold int_unsigned.
    rewrite int_digits_digits.
    + rewrite NilEmpty.usu. simpl. f_equal. exact Hz.
    + apply string_of_uint_digits.
    + right. destruct (Pos.to_uint p); done.
Qed.

(** A numeral over the limit is not read. *)
Lemma py_int_over_limit (s : string) :
  (int_max_str_digits <
     count_digits (rstrip_with int_isspace (lstrip_with int_isspace s)))%N →
  py_int s = None.
Proof. unfold py_int. intros H%N.ltb_lt. by rewrite H. Qed.

Lemma decimal_no_dot (z : Z) : str_contains "."%char (decimal z) = false.
Proof.
  unfold decimal.
  assert (Hu : ∀ d, str_contains "."%char (NilZero.string_of_uint d) = false).
  { intros d. unfold NilZero.string_of_uint.
    pose proof (string_of_uint_digits d) as Hd.
    destruct d; [reflexivity|..];
      (eapply str_forall_not_contains; [|exact Hd]; reflexivity). }
  destruct z as [|p|p]; simpl; [reflexivity|apply Hu|apply Hu].
Qed.

Lemma res_mapM_int_of_str (parts : list string) :
  (∃ t, res_mapM int_of_str parts = Ok t
        ∧ Forall2 (λ p z, py_int p = Some z) parts t)
  ∨ (∃ e p, res_mapM int_of_str parts = Raise e ∧ p ∈ parts ∧ py_int p = None).
Proof.
  induction parts as [|p parts IH]; simpl.
  - left. eexists. split; [reflexivity|constructor].
  - change (int_of_str p)
      with (match py_int p with Some z => Ok z | None => Raise ValueError end).
    destruct (py_int p) as [z|] eqn:Hp; simpl.
    + destruct IH as [(t & -> & Ht)|(e & q & -> & Hq & Hnone)]; simpl.
      * left. eexists. split; [reflexivity|]. constructor; assumption.
      * right. exists e, q. split; [reflexivity|]. split; [by right|done].
    + right. exists ValueError, p. split; [reflexivity|]. split; [by left|done].
Qed.

Lemma res_mapM_int_of_decimal (zs : list Z) :
  Forall (λ z, within_limit z = true) zs →
  res_mapM int_of_str (decimal <$> zs) = Ok zs.
Proof.
  induction 1 as [|z zs Hz _ IH]; [reflexivity|].
  rewrite fmap_cons. simpl. unfold int_of_str at 1.
  rewrite py_int_decimal by exact Hz. simpl. rewrite IH. reflexivity.
Qed.

(** Formatting a tuple of ints of any length, each within the limit, and
    taking the key of the outcome gives the tuple back. *)
Lemma version_key_of_numerals (m : Mod) (zs : list Z) :
  zs ≠ [] → Forall (λ z, within_limit z = true) zs →
  version m = str_join "." (decimal <$> zs) →
  version_key m = zs.
Proof.
  intros Hzs Hlim Hv. unfold version_key, version_key_try. rewrite Hv.
  rewrite str_split_join.
  - rewrite res_mapM_int_of_decimal by exact Hlim. reflexivity.
  - destruct zs; done.
  - apply Forall_fmap, Forall_forall. intros z _. apply decimal_no_dot.
Qed.

(** C4 (as stated, refuted): a version text with two components is not a
    parse failure; its key is the pair of its components, not (0, 0, 0)
    and not a 3-tuple. *)
Lemma version_key_wrong_arity :
  str_split "."%char "1.2" = ["1"; "2"]
  ∧ version_key (mkModInfo "Jotunn" "ValheimModding" "1.2" "" "Yes" "") = [1; 2]%Z
  ∧ version_key (mkModInfo "Jotunn" "ValheimModding" "1.2" "" "Yes" "") ≠ [0; 0; 0]%Z
  ∧ length (version_key (mkModInfo "Jotunn" "ValheimModding" "1.2" "" "Yes" "")) ≠ 3.
Proof. repeat split; done. Qed.

(** C4 (amended): for every record, version_key splits the version text on
    dots and never fails: when every component reads as an integer the key
    is the tuple of these integers, one per component whatever their
    number; when some component does not, the key is (0, 0, 0).  A
    component reads as an integer when int() accepts it: a numeral of
    4300 digits at most, with blanks around, a sign and underscores
    between digits allowed. *)
Theorem version_key_lenient (m : Mod) :
  Forall2 (λ p z, py_int p = Some z) (str_split "."%char (version m)) (version_key m)
  ∨ ((∃ p, p ∈ str_split "."%char (version m) ∧ py_int p = None)
     ∧ version_key m = [0; 0; 0]%Z).
Proof.
  unfold version_key, version_key_try.
  destruct (res_mapM_int_of_str (str_split "."%char (version m)))
    as [(t & -> & Ht)|(e & p & -> & Hp & Hnone)].
  - left. exact Ht.
  - right. split; [exists p; done|reflexivity].
Qed.

(** A component of 4301 digits is a parse failure, one of 4300 digits is
    read. *)
Example version_key_digit_limit :
  version_key (sample_mod "A" (str_repeat 4301 "1" +:+ ".0.0")) = [0; 0; 0]%Z
  ∧ version_key (sample_mod "A" (str_repeat 4300 "1" +:+ ".0.0")) ≠ [0; 0; 0]%Z.
Proof.
  split.
  - vm_compute. reflexivity.
  - intros H. apply (f_equal (λ t, match t with z :: _ => (z =? 0)%Z | [] => true end)) in H.
    vm_compute in H. discriminate H.
Qed.

(** The comparison of versions is numeric: 10.0.0 is above 9.0.0. *)
Example version_key_numeric :
  tuple_lt (version_key (sample_mod "A" "9.0.0"))
           (version_key (sample_mod "B" "10.0.0")) = true
  ∧ String.ltb "9.0.0" "10.0.0" = false.
Proof. split; reflexivity. Qed.

Example version_key_malformed :
  version_key (sample_mod "A" "1.x.3") = [0; 0; 0]%Z.
Proof. reflexivity. Qed.

(** ** Newest and oldest *)

Lemma oldest_mods_eq (mods_list : list Mod) (profile now : string) :
  oldest_mods (calculate_statistics mods_list profile now)
  = reverse (last_n 5 (sorted version_key tuple_lt true mods_list)).
Proof. reflexivity. Qed.

Lemma newest_mods_eq (mods_list : list Mod) (profile now : string) :
  newest_mods (calculate_statistics mods_list profile now)
  = take 5 (sorted version_key tuple_lt true mods_list).
Proof. reflexivity. Qed.




(** On the six records both descriptions give the five of the least
    versions, least first; the record of version 10.0.0 is left out. *)
Example oldest_of_six :
  name <$> oldest_mods (calculate_statistics six_mods "Default" "")
  = ["D"; "A"; "C"; "F"; "E"]
  ∧ name <$> oldest_by_ascending_sort six_mods = ["D"; "A"; "C"; "F"; "E"].
Proof. split; vm_compute; reflexivity. Qed.

Lemma sorted_by_version (mods_list : list Mod) :
  sorted version_key tuple_lt true mods_list ≡ₚ mods_list
  ∧ StronglySorted (flip (key_le version_key tuple_lt))
      (sorted version_key tuple_lt true mods_list).
Proof.
  split; [apply sorted_perm|].
  apply (sorted_reverse_sorted version_key tuple_lt
           tuple_lt_irrefl tuple_lt_trans tuple_lt_total).
Qed.

(** A record at a position of the descending sort that both slices cover
    is at that position of the newest list and at the mirrored position of
    the oldest list. *)
Lemma slices_share {A : Type} (s : list A) (i : nat) (x : A) :
  s !! i = Some x → length s - 5 ≤ i < 5 →
  take 5 s !! i = Some x
  ∧ reverse (drop (length s - 5) s) !! (length s - 1 - i) = Some x.
Proof.
  intros Hx [Hlo Hhi]. pose proof (lookup_lt_Some _ _ _ Hx) as Hlt.
  split; [by rewrite lookup_take_lt|].
  rewrite reverse_lookup by (rewrite length_drop; lia).
  rewrite length_drop, lookup_drop, <- Hx. f_equal. lia.
Qed.

(** C10: the newest and the oldest list are slices of one descending
    sort.  There is a list s that holds the N records of the collection in
    descending order of version key, records of one key in their original
    order, such that the newest list is the first five of s and the oldest
    list is the last five of s, reversed.  Hence with N <= 5 the oldest
    list is the newest list reversed and every record is in both; and with
    5 < N < 10 some record is in both: each position i of s from N - 5 to 4
    is position i of the newest list and position N - 1 - i of the oldest
    list. *)
Theorem newest_oldest_overlap (mods_list : list Mod) (profile now : string) :
  let stats := calculate_statistics mods_list profile now in
  let N := length mods_list in
  ∃ s,
    s ≡ₚ mods_list
    ∧ StronglySorted (λ x y, tuple_lt (version_key x) (version_key y) = false) s
    ∧ (∀ k, filter (λ m, version_key m = k) s
            = filter (λ m, version_key m = k) mods_list)
    ∧ newest_mods stats = take 5 s
    ∧ oldest_mods stats = reverse (drop (N - 5) s)
    ∧ (N ≤ 5 →
         oldest_mods stats = reverse (newest_mods stats)
         ∧ ∀ m, m ∈ mods_list → m ∈ newest_mods stats ∧ m ∈ oldest_mods stats)
    ∧ (5 < N < 10 →
         (∃ m, m ∈ mods_list ∧ m ∈ newest_mods stats ∧ m ∈ oldest_mods stats)
         ∧ ∀ i, N - 5 ≤ i < 5 →
             ∃ m, s !! i = Some m
                  ∧ newest_mods stats !! i = Some m
                  ∧ oldest_mods stats !! (N - 1 - i) = Some m).
Proof.
  intros stats N. unfold stats, N. rewrite oldest_mods_eq, newest_mods_eq.
  destruct (sorted_by_version mods_list) as [Hperm Hsorted].
  pose proof (sorted_length version_key tuple_lt true mods_list) as Hlen.
  pose proof (λ k, sorted_filter version_key tuple_lt tuple_lt_irrefl true k mods_list)
    as Hstable.
  set (s := sorted version_key tuple_lt true mods_list) in *.
  unfold last_n. rewrite Hlen. exists s.
  split; [exact Hperm|]. split; [exact Hsorted|]. split; [exact Hstable|].
  split; [reflexivity|]. split; [reflexivity|].
  assert (∀ i, length mods_list - 5 ≤ i < 5 → i < length mods_list →
            ∃ m, s !! i = Some m ∧ take 5 s !! i = Some m
                 ∧ reverse (drop (length mods_list - 5) s)
                     !! (length mods_list - 1 - i) = Some m) as Hshare.
  { intros i Hi Hlt. destruct (lookup_lt_is_Some_2 s i) as [m Hm]; [lia|].
    exists m. split; [exact Hm|]. rewrite <- Hlen. apply slices_share; [exact Hm|lia]. }
  split.
  - intros Hle. rewrite take_ge by lia.
    replace (length mods_list - 5) with 0 by lia. rewrite drop_0.
    split; [reflexivity|]. intros m Hm. rewrite elem_of_reverse, Hperm. done.
  - intros [Hgt Hlt]. split.
    + destruct (Hshare 4) as (m & Hm & Hnew & Hold); [lia|lia|].
      exists m. split; [|split].
      * rewrite <- Hperm. eapply list_elem_of_lookup_2, Hm.
      * eapply list_elem_of_lookup_2, Hnew.
      * eapply list_elem_of_lookup_2, Hold.
    + intros i Hi. apply Hshare; lia.
Qed.

(** Of seven records the third, fourth and fifth of the descending sort
    are in both lists. *)
Lemma newest_oldest_overlap_witness :
  ∃ m, m ∈ seven_mods
       ∧ m ∈ newest_mods (calculate_statistics seven_mods "Default" "")
       ∧ m ∈ oldest_mods (calculate_statistics seven_mods "Default" "").
Proof.
  destruct (newest_oldest_overlap seven_mods "Default" "")
    as (s & _ & _ & _ & _ & _ & _ & Hshare).
  apply Hshare. simpl. lia.
Defined.

(** The two lists of the seven records: F, E and C are in both, and the
    two records of version 1.0.0 keep their order, A before G, in the
    descending sort, which the reversed slice turns around. *)
Example newest_oldest_of_seven :
  name <$> newest_mods (calculate_statistics seven_mods "Default" "")
  = ["B"; "E"; "F"; "C"; "A"]
  ∧ name <$> oldest_mods (calculate_statistics seven_mods "Default" "")
    = ["D"; "G"; "A"; "C"; "F"].
Proof. split; vm_compute; reflexivity. Qed.

(** ** Author counts *)

Lemma first_seen_exists (l : list string) (a : string) :
  a ∈ l → ∃ i, first_seen_at l a i.
Proof.
  induction l as [|x l IH]; [by intros ?%elem_of_nil|].
  intros Ha. destruct (decide (x = a)) as [->|Hne].
  - exists 0. split; [reflexivity|]. intros j Hj. lia.
  - apply elem_of_cons in Ha as [->|Ha]; [done|].
    destruct (IH Ha) as (i & Hi & Hfirst). exists (S i). split; [exact Hi|].
    intros [|j] Hj; simpl; [congruence|]. apply Hfirst. lia.
Qed.

Lemma first_seen_app (l : list string) (x a : string) (i : nat) :
  first_seen_at l a i → first_seen_at (l ++ [x]) a i.
Proof.
  intros [Hi Hfirst]. pose proof (lookup_lt_Some _ _ _ Hi) as Hlt. split.
  - rewrite lookup_app_l by exact Hlt. exact Hi.
  - intros j Hj. rewrite lookup_app_l by lia. apply Hfirst, Hj.
Qed.

Lemma first_seen_last (l : list string) (x : string) :
  x ∉ l → first_seen_at (l ++ [x]) x (length l).
Proof.
  intros Hx. split.
  - rewrite lookup_app_r, Nat.sub_diag by lia. reflexivity.
  - intros j Hj. rewrite lookup_app_l by exact Hj.
    intros Hl. apply Hx. eapply list_elem_of_lookup_2, Hl.
Qed.

Ltac str_eqb_cases :=
  repeat match goal with
         | |- context [str_eqb ?a ?b] =>
             let E := fresh "E" in
             destruct (str_eqb a b) eqn:E;
             [apply str_eqb_eq in E|apply str_eqb_neq in E]
         end.

Lemma counter_add_lookup (c : list (string * nat)) (x a : string) :
  dict_lookup (counter_add c x) a
  = if decide (a = x) then Some (S (default 0 (dict_lookup c x)))
    else dict_lookup c a.
Proof.
  induction c as [|[b n] c IH]; simpl.
  - destruct (decide (a = x)); str_eqb_cases; congruence.
  - destruct (str_eqb b x) eqn:Ebx;
      [apply str_eqb_eq in Ebx|apply str_eqb_neq in Ebx]; simpl;
      [|rewrite IH]; destruct (decide (a = x));
      str_eqb_cases; subst; simpl; congruence.
Qed.

Lemma counter_add_keys (c : list (string * nat)) (x : string) :
  (counter_add c x).*1 = if decide (x ∈ c.*1) then c.*1 else c.*1 ++ [x].
Proof.
  induction c as [|[b n] c IH].
  - case_decide as Hin; [|reflexivity]. by apply elem_of_nil in Hin.
  - cbn [counter_add]. destruct (str_eqb b x) eqn:Ebx;
      [apply str_eqb_eq in Ebx as ->|apply str_eqb_neq in Ebx];
      rewrite !fmap_cons; cbn [fst].
    + clear IH. case_decide as Hin; [reflexivity|]. exfalso. apply Hin. by left.
    + rewrite IH. clear IH. repeat case_decide; try reflexivity.
      * exfalso. match goal with H : ¬ _ |- _ => apply H end.
        apply elem_of_cons. by right.
      * exfalso. match goal with H : _ ∈ _ :: _ |- _ =>
                   apply elem_of_cons in H as [?|?]; congruence end.
Qed.

Lemma dict_lookup_elem (c : list (string * nat)) (a : string) (n : nat) :
  NoDup c.*1 → (a, n) ∈ c → dict_lookup c a = Some n.
Proof.
  induction c as [|[b k] c IH]; [by intros _ ?%elem_of_nil|].
  rewrite fmap_cons. intros [Hb Hnd]%NoDup_cons [Heq|Hin]%elem_of_cons; simpl.
  - injection Heq as <- <-. rewrite str_eqb_refl. reflexivity.
  - destruct (str_eqb b a) eqn:E; [|by apply IH].
    apply str_eqb_eq in E as ->. exfalso. apply Hb.
    apply list_elem_of_fmap. exists (a, n). done.
Qed.

Lemma Counter_snoc (l : list string) (x : string) :
  Counter (l ++ [x]) = counter_add (Counter l) x.
Proof. unfold Counter. apply foldl_snoc. Qed.

Lemma Counter_keys_elem (l : list string) (a : string) :
  a ∈ (Counter l).*1 ↔ a ∈ l.
Proof.
  revert a. induction l as [|x l IH] using rev_ind; intros a.
  - split; intros ?%elem_of_nil; done.
  - rewrite Counter_snoc, counter_add_keys, elem_of_app, list_elem_of_singleton.
    destruct (decide (x ∈ (Counter l).*1)) as [Hin|Hin].
    + rewrite IH. split; [tauto|]. intros [?| ->]; [done|]. by apply IH.
    + rewrite elem_of_app, list_elem_of_singleton, IH. reflexivity.
Qed.

Lemma Counter_keys_NoDup (l : list string) : NoDup (Counter l).*1.
Proof.
  induction l as [|x l IH] using rev_ind; [constructor|].
  rewrite Counter_snoc, counter_add_keys.
  destruct (decide (x ∈ (Counter l).*1)) as [Hin|Hin]; [exact IH|].
  apply NoDup_app. split; [exact IH|]. split; [|apply NoDup_singleton].
  intros y Hy ->%list_elem_of_singleton. done.
Qed.

(** The count kept for an author is the number of its occurrences. *)
Lemma Counter_lookup (l : list string) (a : string) :
  dict_lookup (Counter l) a
  = if decide (a ∈ l) then Some (length (filter (a =.) l)) else None.
Proof.
  induction l as [|x l IH] using rev_ind.
  - case_decide as Hin; [by apply elem_of_nil in Hin|reflexivity].
  - rewrite Counter_snoc, counter_add_lookup, filter_app, length_app.
    destruct (decide (a = x)) as [->|Hne].
    + rewrite decide_True by (apply elem_of_app; right; by left).
      rewrite IH, filter_cons_True by reflexivity. simpl.
      destruct (decide (x ∈ l)) as [Hin|Hin]; simpl; [f_equal; lia|].
      f_equal. rewrite (elem_of_nil_inv (filter (x =.) l)); [reflexivity|].
      intros y [<- Hy]%list_elem_of_filter. done.
    + rewrite IH, filter_cons_False by done. simpl. rewrite Nat.add_0_r.
      destruct (decide (a ∈ l)) as [Hin|Hin].
      * rewrite decide_True by (apply elem_of_app; by left). reflexivity.
      * rewrite decide_False; [reflexivity|].
        intros [?|?%list_elem_of_singleton]%elem_of_app; done.
Qed.

(** The keys stand in the order of their first occurrences. *)
Lemma Counter_keys_order (l : list string) (a b : string) :
  [a; b] `sublist_of` (Counter l).*1 →
  ∃ i j, first_seen_at l a i ∧ first_seen_at l b j ∧ i < j.
Proof.
  revert a b. induction l as [|x l IH] using rev_ind; intros a b Hsub.
  - apply sublist_length in Hsub. simpl in Hsub. lia.
  - rewrite Counter_snoc, counter_add_keys in Hsub.
    destruct (decide (x ∈ (Counter l).*1)) as [Hin|Hin].
    + destruct (IH a b Hsub) as (i & j & Hi & Hj & Hij).
      exists i, j. auto using first_seen_app.
    + apply sublist_app_r in Hsub as (l1 & l2 & Heq & H1 & H2).
      destruct l2 as [|y l2].
      * rewrite app_nil_r in Heq. subst l1.
        destruct (IH a b H1) as (i & j & Hi & Hj & Hij).
        exists i, j. auto using first_seen_app.
      * pose proof (sublist_length _ _ H2) as Hlen. simpl in Hlen.
        destruct l2; [|simpl in Hlen; lia].
        pose proof (f_equal length Heq) as Hl12.
        rewrite length_app in Hl12. simpl in Hl12.
        destruct l1 as [|a' [|? ?]]; simpl in Hl12; try lia.
        injection Heq as <- <-.
        apply singleton_sublist_l, list_elem_of_singleton in H2 as ->.
        assert (a ∈ l) as Ha.
        { apply Counter_keys_elem. eapply elem_of_sublist; [|exact H1]. by left. }
        destruct (first_seen_exists l a Ha) as (i & Hi).
        exists i, (length l). split; [by apply first_seen_app|].
        split; [apply first_seen_last; by rewrite <- Counter_keys_elem|].
        destruct Hi as [Hi _]. eapply lookup_lt_Some, Hi.
Qed.

(** ** Ranking *)

Lemma sublist_filter_mono {A : Type} (P : A → Prop) `{∀ x, Decision (P x)}
    (l k : list A) :
  l `sublist_of` k → filter P l `sublist_of` filter P k.
Proof.
  induction 1 as [|x l k Hlk IH|x l k Hlk IH].
  - constructor.
  - rewrite !filter_cons. destruct (decide (P x)); [by constructor|exact IH].
  - rewrite filter_cons. destruct (decide (P x)); [by constructor|exact IH].
Qed.

Lemma sublist_pair_lookup {A : Type} (l : list A) (i j : nat) (x y : A) :
  i < j → l !! i = Some x → l !! j = Some y → [x; y] `sublist_of` l.
Proof.
  intros Hij Hi Hj.
  rewrite <- (take_drop_middle l i x Hi).
  apply sublist_inserts_l. constructor.
  assert (drop (S i) l !! (j - S i) = Some y) as Hy.
  { rewrite lookup_drop. rewrite <- Hj. f_equal. lia. }
  apply singleton_sublist_l. eapply list_elem_of_lookup_2, Hy.
Qed.

Lemma StronglySorted_lookup {A : Type} (R : A → A → Prop) (l : list A)
    (i j : nat) (x y : A) :
  StronglySorted R l → i < j → l !! i = Some x → l !! j = Some y → R x y.
Proof.
  intros Hl. revert i j. induction Hl as [|z l Hl IH Hz]; intros i j Hij Hi Hj.
  - done.
  - destruct j as [|j]; [lia|]. simpl in Hj. destruct i as [|i]; simpl in Hi.
    + injection Hi as ->. rewrite Forall_forall in Hz.
      eapply Hz, list_elem_of_lookup_2, Hj.
    + eapply IH; [|exact Hi|exact Hj]. lia.
Qed.

Lemma top_authors_eq (mods_list : list Mod) (profile now : string) :
  top_authors (calculate_statistics mods_list profile now)
  = take 5 (sorted snd Nat.ltb true (Counter (author <$> mods_list))).
Proof. reflexivity. Qed.

(** C8: the top-authors list has min(5, number of distinct authors)
    entries; each entry pairs an author with the number of its records;
    the counts go down along the list, and of two authors with the same
    count the one first met in the input stands first. *)
Theorem top_authors_ranked (mods_list : list Mod) (profile now : string) :
  let authors := author <$> mods_list in
  let top := top_authors (calculate_statistics mods_list profile now) in
  length top = min 5 (length (remove_dups authors))
  ∧ (∀ a n, (a, n) ∈ top → n = length (filter (a =.) authors))
  ∧ (∀ i j a b na nb,
       i < j → top !! i = Some (a, na) → top !! j = Some (b, nb) →
       nb ≤ na
       ∧ (na = nb → ∃ pa pb, first_seen_at authors a pa
                             ∧ first_seen_at authors b pb ∧ pa < pb)).
Proof.
  intros authors top. unfold top. rewrite top_authors_eq. fold authors.
  set (c := Counter authors).
  pose proof (sorted_perm snd Nat.ltb true c) as Hperm.
  pose proof (sorted_reverse_sorted snd Nat.ltb
                nat_ltb_irrefl nat_ltb_trans nat_ltb_total c) as Hsorted.
  pose proof (λ k, sorted_filter snd Nat.ltb nat_ltb_irrefl true k c) as Hstable.
  set (s := sorted snd Nat.ltb true c) in *.
  split; [|split].
  - rewrite length_take. f_equal.
    rewrite (Permutation_length Hperm).
    rewrite <- (length_fmap fst c). apply Permutation_length.
    apply NoDup_Permutation.
    + apply Counter_keys_NoDup.
    + apply NoDup_remove_dups.
    + intros a. rewrite elem_of_remove_dups. apply Counter_keys_elem.
  - intros a n Hin.
    assert ((a, n) ∈ c) as Hc.
    { rewrite <- Hperm. eapply elem_of_sublist; [exact Hin|apply sublist_take]. }
    pose proof (dict_lookup_elem c a n (Counter_keys_NoDup authors) Hc) as Hl.
    unfold c in Hl. rewrite Counter_lookup in Hl.
    case_decide; congruence.
  - intros i j a b na nb Hij Hi Hj.
    apply lookup_take_Some in Hi as [Hi _], Hj as [Hj _].
    split.
    + pose proof (StronglySorted_lookup _ _ _ _ _ _ Hsorted Hij Hi Hj) as Hle.
      unfold flip, key_le in Hle. simpl in Hle. apply Nat.ltb_ge in Hle. exact Hle.
    + intros <-. apply Counter_keys_order. fold c.
      change [a; b] with (fst <$> [(a, na); (b, na)]).
      apply fmap_sublist.
      transitivity (filter (λ y : string * nat, y.2 = na) c);
        [|apply sublist_filter].
      rewrite <- Hstable.
      assert (filter (λ y : string * nat, y.2 = na) [(a, na); (b, na)]
              = [(a, na); (b, na)]) as <-.
      { rewrite !filter_cons_True by reflexivity. reflexivity. }
      apply sublist_filter_mono. eapply sublist_pair_lookup; eassumption.
Qed.

Example top_authors_example :
  top_authors (calculate_statistics
                 [mkModInfo "m1" "b" "1.0.0" "" "Yes" "";
                  mkModInfo "m2" "a" "1.0.0" "" "Yes" "";
                  mkModInfo "m3" "b" "1.0.0" "" "No" "";
                  mkModInfo "m4" "c" "1.0.0" "" "Yes" "";
                  mkModInfo "m5" "a" "1.0.0" "" "Yes" ""] "Default" "")
  = [("b", 2); ("a", 2); ("c", 1)].
Proof. reflexivity. Qed.

(** ** The snapshot reader without a header *)

Lemma find_header_None (lines : list string) :
  find_header lines = None ↔ Forall (λ line, is_header_line line = false) lines.
Proof.
  induction lines as [|line lines IH]; simpl.
  - split; [constructor|reflexivity].
  - rewrite Forall_cons. destruct (is_header_line line).
    + split; [discriminate|]. intros [? _]. discriminate.
    + rewrite <- IH. destruct (find_header lines); simpl.
      * split; [discriminate|]. intros [_ ?]. discriminate.
      * split; [intros _; split; reflexivity|reflexivity].
Qed.

(** C7: when no line of the file, once stripped, starts with the header
    prefix, the snapshot reader prints its warning and returns the empty
    mapping; it does not raise. *)
Theorem load_without_header (file_name content : string) :
  Forall (λ line, is_header_line line = false) (readlines content) →
  load_csv_for_comparison file_name content
  = (["Warning: Could not find mod data header in " +:+ file_name], Ok ∅).
Proof.
  intros Hnone. unfold load_csv_for_comparison.
  apply find_header_None in Hnone. rewrite Hnone. reflexivity.
Qed.

Lemma load_without_header_witness :
  load_csv_for_comparison "notes.csv"
    ("Mod Name,Author,Version" +:+ CRLF +:+ "Jotunn,ValheimModding,2.20.1" +:+ CRLF)
  = (["Warning: Could not find mod data header in notes.csv"], Ok ∅).
Proof.
  apply (load_without_header "notes.csv").
  apply (bool_decide_unpack _). vm_compute. exact I.
Defined.

(** ** The comparison engine *)

Lemma cell_eqb_eq (a b : option string) : cell_eqb a b = true ↔ a = b.
Proof.
  destruct a as [s|], b as [t|]; simpl; try (split; done).
  rewrite str_eqb_eq. split; congruence.
Qed.

Lemma cell_eqb_neq (a b : option string) : cell_eqb a b = false ↔ a ≠ b.
Proof.
  rewrite <- cell_eqb_eq. destruct (cell_eqb a b); split; congruence.
Qed.

Lemma compare_keys_spec (mods1 mods2 : gmap string Row) (keys : list string)
    (acc : list Change * list Change) :
  (∀ k, k ∈ keys → ∃ row1 row2, mods1 !! k = Some row1 ∧ mods2 !! k = Some row2
                                ∧ has_columns row1 ∧ has_columns row2) →
  ∃ acc', compare_keys mods1 mods2 acc keys = Ok acc'
    ∧ (∀ t, t ∈ acc'.1 ↔ t ∈ acc.1 ∨ (t.1.1 ∈ keys ∧ column_change mods1 mods2 "Version" t))
    ∧ (∀ t, t ∈ acc'.2 ↔ t ∈ acc.2 ∨ (t.1.1 ∈ keys ∧ column_change mods1 mods2 "Enabled" t)).
Proof.
  revert acc. induction keys as [|key keys IH]; intros acc Hrows.
  - exists acc. split; [reflexivity|].
    split; intros t; (split; [by left|]); intros [?|[?%elem_of_nil _]]; done.
  - assert (key ∈ key :: keys) as Hkey.
    { apply elem_of_cons. left. reflexivity. }
    destruct (Hrows key Hkey)
      as (row1 & row2 & H1 & H2 & [[v1 Hv1] [e1 He1]] & [[v2 Hv2] [e2 He2]]).
    assert (Hstep : compare_key mods1 mods2 acc key
              = Ok (if cell_eqb v1 v2 then acc.1 else acc.1 ++ [(key, v2, v1)],
                    if cell_eqb e1 e2 then acc.2 else acc.2 ++ [(key, e2, e1)])).
    { unfold compare_key, mods_item, row_item.
      rewrite H1, H2. simpl. rewrite Hv1, Hv2. simpl. rewrite He1, He2. reflexivity. }
    simpl. rewrite Hstep. simpl.
    edestruct IH as (acc' & -> & Hupd & Hena).
    { intros k Hk. apply Hrows. by right. }
    exists acc'. split; [reflexivity|].
    assert (Hcol : ∀ col (w1 w2 : option string) (old : list Change) t,
              row_cells row1 !! col = Some w1 → row_cells row2 !! col = Some w2 →
              t ∈ (if cell_eqb w1 w2 then old else old ++ [(key, w2, w1)])
              ↔ t ∈ old ∨ (t.1.1 = key ∧ column_change mods1 mods2 col t)).
    { intros col w1 w2 old t Hw1 Hw2. unfold column_change.
      destruct (cell_eqb w1 w2) eqn:E.
      - apply cell_eqb_eq in E as ->. split; [by left|].
        intros [?|[Hk (r1 & r2 & Hr1 & Hr2 & Hc1 & Hc2 & Hne)]]; [done|].
        rewrite Hk in Hr1, Hr2. simplify_eq; congruence.
      - apply cell_eqb_neq in E. rewrite elem_of_app, list_elem_of_singleton.
        split; (intros [?|Hr]; [by left|right]).
        + subst t. simpl. split; [reflexivity|]. exists row1, row2. auto.
        + destruct Hr as [Hk (r1 & r2 & Hr1 & Hr2 & Hc1 & Hc2 & Hne)].
          destruct t as [[k w] w']. simpl in *. subst k.
          rewrite Hr1 in H1. rewrite Hr2 in H2. congruence. }
    split; intros t.
    + rewrite Hupd. simpl. rewrite (Hcol "Version" v1 v2) by done.
      rewrite elem_of_cons. tauto.
    + rewrite Hena. simpl. rewrite (Hcol "Enabled" e1 e2) by done.
      rewrite elem_of_cons. tauto.
Qed.

(** C6: the comparison engine computes added, removed and common as the
    two differences and the intersection of the key sets, so added and
    removed are disjoint and the three sets cover the union of the keys;
    a triple (key, older version, newer version) is recorded exactly for
    the common keys whose two Version cells differ.  The rows of the
    common keys carry their Version and Enabled cells. *)
Theorem compare_exports_sets (newer older : gmap string Row) :
  (∀ k row1 row2, newer !! k = Some row1 → older !! k = Some row2 →
                  has_columns row1 ∧ has_columns row2) →
  ∃ r, compare_exports newer older = Ok r
    ∧ (∀ k, k ∈ added r ↔ k ∈ dom newer ∧ k ∉ dom older)
    ∧ (∀ k, k ∈ removed r ↔ k ∈ dom older ∧ k ∉ dom newer)
    ∧ (∀ k, k ∈ common r ↔ k ∈ dom newer ∧ k ∈ dom older)
    ∧ added r ∩ removed r = ∅
    ∧ added r ∪ common r ∪ removed r = dom newer ∪ dom older
    ∧ (∀ k vo vn, (k, vo, vn) ∈ updated r ↔
         k ∈ common r
         ∧ ∃ row1 row2, newer !! k = Some row1 ∧ older !! k = Some row2
             ∧ row_cells row1 !! "Version" = Some vn
             ∧ row_cells row2 !! "Version" = Some vo
             ∧ vo ≠ vn).
Proof.
  intros Hrows. unfold compare_exports.
  destruct (compare_keys_spec newer older (elements (dom newer ∩ dom older)) ([], []))
    as (acc & -> & Hupd & _).
  { intros k [H1 H2]%elem_of_elements%elem_of_intersection.
    apply elem_of_dom in H1 as [row1 H1], H2 as [row2 H2].
    exists row1, row2. destruct (Hrows k row1 row2 H1 H2). auto. }
  eexists. split; [reflexivity|]. simpl.
  split; [intros k; apply elem_of_difference|].
  split; [intros k; apply elem_of_difference|].
  split; [intros k; apply elem_of_intersection|].
  split.
  { apply set_eq. intros k.
    rewrite elem_of_intersection, !elem_of_difference, elem_of_empty. tauto. }
  split.
  { apply set_eq. intros k.
    rewrite !elem_of_union, !elem_of_difference, elem_of_intersection.
    destruct (decide (k ∈ dom newer)), (decide (k ∈ dom older)); tauto. }
  intros k vo vn. rewrite Hupd. simpl. rewrite elem_of_elements.
  unfold column_change. simpl. rewrite elem_of_nil. tauto.
Qed.

Example compare_exports_scenario :
  ∃ r, compare_exports sample_newer sample_older = Ok r
       ∧ elements (added r) = []
       ∧ elements (removed r) = ["B:Y"]
       ∧ updated r = []
       ∧ enabled_changes r = [("A:X", Some "No", Some "Yes")].
Proof. eexists. split; [vm_compute; reflexivity|]. repeat split. Qed.

Lemma sample_row_columns (a n v e : string) : has_columns (sample_row a n v e).
Proof. split; eexists; vm_compute; reflexivity. Qed.

Lemma compare_exports_sets_witness :
  ∃ r, compare_exports sample_newer sample_older = Ok r
    ∧ (∀ k, k ∈ added r ↔ k ∈ dom sample_newer ∧ k ∉ dom sample_older)
    ∧ (∀ k, k ∈ removed r ↔ k ∈ dom sample_older ∧ k ∉ dom sample_newer)
    ∧ (∀ k, k ∈ common r ↔ k ∈ dom sample_newer ∧ k ∈ dom sample_older)
    ∧ added r ∩ removed r = ∅
    ∧ added r ∪ common r ∪ removed r = dom sample_newer ∪ dom sample_older
    ∧ (∀ k vo vn, (k, vo, vn) ∈ updated r ↔
         k ∈ common r
         ∧ ∃ row1 row2, sample_newer !! k = Some row1 ∧ sample_older !! k = Some row2
             ∧ row_cells row1 !! "Version" = Some vn
             ∧ row_cells row2 !! "Version" = Some vo
             ∧ vo ≠ vn).
Proof.
  apply (compare_exports_sets sample_newer sample_older).
  intros k row1 row2 H1 H2.
  unfold sample_newer in H1. apply lookup_singleton_Some in H1 as [<- <-].
  unfold sample_older in H2. rewrite lookup_insert_ne in H2 by discriminate.
  apply lookup_singleton_Some in H2 as [_ <-].
  split; apply sample_row_columns.
Defined.

(** ** Text files: newlines and lines *)

Lemma str_length_app (s t : string) :
  String.length (s +:+ t) = String.length s + String.length t.
Proof.
  induction s as [|c s IH]; [reflexivity|].
  rewrite app_cons_str. simpl. rewrite IH. reflexivity.
Qed.

Lemma str_concat_app (l k : list string) :
  str_concat (l ++ k) = str_concat l +:+ str_concat k.
Proof.
  induction l as [|s l IH]; [reflexivity|].
  simpl. rewrite IH, app_assoc_str. reflexivity.
Qed.

(** A stretch of text without CR goes through unchanged. *)
Lemma universal_newlines_no_cr (s t : string) :
  str_contains CR s = false →
  universal_newlines false (s +:+ t) = s +:+ universal_newlines false t.
Proof.
  induction s as [|c s IH]; [reflexivity|].
  intros H. simpl in H. apply orb_false_iff in H as [Hc Hs].
  rewrite !app_cons_str. simpl. rewrite Hc, (IH Hs).
  destruct (char_eqb c LF) eqn:E; [|reflexivity].
  apply char_eqb_eq in E as ->. reflexivity.
Qed.

Lemma universal_newlines_crlf (b : bool) (t : string) :
  universal_newlines b (CRLF +:+ t) = String LF (universal_newlines false t).
Proof. reflexivity. Qed.

(** After a CR LF pair the translation starts afresh. *)
Lemma universal_newlines_app_crlf (b : bool) (s t : string) :
  universal_newlines b (s +:+ CRLF +:+ t)
  = universal_newlines b (s +:+ CRLF) +:+ universal_newlines false t.
Proof.
  revert b. induction s as [|c s IH]; intros b; [reflexivity|].
  rewrite !app_cons_str. simpl.
  destruct (char_eqb c CR); [rewrite IH; reflexivity|].
  destruct (char_eqb c LF); [destruct b|]; rewrite IH; reflexivity.
Qed.

Lemma universal_newlines_ends_lf (b : bool) (s : string) :
  ∃ u, universal_newlines b (s +:+ CRLF) = u +:+ String LF "".
Proof.
  revert b. induction s as [|c s IH]; intros b; [by exists ""|].
  rewrite app_cons_str. simpl.
  destruct (char_eqb c CR).
  { destruct (IH true) as [u ->]. by exists (String LF u). }
  destruct (char_eqb c LF); [destruct b|].
  - destruct (IH false) as [u ->]. by exists u.
  - destruct (IH false) as [u ->]. by exists (String LF u).
  - destruct (IH false) as [u ->]. by exists (String c u).
Qed.

Lemma split_lines_nonempty (s : string) : s ≠ "" → split_lines s ≠ [].
Proof.
  destruct s as [|c s]; [done|]. intros _. simpl.
  destruct (char_eqb c LF); [done|]. destruct (split_lines s); done.
Qed.

(** A line feed ends a line: what follows is split on its own. *)
Lemma split_lines_app (s t : string) :
  split_lines (s +:+ String LF t) = split_lines (s +:+ String LF "") ++ split_lines t.
Proof.
  induction s as [|c s IH]; [reflexivity|].
  rewrite !app_cons_str. simpl. rewrite IH.
  destruct (char_eqb c LF); [reflexivity|].
  destruct (split_lines (s +:+ String LF "")) eqn:E; [|reflexivity].
  exfalso. revert E. apply split_lines_nonempty. by destruct s.
Qed.

Lemma split_lines_concat (s : string) : str_concat (split_lines s) = s.
Proof.
  induction s as [|c s IH]; [reflexivity|].
  simpl. destruct (char_eqb c LF) eqn:Ec.
  - simpl. rewrite IH. reflexivity.
  - destruct (split_lines s) as [|l ls]; simpl in *.
    + rewrite <- IH. reflexivity.
    + rewrite <- IH. reflexivity.
Qed.

(** A text without line feed, closed by one, is a single line. *)
Lemma split_lines_single (s : string) :
  str_contains LF s = false → split_lines (s +:+ String LF "") = [s +:+ String LF ""].
Proof.
  induction s as [|c s IH]; [reflexivity|].
  intros H. simpl in H. apply orb_false_iff in H as [Hc Hs].
  rewrite app_cons_str. simpl. rewrite Hc, (IH Hs). reflexivity.
Qed.

Lemma find_header_app (l1 l2 : list string) :
  Forall (λ line, is_header_line line = false) l1 →
  find_header (l1 ++ l2) = (λ i, length l1 + i) <$> find_header l2.
Proof.
  induction 1 as [|line l1 Hline _ IH]; simpl.
  - destruct (find_header l2); reflexivity.
  - rewrite Hline, IH. destruct (find_header l2); reflexivity.
Qed.

(** ** The writer *)

Lemma csv_double_quotes_no_cr (s : string) :
  str_contains CR s = false → str_contains CR (csv_double_quotes s) = false.
Proof.
  induction s as [|c s IH]; [reflexivity|].
  intros H. simpl in H. apply orb_false_iff in H as [Hc Hs].
  simpl. destruct (char_eqb c DQUOTE) eqn:E; simpl.
  - rewrite (IH Hs). reflexivity.
  - rewrite Hc, (IH Hs). reflexivity.
Qed.

Lemma csv_field_no_cr (s : string) :
  str_contains CR s = false → str_contains CR (csv_field s) = false.
Proof.
  intros Hs. unfold csv_field. destruct (csv_needs_quotes s); [|exact Hs].
  simpl. rewrite str_contains_app, csv_double_quotes_no_cr by exact Hs.
  reflexivity.
Qed.

Lemma csv_line_cons (c1 c2 : string) (cells : list string) :
  csv_line (c1 :: c2 :: cells) = csv_field c1 +:+ String COMMA (csv_line (c2 :: cells)).
Proof. reflexivity. Qed.

Lemma csv_line_no_cr (cells : list string) :
  Forall (λ s, str_contains CR s = false) cells →
  str_contains CR (csv_line cells) = false.
Proof.
  induction 1 as [|c cells Hc Hcells IH]; [reflexivity|].
  destruct cells as [|c2 cells]; [by apply csv_field_no_cr|].
  rewrite csv_line_cons, str_contains_app, csv_field_no_cr by exact Hc.
  simpl. exact IH.
Qed.

Lemma str_is_empty_app_cons (s : string) (c : ascii) (t : string) :
  str_is_empty (s +:+ String c t) = false.
Proof. destruct s; reflexivity. Qed.

(** A row of two cells or more is its line and the terminator. *)
Lemma writerow_line (c1 c2 : string) (cells : list string) :
  writerow (c1 :: c2 :: cells) = csv_line (c1 :: c2 :: cells) +:+ CRLF.
Proof.
  unfold writerow. fold (csv_line (c1 :: c2 :: cells)).
  rewrite csv_line_cons, str_is_empty_app_cons. reflexivity.
Qed.

(** Every row ends with the terminator. *)
Lemma writerow_ends_crlf (cells : list string) :
  ∃ u, writerow cells = u +:+ CRLF.
Proof.
  unfold writerow. destruct cells as [|c cells]; [by exists ""|].
  destruct (str_is_empty _); eauto.
  by exists (String DQUOTE (String DQUOTE "")).
Qed.

Lemma universal_newlines_table (rows : list (list string)) :
  Forall wide_row rows →
  Forall (Forall (λ s, str_contains CR s = false)) rows →
  universal_newlines false (str_concat (map writerow rows)) = table_text rows.
Proof.
  unfold table_text. induction 1 as [|cells rows Hw _ IH]; [reflexivity|].
  intros [Hcr Hrows]%Forall_cons. simpl.
  destruct cells as [|c1 [|c2 cells]]; try (unfold wide_row in Hw; simpl in Hw; lia).
  rewrite writerow_line, !app_assoc_str.
  rewrite universal_newlines_no_cr by (by apply csv_line_no_cr).
  rewrite universal_newlines_crlf, (IH Hrows). reflexivity.
Qed.

(** ** The reader *)

Lemma csv_reader_from_char (r : Reader) (c : ascii) (l : string) (ls : list string) :
  csv_reader_from r (String c l :: ls)
  = (r1 <~ parse_process_char r (Some c); csv_reader_from r1 (l :: ls)).
Proof.
  simpl. unfold feed_line. simpl.
  destruct (parse_process_char r (Some c)); reflexivity.
Qed.

(** A character that is not a line feed, with more text after it. *)
Lemma read_text_char (r : Reader) (c : ascii) (s : string) :
  char_eqb c LF = false → s ≠ "" →
  read_text r (String c s)
  = (r1 <~ parse_process_char r (Some c); read_text r1 s).
Proof.
  intros Hc Hs. unfold read_text. simpl. rewrite Hc.
  destruct (split_lines s) as [|l ls] eqn:E.
  - exfalso. revert E. by apply split_lines_nonempty.
  - apply csv_reader_from_char.
Qed.

(** A line feed: the line ends, and so does the record unless a quoted
    field is open. *)
Lemma read_text_lf (r : Reader) (s : string) :
  read_text r (String LF s)
  = (r1 <~ parse_process_char r (Some LF);
     r2 <~ parse_process_char r1 None;
     match rd_state r2 with
     | START_RECORD => rows <~ read_text parse_reset s; Ok (rd_fields r2 :: rows)
     | _ => read_text r2 s
     end).
Proof.
  unfold read_text. simpl. unfold feed_line. simpl.
  destruct (parse_process_char r (Some LF)) as [r1|]; [|reflexivity]. simpl.
  destruct (parse_process_char r1 None) as [r2|]; reflexivity.
Qed.

Lemma parse_add_char_ok (st : ParserState) (fs : list string) (pre : string)
    (c : ascii) :
  fits (pre +:+ String c "") →
  parse_add_char (mkReader st fs pre) c = Ok (mkReader st fs (pre +:+ String c "")).
Proof.
  unfold fits, parse_add_char. intros Hfit. rewrite str_length_app in Hfit.
  simpl in *.
  destruct (N.leb_spec field_limit (N.of_nat (String.length pre))); [lia|reflexivity].
Qed.

Lemma fits_snoc (pre : string) (c : ascii) (f : string) :
  fits (pre +:+ String c f) → fits (pre +:+ String c "") ∧ fits ((pre +:+ String c "") +:+ f).
Proof.
  unfold fits. rewrite !str_length_app. simpl. lia.
Qed.

Lemma snoc_app_str (pre : string) (c : ascii) (f : string) :
  (pre +:+ String c "") +:+ f = pre +:+ String c f.
Proof. rewrite app_assoc_str. reflexivity. Qed.

Lemma csv_needs_quotes_cons (c : ascii) (f : string) :
  csv_needs_quotes (String c f) = false →
  char_eqb c COMMA = false ∧ char_eqb c DQUOTE = false
  ∧ char_eqb c CR = false ∧ char_eqb c LF = false
  ∧ csv_needs_quotes f = false.
Proof.
  unfold csv_needs_quotes. simpl. rewrite !orb_false_iff. tauto.
Qed.

Ltac reader_step :=
  unfold parse_process_char, set_state, parse_save_field, is_newline; simpl.

(** The rest of an unquoted field. *)
Lemma read_text_unquoted (f pre : string) (fs : list string) (rest : string) :
  csv_needs_quotes f = false → fits (pre +:+ f) → rest ≠ "" →
  read_text (mkReader IN_FIELD fs pre) (f +:+ rest)
  = read_text (mkReader IN_FIELD fs (pre +:+ f)) rest.
Proof.
  revert pre. induction f as [|c f IH]; intros pre Hq Hfit Hrest.
  - rewrite app_nil_r_str. reflexivity.
  - apply csv_needs_quotes_cons in Hq as (Hcomma & _ & Hcr & Hlf & Hq).
    apply fits_snoc in Hfit as [Hfit1 Hfit2].
    rewrite app_cons_str, read_text_char; [|exact Hlf|by destruct f, rest].
    reader_step. rewrite Hlf, Hcr, Hcomma. simpl.
    rewrite parse_add_char_ok by exact Hfit1. simpl.
    rewrite IH by done. rewrite snoc_app_str. reflexivity.
Qed.

(** The inside of a quoted field, up to its closing quote. *)
Lemma read_text_quoted (f pre : string) (fs : list string) (rest : string) :
  fits (pre +:+ f) → rest ≠ "" →
  read_text (mkReader IN_QUOTED_FIELD fs pre)
            (csv_double_quotes f +:+ String DQUOTE rest)
  = read_text (mkReader QUOTE_IN_QUOTED_FIELD fs (pre +:+ f)) rest.
Proof.
  revert pre. induction f as [|c f IH]; intros pre Hfit Hrest.
  - rewrite app_nil_r_str. simpl. rewrite app_nil_l_str.
    rewrite read_text_char by done. reflexivity.
  - apply fits_snoc in Hfit as [Hfit1 Hfit2]. simpl.
    destruct (char_eqb c DQUOTE) eqn:Eq.
    + apply char_eqb_eq in Eq as ->. rewrite !app_cons_str.
      rewrite read_text_char; [|reflexivity|done]. simpl.
      rewrite read_text_char; [|reflexivity|by destruct (csv_double_quotes f)].
      reader_step.
      rewrite parse_add_char_ok by exact Hfit1. simpl.
      rewrite IH by done. rewrite snoc_app_str. reflexivity.
    + rewrite app_cons_str. destruct (char_eqb c LF) eqn:El.
      * apply char_eqb_eq in El as ->. rewrite read_text_lf.
        reader_step.
        rewrite parse_add_char_ok by exact Hfit1. simpl.
        rewrite IH by done. rewrite snoc_app_str. reflexivity.
      * rewrite read_text_char; [|exact El|by destruct (csv_double_quotes f)].
        reader_step. rewrite Eq.
        rewrite parse_add_char_ok by exact Hfit1. simpl.
        rewrite IH by done. rewrite snoc_app_str. reflexivity.
Qed.

Lemma field_done_comma (r : Reader) (fs : list string) (f : string) :
  field_done r fs f →
  parse_process_char r (Some COMMA) = Ok (mkReader START_FIELD (fs ++ [f]) "").
Proof.
  destruct r as [st fs' f']. intros (Hfs & Hf & Hst). simpl in *. subst fs' f'.
  destruct Hst as [->|[->|[-> ->]]]; reflexivity.
Qed.

Lemma field_done_lf (r : Reader) (fs : list string) (f : string) :
  field_done r fs f →
  parse_process_char r (Some LF) = Ok (mkReader EAT_CRNL (fs ++ [f]) "").
Proof.
  destruct r as [st fs' f']. intros (Hfs & Hf & Hst). simpl in *. subst fs' f'.
  destruct Hst as [->|[->|[-> ->]]]; reflexivity.
Qed.

(** One field as the writer put it, read from the start of a field. *)
Lemma read_text_field (f : string) (fs : list string) (rest : string) :
  fits f → rest ≠ "" →
  ∃ r, field_done r fs f
       ∧ read_text (mkReader START_FIELD fs "") (csv_field f +:+ rest)
         = read_text r rest.
Proof.
  intros Hfit Hrest. unfold csv_field.
  destruct (csv_needs_quotes f) eqn:Hq.
  - exists (mkReader QUOTE_IN_QUOTED_FIELD fs f). split.
    { split; [reflexivity|]. split; [reflexivity|]. by left. }
    rewrite app_cons_str, app_assoc_str, app_cons_str, app_nil_l_str.
    rewrite read_text_char; [|reflexivity|by destruct (csv_double_quotes f)].
    reader_step.
    rewrite read_text_quoted by done. reflexivity.
  - destruct f as [|c f].
    + exists (mkReader START_FIELD fs ""). split; [|reflexivity].
      split; [reflexivity|]. split; [reflexivity|]. right. right. done.
    + exists (mkReader IN_FIELD fs (String c f)). split.
      { split; [reflexivity|]. split; [reflexivity|]. right. by left. }
      apply csv_needs_quotes_cons in Hq as (Hcomma & Hdq & Hcr & Hlf & Hq).
      rewrite app_cons_str, read_text_char; [|exact Hlf|by destruct f, rest].
      reader_step. rewrite Hlf, Hcr, Hdq, Hcomma. simpl.
      rewrite app_nil_l_str.
      rewrite read_text_unquoted by done. reflexivity.
Qed.

Lemma csv_line_nonempty_lf (cells : list string) (rest : string) :
  csv_line cells +:+ String LF rest ≠ "".
Proof. destruct (csv_line cells); done. Qed.

(** A whole line read from the start of its first field. *)
Lemma read_text_line (cells fs : list string) (rest : string) :
  cells ≠ [] → Forall fits cells →
  read_text (mkReader START_FIELD fs "") (csv_line cells +:+ String LF rest)
  = (rows <~ read_text parse_reset rest; Ok ((fs ++ cells) :: rows)).
Proof.
  intros Hne Hfits. revert fs. induction Hfits as [|f cells Hf Hcells IH]; [done|].
  intros fs. destruct cells as [|f2 cells].
  - change (csv_line [f]) with (csv_field f).
    destruct (read_text_field f fs (String LF rest) Hf) as (r & Hdone & ->); [done|].
    rewrite read_text_lf, (field_done_lf r fs f Hdone). reflexivity.
  - rewrite csv_line_cons, app_assoc_str, app_cons_str.
    destruct (read_text_field f fs
                (String COMMA (csv_line (f2 :: cells) +:+ String LF rest)) Hf)
      as (r & Hdone & ->); [done|].
    rewrite read_text_char; [|reflexivity|apply csv_line_nonempty_lf].
    rewrite (field_done_comma r fs f Hdone). simpl.
    rewrite IH by done. rewrite <- app_assoc. reflexivity.
Qed.

(** The first character of a line of two cells or more does not end a
    line, so a fresh record starts a field with it. *)
Lemma csv_line_head (c1 c2 : string) (cells : list string) (rest : string) :
  ∃ c s, csv_line (c1 :: c2 :: cells) +:+ String LF rest = String c s
         ∧ is_newline c = false ∧ s ≠ "".
Proof.
  rewrite csv_line_cons. unfold csv_field.
  destruct (csv_needs_quotes c1) eqn:Hq.
  - eexists _, _. rewrite !app_cons_str. split; [reflexivity|].
    split; [reflexivity|]. rewrite app_assoc_str.
    by destruct (csv_double_quotes c1).
  - destruct c1 as [|c f].
    + eexists _, _. rewrite app_nil_l_str, app_cons_str. split; [reflexivity|].
      split; [reflexivity|]. apply csv_line_nonempty_lf.
    + apply csv_needs_quotes_cons in Hq as (_ & _ & Hcr & Hlf & _).
      eexists _, _. rewrite !app_cons_str. split; [reflexivity|].
      split; [unfold is_newline; by rewrite Hlf, Hcr|].
      rewrite app_assoc_str. by destruct f.
Qed.

Lemma read_text_start (c1 c2 : string) (cells : list string) (rest : string) :
  read_text parse_reset (csv_line (c1 :: c2 :: cells) +:+ String LF rest)
  = read_text (mkReader START_FIELD [] "")
              (csv_line (c1 :: c2 :: cells) +:+ String LF rest).
Proof.
  destruct (csv_line_head c1 c2 cells rest) as (c & s & -> & Hc & Hs).
  assert (char_eqb c LF = false) as Hlf.
  { unfold is_newline in Hc. by apply orb_false_iff in Hc as [? _]. }
  rewrite !read_text_char by done.
  unfold parse_process_char, parse_reset. simpl. rewrite Hc. reflexivity.
Qed.

(** The reader gives back the rows of a table. *)
Lemma read_text_table (rows : list (list string)) :
  Forall wide_row rows → Forall (Forall fits) rows →
  read_text parse_reset (table_text rows) = Ok rows.
Proof.
  unfold table_text. induction 1 as [|cells rows Hw _ IH]; [reflexivity|].
  intros [Hfits Hrows]%Forall_cons. simpl.
  destruct cells as [|c1 [|c2 cells]]; try (unfold wide_row in Hw; simpl in Hw; lia).
  rewrite app_assoc_str, app_cons_str, app_nil_l_str.
  rewrite read_text_start, read_text_line by done.
  rewrite (IH Hrows). reflexivity.
Qed.

(** ** Round trip of the plain export *)

Lemma csv_safe_spec (s : string) :
  csv_safe s = true → str_contains CR s = false ∧ fits s.
Proof.
  unfold csv_safe, fits. intros [Hcr Hlen]%andb_true_iff.
  apply negb_true_iff in Hcr. apply N.leb_le in Hlen. done.
Qed.

Lemma str_is_empty_false (s : string) : negb (str_is_empty s) = true → s ≠ "".
Proof. by destruct s. Qed.

(** *** The text mode of the reader on what the writer wrote *)

(** A text without CR is read back as it is. *)
Lemma read_back_free (s : string) : str_contains CR s = false → read_back s = s.
Proof.
  intros Hs. unfold read_back.
  rewrite <- (app_nil_r_str s) at 1.
  rewrite universal_newlines_no_cr by exact Hs. by rewrite app_nil_r_str.
Qed.

Lemma universal_newlines_plain (b : bool) (c : ascii) (t : string) :
  is_newline c = false →
  universal_newlines b (String c t) = String c (universal_newlines false t).
Proof.
  unfold is_newline. intros [Hlf Hcr]%orb_false_iff.
  cbn [universal_newlines]. by rewrite Hcr, Hlf.
Qed.

(** The translation of the newlines goes through the doubling of the
    quotes, and starts afresh after the closing quote. *)
Lemma universal_newlines_quoted (b : bool) (f t : string) :
  universal_newlines b (csv_double_quotes f +:+ String DQUOTE t)
  = csv_double_quotes (universal_newlines b f)
    +:+ String DQUOTE (universal_newlines false t).
Proof.
  revert b. induction f as [|c f IH]; intros b.
  - cbn [csv_double_quotes universal_newlines]. rewrite !app_nil_l_str.
    by rewrite universal_newlines_plain.
  - cbn [csv_double_quotes]. destruct (char_eqb c DQUOTE) eqn:Eq.
    + apply char_eqb_eq in Eq as ->. rewrite !app_cons_str.
      rewrite !universal_newlines_plain by reflexivity.
      rewrite IH. cbn [csv_double_quotes]. rewrite char_eqb_refl.
      by rewrite !app_cons_str.
    + rewrite app_cons_str. cbn [universal_newlines].
      destruct (char_eqb c CR) eqn:Ecr.
      { rewrite IH. cbn [csv_double_quotes].
        change (char_eqb LF DQUOTE) with false. cbn iota.
        by rewrite app_cons_str. }
      destruct (char_eqb c LF) eqn:Elf.
      { destruct b; rewrite IH; [done|]. cbn [csv_double_quotes].
        change (char_eqb LF DQUOTE) with false. cbn iota.
        by rewrite app_cons_str. }
      rewrite IH. cbn [csv_double_quotes]. rewrite Eq. by rewrite app_cons_str.
Qed.

(** A field that needs quotes still needs them once read back. *)
Lemma csv_needs_quotes_read_back (f : string) :
  csv_needs_quotes f = true → csv_needs_quotes (read_back f) = true.
Proof.
  unfold read_back. induction f as [|c f IH]; [done|].
  unfold csv_needs_quotes in *. cbn [universal_newlines str_contains].
  destruct (char_eqb c CR) eqn:Ecr.
  { intros _. cbn [str_contains]. change (char_eqb LF LF) with true.
    by rewrite !orb_true_r. }
  destruct (char_eqb c LF) eqn:Elf.
  { intros _. cbn [str_contains]. change (char_eqb LF LF) with true.
    by rewrite !orb_true_r. }
  cbn [str_contains]. rewrite Ecr, Elf.
  destruct (char_eqb c COMMA); [done|].
  destruct (char_eqb c DQUOTE); [intros _; by rewrite orb_true_r|].
  cbn [orb]. exact IH.
Qed.

Lemma csv_needs_quotes_no_cr (f : string) :
  csv_needs_quotes f = false → str_contains CR f = false.
Proof. unfold csv_needs_quotes. rewrite !orb_false_iff. tauto. Qed.

Lemma csv_field_read_back (f : string) :
  csv_field (read_back f)
  = if csv_needs_quotes f
    then String DQUOTE (csv_double_quotes (read_back f) +:+ String DQUOTE "")
    else f.
Proof.
  unfold csv_field at 1. destruct (csv_needs_quotes f) eqn:Hq.
  - by rewrite csv_needs_quotes_read_back.
  - rewrite read_back_free by (by apply csv_needs_quotes_no_cr). by rewrite Hq.
Qed.

(** A field and the plain character after it, read in text mode. *)
Lemma universal_newlines_field (f : string) (c : ascii) (t : string) :
  is_newline c = false →
  universal_newlines false (csv_field f +:+ String c t)
  = csv_field (read_back f) +:+ String c (universal_newlines false t).
Proof.
  intros Hc. rewrite csv_field_read_back. unfold csv_field.
  destruct (csv_needs_quotes f) eqn:Hq.
  - rewrite !app_cons_str, !app_assoc_str, !app_cons_str, !app_nil_l_str.
    rewrite universal_newlines_plain by reflexivity.
    rewrite universal_newlines_quoted, universal_newlines_plain by exact Hc.
    reflexivity.
  - rewrite universal_newlines_no_cr by (by apply csv_needs_quotes_no_cr).
    by rewrite universal_newlines_plain.
Qed.

(** The last field of a row and the terminator after it. *)
Lemma universal_newlines_last_field (f t : string) :
  universal_newlines false (csv_field f +:+ CRLF +:+ t)
  = csv_field (read_back f) +:+ String LF (universal_newlines false t).
Proof.
  rewrite csv_field_read_back. unfold csv_field.
  destruct (csv_needs_quotes f) eqn:Hq.
  - rewrite !app_cons_str, !app_assoc_str, !app_cons_str, !app_nil_l_str.
    rewrite universal_newlines_plain by reflexivity.
    rewrite universal_newlines_quoted, universal_newlines_crlf.
    reflexivity.
  - rewrite universal_newlines_no_cr by (by apply csv_needs_quotes_no_cr).
    by rewrite universal_newlines_crlf.
Qed.

(** A row with its terminator, read in text mode: the line of the cells
    read back, and a line feed. *)
Lemma universal_newlines_row (cells : list string) (t : string) :
  cells ≠ [] →
  universal_newlines false (csv_line cells +:+ CRLF +:+ t)
  = csv_line (map read_back cells) +:+ String LF (universal_newlines false t).
Proof.
  induction cells as [|c1 cells IH]; [done|]. intros _.
  destruct cells as [|c2 cells].
  - apply universal_newlines_last_field.
  - cbn [map]. rewrite !csv_line_cons, !app_assoc_str, !app_cons_str.
    rewrite universal_newlines_field by reflexivity.
    rewrite IH by done. reflexivity.
Qed.

Lemma universal_newlines_rows (rows : list (list string)) :
  Forall wide_row rows →
  universal_newlines false (str_concat (map writerow rows))
  = table_text (map (map read_back) rows).
Proof.
  unfold table_text. induction 1 as [|cells rows Hw _ IH]; [reflexivity|].
  destruct cells as [|c1 [|c2 cells]]; try (unfold wide_row in Hw; simpl in Hw; lia).
  cbn [map str_concat]. rewrite writerow_line, app_assoc_str.
  rewrite universal_newlines_row by done. rewrite IH.
  rewrite app_assoc_str, app_cons_str, app_nil_l_str. reflexivity.
Qed.

(** *** From the export to the snapshot *)

Lemma snapshot_row_cells (m : Mod) :
  row_cells (snapshot_row m) !! "Author" = Some (Some (author m))
  ∧ row_cells (snapshot_row m) !! "Mod Name" = Some (Some (name m))
  ∧ row_cells (snapshot_row m) !! "Version" = Some (Some (version m))
  ∧ row_cells (snapshot_row m) !! "Enabled" = Some (Some (enabled m)).
Proof. repeat split; vm_compute; reflexivity. Qed.

(** The rows read back from an export have the cells the comparison
    engine looks up. *)
Lemma snapshot_row_columns (m : Mod) : has_columns (snapshot_row m).
Proof.
  destruct (snapshot_row_cells m) as (_ & _ & Hv & He).
  split; eexists; eassumption.
Qed.

Lemma six_cells_row (a n v e d w : string) :
  row_cells (dict_row headers [a; n; v; e; d; w]) !! "Author" = Some (Some a)
  ∧ row_cells (dict_row headers [a; n; v; e; d; w]) !! "Mod Name" = Some (Some n)
  ∧ row_cells (dict_row headers [a; n; v; e; d; w]) !! "Version" = Some (Some v)
  ∧ row_cells (dict_row headers [a; n; v; e; d; w]) !! "Enabled" = Some (Some e).
Proof. repeat split; vm_compute; reflexivity. Qed.

Lemma exportable_spec (m : Mod) :
  exportable m = true →
  author m ≠ "" ∧ name m ≠ ""
  ∧ read_back (author m) = author m ∧ read_back (name m) = name m
  ∧ read_back (version m) = version m ∧ read_back (enabled m) = enabled m
  ∧ Forall fits (map read_back (mod_row m)).
Proof.
  unfold exportable.
  intros [[[Ha Hn]%andb_true_iff Hcr]%andb_true_iff Hfit]%andb_true_iff.
  cbn [forallb] in Hcr. rewrite !andb_true_iff, !negb_true_iff in Hcr.
  destruct Hcr as (Hca & Hcn & Hcv & Hce & _).
  split; [by apply str_is_empty_false|]. split; [by apply str_is_empty_false|].
  rewrite !read_back_free by done. repeat split.
  apply Forall_fmap, Forall_forall. intros s Hs%list_elem_of_In.
  rewrite forallb_forall in Hfit. specialize (Hfit s Hs).
  unfold readable in Hfit. apply N.leb_le in Hfit. exact Hfit.
Qed.

(** The cells of the row read back for a record the round trip gives
    back. *)
Lemma read_back_row_cells (m : Mod) :
  exportable m = true →
  row_cells (read_back_row m) !! "Author" = Some (Some (author m))
  ∧ row_cells (read_back_row m) !! "Mod Name" = Some (Some (name m))
  ∧ row_cells (read_back_row m) !! "Version" = Some (Some (version m))
  ∧ row_cells (read_back_row m) !! "Enabled" = Some (Some (enabled m)).
Proof.
  intros (_ & _ & Ha & Hn & Hv & He & _)%exportable_spec.
  unfold read_back_row, mod_row. cbn [map]. rewrite Ha, Hn, Hv, He.
  apply six_cells_row.
Qed.

Lemma add_row_read_back (mods : gmap string Row) (m : Mod) :
  exportable m = true →
  add_row mods (read_back_row m) = <[mod_key m := read_back_row m]> mods.
Proof.
  intros Hm. destruct (read_back_row_cells m Hm) as (HA & HN & _).
  apply exportable_spec in Hm as (Ha & Hn & _).
  unfold add_row, row_text. rewrite HA, HN. unfold mod_key.
  destruct (author m); [done|]. destruct (name m); [done|]. reflexivity.
Qed.

Lemma foldl_add_row_lookup (mods_list : list Mod) :
  Forall (λ m, exportable m = true) mods_list →
  NoDup (mod_key <$> mods_list) →
  let snapshot := foldl add_row ∅ (read_back_row <$> mods_list) in
  size snapshot = length mods_list
  ∧ (∀ k, k ∉ mod_key <$> mods_list → snapshot !! k = None)
  ∧ (∀ m, m ∈ mods_list → snapshot !! mod_key m = Some (read_back_row m)).
Proof.
  induction mods_list as [|m l IH] using rev_ind; intros Hexp Hnd.
  - simpl. split; [apply map_size_empty|]. split.
    + intros k _. apply lookup_empty.
    + intros m Hm. by apply elem_of_nil in Hm.
  - apply Forall_app in Hexp as [Hl Hm]. rewrite Forall_singleton in Hm.
    rewrite fmap_app in Hnd. apply NoDup_app in Hnd as (Hndl & Hfresh & _).
    destruct (IH Hl Hndl) as (Hsize & Hnone & Hsome). clear IH.
    rewrite fmap_app. simpl. rewrite foldl_snoc, add_row_read_back by exact Hm.
    assert (mod_key m ∉ mod_key <$> l) as Hkey.
    { intros Hin. apply (Hfresh _ Hin). by left. }
    split; [|split].
    + rewrite map_size_insert_None by (by apply Hnone).
      rewrite Hsize, length_app. simpl. lia.
    + intros k Hk. rewrite fmap_app, not_elem_of_app in Hk. destruct Hk as [Hk1 Hk2].
      rewrite lookup_insert_ne; [by apply Hnone|].
      intros <-. apply Hk2. by left.
    + intros m' [Hm'| ->%list_elem_of_singleton]%elem_of_app.
      * rewrite lookup_insert_ne; [by apply Hsome|].
        intros Heq. apply Hkey. rewrite Heq. by apply list_elem_of_fmap_2.
      * apply lookup_insert_eq.
Qed.

Lemma str_concat_writerow_ends_crlf (rows : list (list string)) :
  rows ≠ [] → ∃ u, str_concat (map writerow rows) = u +:+ CRLF.
Proof.
  induction rows as [|cells rows _] using rev_ind; [done|]. intros _.
  destruct (writerow_ends_crlf cells) as [u Hu].
  exists (str_concat (map writerow rows) +:+ u).
  rewrite map_app, str_concat_app. simpl. rewrite app_nil_r_str, Hu.
  rewrite app_assoc_str. reflexivity.
Qed.

Lemma mod_rows_wide (mods_list : list Mod) :
  Forall wide_row (headers :: (mod_row <$> mods_list)).
Proof.
  constructor; [unfold wide_row; simpl; lia|].
  apply Forall_fmap, Forall_forall. intros m _. unfold wide_row. simpl. lia.
Qed.

(** The lines of an export: those of the statistics section, then those
    of the table with every cell as it is read back. *)
Lemma readlines_export (mods_list : list Mod) (stats : Stats) :
  readlines (export_to_csv mods_list stats)
  = readlines (statistics_section stats)
    ++ split_lines (table_text (headers :: (map read_back ∘ mod_row <$> mods_list))).
Proof.
  unfold readlines, export_to_csv, statistics_section.
  destruct (str_concat_writerow_ends_crlf (statistics_rows stats)) as [u ->]; [done|].
  rewrite (app_assoc_str u CRLF), universal_newlines_app_crlf.
  destruct (universal_newlines_ends_lf false u) as [v ->].
  rewrite (app_assoc_str v), app_cons_str, app_nil_l_str, split_lines_app.
  f_equal. f_equal.
  rewrite <- (map_map mod_row writerow).
  change (writerow headers +:+ str_concat (map writerow (map mod_row mods_list)))
    with (str_concat (map writerow (headers :: (mod_row <$> mods_list)))).
  rewrite universal_newlines_rows by apply mod_rows_wide.
  cbn [map]. rewrite list_fmap_compose. reflexivity.
Qed.

Lemma table_text_cons (cells : list string) (rows : list (list string)) :
  table_text (cells :: rows) = csv_line cells +:+ String LF (table_text rows).
Proof. unfold table_text. simpl. rewrite app_assoc_str. reflexivity. Qed.

Lemma header_line_first (rows : list (list string)) :
  ∃ lines, split_lines (table_text (headers :: rows))
           = (csv_line headers +:+ String LF "") :: lines.
Proof.
  rewrite table_text_cons, split_lines_app.
  rewrite split_lines_single by reflexivity. by eexists.
Qed.

Lemma find_header_export (mods_list : list Mod) (stats : Stats) :
  Forall (λ line, is_header_line line = false) (readlines (statistics_section stats)) →
  ∃ idx, find_header (readlines (export_to_csv mods_list stats)) = Some idx
         ∧ str_concat (drop idx (readlines (export_to_csv mods_list stats)))
           = table_text (headers :: (map read_back ∘ mod_row <$> mods_list)).
Proof.
  intros Hstats. rewrite readlines_export.
  exists (length (readlines (statistics_section stats)) + 0). split.
  - rewrite find_header_app by exact Hstats.
    destruct (header_line_first (map read_back ∘ mod_row <$> mods_list)) as [lines ->].
    reflexivity.
  - rewrite Nat.add_0_r, drop_app_length. apply split_lines_concat.
Qed.

Lemma filter_wide_rows (rows : list (list string)) :
  Forall wide_row rows →
  List.filter (λ rec, negb (is_blank_record rec)) rows = rows.
Proof.
  induction 1 as [|cells rows Hw _ IH]; [reflexivity|].
  destruct cells as [|c cells]; [unfold wide_row in Hw; simpl in Hw; lia|].
  simpl. by rewrite IH.
Qed.

Lemma filter_mod_rows (mods_list : list Mod) :
  List.filter (λ rec, negb (is_blank_record rec)) (mod_row <$> mods_list)
  = mod_row <$> mods_list.
Proof.
  apply filter_wide_rows. pose proof (mod_rows_wide mods_list) as H.
  by apply Forall_cons in H as [_ H].
Qed.

Lemma csv_reader_read_text (s : string) :
  csv_reader (split_lines s) = read_text parse_reset s.
Proof. reflexivity. Qed.

Lemma DictReader_table (mods_list : list Mod) :
  Forall (λ m, Forall fits (map read_back (mod_row m))) mods_list →
  DictReader (split_lines (table_text (headers :: (map read_back ∘ mod_row <$> mods_list))))
  = Ok (read_back_row <$> mods_list).
Proof.
  intros Hfit. unfold DictReader.
  assert (Forall wide_row (map read_back ∘ mod_row <$> mods_list)) as Hwide.
  { apply Forall_fmap, Forall_forall. intros m _. unfold wide_row. simpl. lia. }
  rewrite csv_reader_read_text, read_text_table.
  - simpl. rewrite filter_wide_rows by exact Hwide. f_equal.
    rewrite <- list_fmap_compose. reflexivity.
  - constructor; [unfold wide_row; simpl; lia|exact Hwide].
  - constructor; [by apply (bool_decide_unpack _)|].
    apply Forall_fmap. exact Hfit.
Qed.

(** What the snapshot reader returns on an export whose cells are
    readable. *)
Lemma load_export_read_back (mods_list : list Mod) (stats : Stats)
    (file_name : string) :
  Forall (λ m, Forall fits (map read_back (mod_row m))) mods_list →
  Forall (λ line, is_header_line line = false) (readlines (statistics_section stats)) →
  load_csv_for_comparison file_name (export_to_csv mods_list stats)
  = ([], Ok (foldl add_row ∅ (read_back_row <$> mods_list))).
Proof.
  intros Hfit Hstats.
  destruct (find_header_export mods_list stats Hstats) as (idx & Hidx & Hdata).
  unfold load_csv_for_comparison. rewrite Hidx, Hdata.
  rewrite DictReader_table by exact Hfit. reflexivity.
Qed.

(** *** A field over the limit *)

Lemma parse_add_char_full (st : ParserState) (fs : list string) (pre : string)
    (c : ascii) :
  ¬ fits (pre +:+ String c "") →
  parse_add_char (mkReader st fs pre) c = Raise CsvError.
Proof.
  unfold fits, parse_add_char. rewrite str_length_app. simpl. intros Hfull.
  destruct (N.leb_spec field_limit (N.of_nat (String.length pre))); [reflexivity|lia].
Qed.

Lemma fits_dec (s : string) : {fits s} + {¬ fits s}.
Proof. unfold fits. apply decide; apply _. Qed.

(** What adding a character does: it goes through when the field fits
    with it, and fails otherwise. *)
Lemma parse_add_char_outcome (st : ParserState) (fs : list string) (pre : string)
    (c : ascii) :
  (fits (pre +:+ String c "")
   ∧ parse_add_char (mkReader st fs pre) c = Ok (mkReader st fs (pre +:+ String c "")))
  ∨ (¬ fits (pre +:+ String c "")
     ∧ parse_add_char (mkReader st fs pre) c = Raise CsvError).
Proof.
  destruct (fits_dec (pre +:+ String c "")) as [Hfit|Hfull].
  - left. split; [exact Hfit|]. by apply parse_add_char_ok.
  - right. split; [exact Hfull|]. by apply parse_add_char_full.
Qed.

(** The rest of an unquoted field that does not fit. *)
Lemma read_text_unquoted_full (f pre : string) (fs : list string) (rest : string) :
  csv_needs_quotes f = false → ¬ fits (pre +:+ f) → fits pre → rest ≠ "" →
  read_text (mkReader IN_FIELD fs pre) (f +:+ rest) = Raise CsvError.
Proof.
  revert pre. induction f as [|c f IH]; intros pre Hq Hfull Hpre Hrest.
  - rewrite app_nil_r_str in Hfull. done.
  - apply csv_needs_quotes_cons in Hq as (Hcomma & _ & Hcr & Hlf & Hq).
    rewrite app_cons_str, read_text_char; [|exact Hlf|by destruct f, rest].
    reader_step. rewrite Hlf, Hcr, Hcomma. simpl.
    destruct (parse_add_char_outcome IN_FIELD fs pre c) as [[Hfit ->]|[_ ->]];
      [|reflexivity].
    simpl. apply IH; [exact Hq| |exact Hfit|exact Hrest].
    by rewrite snoc_app_str.
Qed.

(** The inside of a quoted field that does not fit. *)
Lemma read_text_quoted_full (f pre : string) (fs : list string) (rest : string) :
  ¬ fits (pre +:+ f) → fits pre → rest ≠ "" →
  read_text (mkReader IN_QUOTED_FIELD fs pre)
            (csv_double_quotes f +:+ String DQUOTE rest)
  = Raise CsvError.
Proof.
  revert pre. induction f as [|c f IH]; intros pre Hfull Hpre Hrest.
  - rewrite app_nil_r_str in Hfull. done.
  - simpl. destruct (char_eqb c DQUOTE) eqn:Eq.
    + apply char_eqb_eq in Eq as ->. rewrite !app_cons_str.
      rewrite read_text_char; [|reflexivity|done]. simpl.
      rewrite read_text_char; [|reflexivity|by destruct (csv_double_quotes f)].
      reader_step.
      destruct (parse_add_char_outcome QUOTE_IN_QUOTED_FIELD fs pre DQUOTE)
        as [[Hfit ->]|[_ ->]]; [|reflexivity].
      simpl. apply IH; [|exact Hfit|exact Hrest]. by rewrite snoc_app_str.
    + rewrite app_cons_str. destruct (char_eqb c LF) eqn:El.
      * apply char_eqb_eq in El as ->. rewrite read_text_lf.
        reader_step.
        destruct (parse_add_char_outcome IN_QUOTED_FIELD fs pre LF)
          as [[Hfit ->]|[_ ->]]; [|reflexivity].
        simpl. apply IH; [|exact Hfit|exact Hrest]. by rewrite snoc_app_str.
      * rewrite read_text_char; [|exact El|by destruct (csv_double_quotes f)].
        reader_step. rewrite Eq.
        destruct (parse_add_char_outcome IN_QUOTED_FIELD fs pre c)
          as [[Hfit ->]|[_ ->]]; [|reflexivity].
        simpl. apply IH; [|exact Hfit|exact Hrest]. by rewrite snoc_app_str.
Qed.

Lemma fits_empty : fits "".
Proof. by apply (bool_decide_unpack _). Qed.

Lemma fits_single (c : ascii) : fits (String c "").
Proof. by apply (bool_decide_unpack _). Qed.

(** One field that does not fit, read from the start of a field. *)
Lemma read_text_field_full (f : string) (fs : list string) (rest : string) :
  ¬ fits f → rest ≠ "" →
  read_text (mkReader START_FIELD fs "") (csv_field f +:+ rest) = Raise CsvError.
Proof.
  intros Hfull Hrest. unfold csv_field.
  destruct (csv_needs_quotes f) eqn:Hq.
  - rewrite app_cons_str, app_assoc_str, app_cons_str, app_nil_l_str.
    rewrite read_text_char; [|reflexivity|by destruct (csv_double_quotes f)].
    reader_step.
    apply read_text_quoted_full; [exact Hfull|apply fits_empty|exact Hrest].
  - destruct f as [|c f]; [destruct Hfull; apply fits_empty|].
    apply csv_needs_quotes_cons in Hq as (Hcomma & Hdq & Hcr & Hlf & Hq).
    rewrite app_cons_str, read_text_char; [|exact Hlf|by destruct f, rest].
    reader_step. rewrite Hlf, Hcr, Hdq, Hcomma. simpl.
    apply read_text_unquoted_full; [exact Hq|exact Hfull|apply fits_single|exact Hrest].
Qed.

(** A line with a field that does not fit. *)
Lemma read_text_line_full (cells fs : list string) (rest : string) :
  Exists (λ s, ¬ fits s) cells →
  read_text (mkReader START_FIELD fs "") (csv_line cells +:+ String LF rest)
  = Raise CsvError.
Proof.
  revert fs. induction cells as [|f cells IH]; intros fs Hfull.
  - by apply Exists_nil in Hfull.
  - destruct (fits_dec f) as [Hf|Hf].
    + apply Exists_cons in Hfull as [?|Hfull]; [done|].
      destruct cells as [|f2 cells]; [by apply Exists_nil in Hfull|].
      rewrite csv_line_cons, app_assoc_str, app_cons_str.
      destruct (read_text_field f fs
                  (String COMMA (csv_line (f2 :: cells) +:+ String LF rest)) Hf)
        as (r & Hdone & ->); [done|].
      rewrite read_text_char; [|reflexivity|apply csv_line_nonempty_lf].
      rewrite (field_done_comma r fs f Hdone). simpl.
      apply IH, Hfull.
    + destruct cells as [|f2 cells].
      * change (csv_line [f]) with (csv_field f).
        by apply read_text_field_full.
      * rewrite csv_line_cons, app_assoc_str, app_cons_str.
        by apply read_text_field_full.
Qed.

(** The reader fails on a table with a field that does not fit. *)
Lemma read_text_table_full (rows : list (list string)) :
  Forall wide_row rows → Exists (Exists (λ s, ¬ fits s)) rows →
  read_text parse_reset (table_text rows) = Raise CsvError.
Proof.
  unfold table_text. induction 1 as [|cells rows Hw _ IH]; intros Hfull.
  - by apply Exists_nil in Hfull.
  - simpl.
    destruct cells as [|c1 [|c2 cells]]; try (unfold wide_row in Hw; simpl in Hw; lia).
    rewrite app_assoc_str, app_cons_str, app_nil_l_str, read_text_start.
    destruct (Forall_Exists_dec fits (λ s, ¬ fits s) fits_dec (c1 :: c2 :: cells))
      as [Hfits|Hcells].
    + apply Exists_cons in Hfull as [Hcells|Hrows].
      * exfalso. apply Exists_exists in Hcells as (s & Hs & Hfull).
        rewrite Forall_forall in Hfits. by apply Hfull, Hfits.
      * rewrite read_text_line by done. by rewrite (IH Hrows).
    + by apply read_text_line_full.
Qed.

(** The snapshot reader fails, with the error of the csv module, on an
    export that holds a field which is not readable. *)
Lemma load_export_unreadable (mods_list : list Mod) (stats : Stats)
    (file_name : string) :
  Forall (λ line, is_header_line line = false) (readlines (statistics_section stats)) →
  Exists (λ m, Exists (λ s, readable s = false) (mod_row m)) mods_list →
  load_csv_for_comparison file_name (export_to_csv mods_list stats)
  = ([], Raise CsvError).
Proof.
  intros Hstats Hfull.
  destruct (find_header_export mods_list stats Hstats) as (idx & Hidx & Hdata).
  unfold load_csv_for_comparison. rewrite Hidx, Hdata. unfold DictReader.
  rewrite csv_reader_read_text, read_text_table_full; [reflexivity| |].
  - constructor; [unfold wide_row; simpl; lia|].
    apply Forall_fmap, Forall_forall. intros m _. unfold wide_row. simpl. lia.
  - apply Exists_cons_tl, Exists_fmap.
    eapply Exists_impl; [exact Hfull|]. intros m Hm. simpl.
    change (Exists (λ s, ¬ fits s) (read_back <$> mod_row m)).
    apply Exists_fmap. eapply Exists_impl; [exact Hm|].
    intros s Hs. simpl. unfold readable in Hs. apply N.leb_gt in Hs.
    unfold fits. lia.
Qed.

(** A description of 131073 characters makes the snapshot reader fail. *)
Example export_load_field_limit :
  reloaded [long_description_mod] = ([], Raise CsvError).
Proof.
  apply load_export_unreadable.
  - apply (bool_decide_unpack _). vm_compute. exact I.
  - apply Exists_cons_hd. unfold mod_row.
    do 4 apply Exists_cons_tl. apply Exists_cons_hd.
    vm_compute. reflexivity.
Qed.

(** C1 (as stated, refuted): two records with the same author and name,
    written and read back, give a mapping with one entry, and the entry
    under their key carries the version of the second record only. *)
Lemma export_load_duplicate_key :
  ∃ snapshot row,
    load_csv_for_comparison "Default.csv"
      (export_to_csv [sample_mod "Jotunn" "2.20.0"; sample_mod "Jotunn" "2.20.1"]
         (calculate_statistics
            [sample_mod "Jotunn" "2.20.0"; sample_mod "Jotunn" "2.20.1"]
            "Default" "2024-01-01 00:00:00"))
    = ([], Ok snapshot)
    ∧ size snapshot = 1
    ∧ length [sample_mod "Jotunn" "2.20.0"; sample_mod "Jotunn" "2.20.1"] = 2
    ∧ snapshot !! "Azumatt:Jotunn" = Some row
    ∧ row_cells row !! "Version" = Some (Some "2.20.1")
    ∧ version (sample_mod "Jotunn" "2.20.0") ≠ "2.20.1".
Proof.
  eexists _, _. split; [vm_compute; reflexivity|].
  repeat split; try (vm_compute; reflexivity). discriminate.
Qed.

(** A carriage return in one of the four fields does not come back: the
    file is read in text mode, so the reader sees a line feed.  With one in
    the author or in the name the record is not under its key; with one in
    the version or in the enabled flag the cell read is another text. *)
Example export_load_carriage_return :
  loaded_cell (reloaded [cr_in_author_mod]) (mod_key cr_in_author_mod) "Version" = None
  ∧ loaded_cell (reloaded [cr_in_name_mod]) (mod_key cr_in_name_mod) "Version" = None
  ∧ loaded_cell (reloaded [cr_in_version_mod]) (mod_key cr_in_version_mod) "Version"
    = Some (Some (String "1" (String LF "")))
  ∧ version cr_in_version_mod ≠ String "1" (String LF "")
  ∧ loaded_cell (reloaded [cr_in_enabled_mod]) (mod_key cr_in_enabled_mod) "Enabled"
    = Some (Some (String "Y" (String LF "")))
  ∧ enabled cr_in_enabled_mod ≠ String "Y" (String LF "").
Proof. repeat split; try (vm_compute; reflexivity); discriminate. Qed.

(** C1 (amended): for every sequence of N records (N >= 0) with non-blank
    author and name, pairwise distinct author:name keys, no carriage
    return in the author, name, version and enabled flag, and no field
    longer, as read back, than the reader's limit of 131072 characters,
    written after a statistics section none of whose lines starts with the
    header prefix, the snapshot reader returns, without a warning, a
    mapping with exactly N entries in which the entry under each record's
    key has that record's Author, Mod Name, Version and Enabled.  The
    description and the website may hold carriage returns. *)
Theorem export_load_roundtrip (mods_list : list Mod) (stats : Stats)
    (file_name : string) :
  Forall (λ m, exportable m = true) mods_list →
  NoDup (mod_key <$> mods_list) →
  Forall (λ line, is_header_line line = false) (readlines (statistics_section stats)) →
  ∃ snapshot,
    load_csv_for_comparison file_name (export_to_csv mods_list stats)
    = ([], Ok snapshot)
    ∧ size snapshot = length mods_list
    ∧ ∀ m, m ∈ mods_list →
        ∃ row, snapshot !! mod_key m = Some row
               ∧ row_cells row !! "Author" = Some (Some (author m))
               ∧ row_cells row !! "Mod Name" = Some (Some (name m))
               ∧ row_cells row !! "Version" = Some (Some (version m))
               ∧ row_cells row !! "Enabled" = Some (Some (enabled m)).
Proof.
  intros Hexp Hnd Hstats.
  destruct (foldl_add_row_lookup mods_list Hexp Hnd) as (Hsize & _ & Hrows).
  exists (foldl add_row ∅ (read_back_row <$> mods_list)).
  split; [|split].
  - apply load_export_read_back; [|exact Hstats].
    eapply Forall_impl; [exact Hexp|]. intros m Hm.
    by apply exportable_spec in Hm as (_ & _ & _ & _ & _ & _ & Hfit).
  - exact Hsize.
  - intros m Hm. exists (read_back_row m). split; [by apply Hrows|].
    apply read_back_row_cells. rewrite Forall_forall in Hexp. by apply Hexp.
Qed.

Lemma export_load_roundtrip_witness :
  ∃ snapshot,
    load_csv_for_comparison "Default.csv"
      (export_to_csv [sample_mod "Jotunn" "2.20.1"; cr_in_description_mod]
         (calculate_statistics
            [sample_mod "Jotunn" "2.20.1"; cr_in_description_mod]
            "Default" "2024-01-01 00:00:00"))
    = ([], Ok snapshot)
    ∧ size snapshot = 2
    ∧ ∀ m, m ∈ [sample_mod "Jotunn" "2.20.1"; cr_in_description_mod] →
        ∃ row, snapshot !! mod_key m = Some row
               ∧ row_cells row !! "Author" = Some (Some (author m))
               ∧ row_cells row !! "Mod Name" = Some (Some (name m))
               ∧ row_cells row !! "Version" = Some (Some (version m))
               ∧ row_cells row !! "Enabled" = Some (Some (enabled m)).
Proof.
  apply (export_load_roundtrip [sample_mod "Jotunn" "2.20.1"; cr_in_description_mod]).
  - apply (bool_decide_unpack _). vm_compute. exact I.
  - apply (bool_decide_unpack _). vm_compute. exact I.
  - apply (bool_decide_unpack _). vm_compute. exact I.
Defined.

(* ===================================================================== *)
(** * Part III: further properties                                        *)
(* ===================================================================== *)

(** ** More on the statistics *)

Lemma Counter_length (l : list string) :
  length (Counter l) = length (remove_dups l).
Proof.
  rewrite <- (length_fmap fst (Counter l)). apply Permutation_length.
  apply NoDup_Permutation.
  - apply Counter_keys_NoDup.
  - apply NoDup_remove_dups.
  - intros a. rewrite elem_of_remove_dups. apply Counter_keys_elem.
Qed.

(** X1: the counts of the summary.  The total is the number of records;
    enabled and disabled add up to it; enabled is the number of records
    whose flag is the text Yes; unique_authors is the number of distinct
    authors. *)
Theorem statistics_counts (mods_list : list Mod) (profile now : string) :
  let stats := calculate_statistics mods_list profile now in
  total_mods stats = length mods_list
  ∧ enabled_mods stats + disabled_mods stats = total_mods stats
  ∧ enabled_mods stats = length (filter (λ m, enabled m = "Yes") mods_list)
  ∧ unique_authors stats = length (remove_dups (author <$> mods_list)).
Proof.
  simpl. split; [reflexivity|].
  pose proof (List.filter_length_le (λ m : Mod, str_eqb (enabled m) "Yes") mods_list).
  split; [lia|]. split.
  - induction mods_list as [|m l IH]; [reflexivity|].
    rewrite filter_cons. simpl.
    destruct (str_eqb (enabled m) "Yes") eqn:E.
    + apply str_eqb_eq in E. rewrite decide_True by exact E. simpl. f_equal.
      apply IH. apply List.filter_length_le.
    + apply str_eqb_neq in E. rewrite decide_False by exact E.
      apply IH. apply List.filter_length_le.
  - apply Counter_length.
Qed.

(** X2: the newest list holds min(5, N) records of the collection, in
    descending order of version key, and no record left out of it has a
    key above the key of a record in it. *)
Theorem newest_mods_greatest (mods_list : list Mod) (profile now : string) :
  let newest := newest_mods (calculate_statistics mods_list profile now) in
  length newest = min 5 (length mods_list)
  ∧ (∀ i j x y, i < j → newest !! i = Some x → newest !! j = Some y →
       tuple_lt (version_key x) (version_key y) = false)
  ∧ ∃ others, newest ++ others ≡ₚ mods_list
      ∧ ∀ x y, x ∈ newest → y ∈ others →
          tuple_lt (version_key x) (version_key y) = false.
Proof.
  intros newest. unfold newest. rewrite newest_mods_eq.
  destruct (sorted_by_version mods_list) as [Hperm Hsorted].
  pose proof (sorted_length version_key tuple_lt true mods_list) as Hlen.
  set (s := sorted version_key tuple_lt true mods_list) in *.
  rewrite <- (take_drop 5 s) in Hsorted, Hperm.
  apply StronglySorted_app in Hsorted as (Hcross & Htake & _).
  split; [by rewrite length_take, Hlen|]. split.
  - intros i j x y Hij Hi Hj.
    exact (StronglySorted_lookup _ _ _ _ _ _ Htake Hij Hi Hj).
  - exists (drop 5 s). split; [exact Hperm|].
    intros x y Hx Hy. exact (Hcross x y Hx Hy).
Qed.

Lemma StronglySorted_reverse {A : Type} (R : A → A → Prop) (l : list A) :
  StronglySorted R l → StronglySorted (flip R) (reverse l).
Proof.
  induction 1 as [|x l Hl IH Hx]; [rewrite reverse_nil; constructor|].
  rewrite reverse_cons. apply StronglySorted_app.
  split; [|split; [exact IH|repeat constructor]].
  intros y z Hy Hz. apply list_elem_of_singleton in Hz as ->.
  rewrite elem_of_reverse in Hy. rewrite Forall_forall in Hx. apply Hx, Hy.
Qed.

(** X3: the oldest list holds min(5, N) records of the collection, in
    ascending order of version key, and no record left out of it has a
    key below the key of a record in it. *)
Theorem oldest_mods_least (mods_list : list Mod) (profile now : string) :
  let oldest := oldest_mods (calculate_statistics mods_list profile now) in
  length oldest = min 5 (length mods_list)
  ∧ (∀ i j x y, i < j → oldest !! i = Some x → oldest !! j = Some y →
       tuple_lt (version_key y) (version_key x) = false)
  ∧ ∃ others, others ++ reverse oldest ≡ₚ mods_list
      ∧ ∀ x y, x ∈ oldest → y ∈ others →
          tuple_lt (version_key y) (version_key x) = false.
Proof.
  intros oldest. unfold oldest. rewrite oldest_mods_eq.
  destruct (sorted_by_version mods_list) as [Hperm Hsorted].
  pose proof (sorted_length version_key tuple_lt true mods_list) as Hlen.
  set (s := sorted version_key tuple_lt true mods_list) in *.
  unfold last_n. set (k := length s - 5).
  rewrite <- (take_drop k s) in Hsorted, Hperm.
  apply StronglySorted_app in Hsorted as (Hcross & _ & Hdrop).
  split; [rewrite length_reverse, length_drop; unfold k; lia|]. split.
  - intros i j x y Hij Hi Hj.
    apply StronglySorted_reverse in Hdrop.
    exact (StronglySorted_lookup _ _ _ _ _ _ Hdrop Hij Hi Hj).
  - exists (take k s). rewrite reverse_involutive. split; [exact Hperm|].
    intros x y Hx Hy. rewrite elem_of_reverse in Hx. exact (Hcross y x Hy Hx).
Qed.

(** X4: among the records of one version key, the newest list keeps the
    order of the input and takes them from its front; the oldest list
    takes them from its back and shows them in the opposite order. *)
Theorem newest_oldest_ties (mods_list : list Mod) (profile now : string)
    (k : list Z) :
  let stats := calculate_statistics mods_list profile now in
  let same := filter (λ m, version_key m = k) in
  same (newest_mods stats) `prefix_of` same mods_list
  ∧ reverse (same (oldest_mods stats)) `suffix_of` same mods_list.
Proof.
  intros stats same. unfold stats, same.
  rewrite newest_mods_eq, oldest_mods_eq.
  pose proof (sorted_filter version_key tuple_lt tuple_lt_irrefl true k mods_list)
    as Hstable.
  set (s := sorted version_key tuple_lt true mods_list) in *.
  split.
  - rewrite <- Hstable.
    exists (filter (λ m, version_key m = k) (drop 5 s)).
    rewrite <- filter_app, take_drop. reflexivity.
  - rewrite filter_reverse, reverse_involutive. rewrite <- Hstable.
    unfold last_n.
    exists (filter (λ m, version_key m = k) (take (length s - 5) s)).
    rewrite <- filter_app, take_drop. reflexivity.
Qed.

(** X5: the normalizer and the version key agree.  For a manifest entry
    whose version components are ints (an absent one counting as 0), the
    key of the normalized version text is the triple of these ints. *)
Theorem version_key_of_normalized (raw : RawMod) (d : list (string * PyVal))
    (a b c : Z) (r : ModInfo PyVal) (m : Mod) :
  dict_get raw "versionNumber" (PyDict []) = PyDict d →
  dict_get d "major" (PyInt 0) = PyInt a →
  dict_get d "minor" (PyInt 0) = PyInt b →
  dict_get d "patch" (PyInt 0) = PyInt c →
  parse_mod_info raw = Ok r →
  version m = version r →
  version_key m = [a; b; c].
Proof.
  intros Hd Ha Hb Hc Hr Hm. unfold parse_mod_info in Hr.
  rewrite Hd in Hr. simpl in Hr. rewrite Ha, Hb, Hc in Hr.
  cbn [py_str py_repr] in Hr. rewrite !str_of_int_outcome in Hr.
  destruct (within_limit a) eqn:Hla; [|discriminate].
  destruct (within_limit b) eqn:Hlb; [|discriminate].
  destruct (within_limit c) eqn:Hlc; [|discriminate].
  injection Hr as <-. simpl in Hm.
  apply version_key_of_numerals; [done| |exact Hm].
  repeat constructor; assumption.
Qed.

Lemma version_key_of_normalized_witness :
  version_key (sample_mod "Jotunn" "2.-1.0") = [2; -1; 0]%Z.
Proof.
  apply (version_key_of_normalized
           [("versionNumber", PyDict [("major", PyInt 2); ("minor", PyInt (-1))])]
           [("major", PyInt 2); ("minor", PyInt (-1))] 2 (-1) 0
           (mkModInfo (PyStr "Unknown") (PyStr "Unknown") "2.-1.0" (PyStr "") "No" (PyStr "")));
    reflexivity.
Defined.

(** ** Sorting the records *)

Lemma N_of_ascii_inj (x y : ascii) : N_of_ascii x = N_of_ascii y → x = y.
Proof.
  intros H. rewrite <- (ascii_N_embedding x), <- (ascii_N_embedding y).
  by rewrite H.
Qed.

Lemma str_lt_irrefl (a : string) : str_lt a a = false.
Proof.
  induction a as [|x a IH]; [reflexivity|].
  simpl. rewrite N.ltb_irrefl. exact IH.
Qed.

Lemma str_lt_trans (a b c : string) :
  str_lt a b = true → str_lt b c = true → str_lt a c = true.
Proof.
  revert b c. induction a as [|x a IH]; intros [|y b] [|z c]; simpl; try done.
  destruct (N.ltb_spec (N_of_ascii x) (N_of_ascii y)),
    (N.ltb_spec (N_of_ascii y) (N_of_ascii x)),
    (N.ltb_spec (N_of_ascii y) (N_of_ascii z)),
    (N.ltb_spec (N_of_ascii z) (N_of_ascii y)),
    (N.ltb_spec (N_of_ascii x) (N_of_ascii z)),
    (N.ltb_spec (N_of_ascii z) (N_of_ascii x));
    try done; try lia.
  apply IH.
Qed.

Lemma str_lt_total (a b : string) :
  str_lt a b = false → str_lt b a = false → a = b.
Proof.
  revert b. induction a as [|x a IH]; intros [|y b]; simpl; try done.
  destruct (N.ltb_spec (N_of_ascii x) (N_of_ascii y)),
    (N.ltb_spec (N_of_ascii y) (N_of_ascii x)); try done; try lia.
  intros Hab Hba. f_equal; [apply N_of_ascii_inj; lia|]. apply IH; assumption.
Qed.

Lemma pair_lt_irrefl (a : string * string) : pair_lt a a = false.
Proof. unfold pair_lt. by rewrite !str_lt_irrefl. Qed.

Lemma pair_lt_total (a b : string * string) :
  pair_lt a b = false → pair_lt b a = false → a = b.
Proof.
  destruct a as [a1 a2], b as [b1 b2]. unfold pair_lt. simpl.
  destruct (str_lt a1 b1) eqn:E1; [done|].
  destruct (str_lt b1 a1) eqn:E2; [done|].
  intros H1 H2. f_equal; by apply str_lt_total.
Qed.

Lemma pair_lt_trans (a b c : string * string) :
  pair_lt a b = true → pair_lt b c = true → pair_lt a c = true.
Proof.
  destruct a as [a1 a2], b as [b1 b2], c as [c1 c2]. unfold pair_lt. simpl.
  destruct (str_lt a1 b1) eqn:Eab.
  - intros _. destruct (str_lt b1 c1) eqn:Ebc.
    + intros _. by rewrite (str_lt_trans _ _ _ Eab Ebc).
    + destruct (str_lt c1 b1) eqn:Ecb; [done|].
      rewrite (str_lt_total _ _ Ebc Ecb) in Eab. by rewrite Eab.
  - destruct (str_lt b1 a1) eqn:Eba; [done|].
    rewrite (str_lt_total _ _ Eab Eba). intros H12.
    destruct (str_lt b1 c1); [done|]. destruct (str_lt c1 b1); [done|].
    intros H23. exact (str_lt_trans _ _ _ H12 H23).
Qed.

Lemma res_mapM_spec {A B : Type} (f : A → Res B) (l : list A) :
  (∃ ys, res_mapM f l = Ok ys ∧ Forall2 (λ x y, f x = Ok y) l ys)
  ∨ (∃ e x, res_mapM f l = Raise e ∧ x ∈ l ∧ f x = Raise e).
Proof.
  induction l as [|x l IH]; simpl.
  - left. eexists. split; [reflexivity|constructor].
  - destruct (f x) as [y|e] eqn:Hx; simpl.
    + destruct IH as [(ys & -> & Hys)|(e & z & -> & Hz & He)]; simpl.
      * left. eexists. split; [reflexivity|]. by constructor.
      * right. exists e, z. split; [reflexivity|]. split; [by right|done].
    + right. exists e, x. split; [reflexivity|]. split; [by left|done].
Qed.

Lemma res_mapM_raise {A B : Type} (f : A → Res B) (l : list A) (e : PyExc) :
  (∀ x e', x ∈ l → f x = Raise e' → e' = e) →
  (∃ x, x ∈ l ∧ ∃ e', f x = Raise e') →
  res_mapM f l = Raise e.
Proof.
  intros Hexc (x & Hx & e' & Hfx).
  destruct (res_mapM_spec f l) as [(ys & _ & Hys)|(e1 & z & -> & Hz & He)].
  - apply list_elem_of_lookup in Hx as [i Hi].
    destruct (Forall2_lookup_l _ _ _ _ _ Hys Hi) as (y & _ & Hy). congruence.
  - by rewrite (Hexc z e1 Hz He).
Qed.

Lemma sort_key_zip (l : list (ModInfo PyVal)) (keys : list (string * string)) :
  res_mapM sort_key l = Ok keys → zip keys l = map (λ x, (key_of x, x)) l.
Proof.
  revert keys. induction l as [|x l IH]; intros keys; simpl.
  - by intros [= <-].
  - unfold key_of at 1. destruct (sort_key x) as [k|]; [|done]. simpl.
    destruct (res_mapM sort_key l) as [ks|]; [|done]. simpl.
    intros [= <-]. simpl. by rewrite (IH ks).
Qed.

Lemma stable_sort_decorated {A K : Type} (key : A → K) (lt : K → K → bool)
    (l : list A) :
  stable_sort fst lt (map (λ x, (key x, x)) l)
  = map (λ x, (key x, x)) (stable_sort key lt l).
Proof.
  induction l as [|x l IH]; [reflexivity|].
  simpl. rewrite IH. generalize (stable_sort key lt l). intros s.
  induction s as [|y s IHs]; [reflexivity|].
  simpl. destruct (lt (key y) (key x)); [|reflexivity].
  simpl. by rewrite IHs.
Qed.

Lemma sort_mods_sorted (l l' : list (ModInfo PyVal)) :
  sort_mods l = Ok l' → l' = stable_sort key_of pair_lt l.
Proof.
  unfold sort_mods. destruct (res_mapM sort_key l) as [keys|] eqn:Hkeys; [|done].
  simpl. intros [= <-]. rewrite (sort_key_zip l keys Hkeys).
  rewrite stable_sort_decorated, map_map. simpl. apply map_id.
Qed.

Lemma sort_mods_keys (l l' : list (ModInfo PyVal)) :
  sort_mods l = Ok l' → Forall (λ x, sort_key x = Ok (key_of x)) l.
Proof.
  unfold sort_mods.
  destruct (res_mapM_spec sort_key l) as [(ys & Hys & Hall)|(e & z & -> & _)];
    [|done].
  intros _. apply Forall_forall. intros x [i Hi]%list_elem_of_lookup.
  destruct (Forall2_lookup_l _ _ _ _ _ Hall Hi) as (y & _ & Hy).
  unfold key_of. by rewrite Hy.
Qed.

Lemma sort_mods_defined (l : list (ModInfo PyVal)) :
  Forall (λ x, sort_key x = Ok (key_of x)) l →
  sort_mods l = Ok (stable_sort key_of pair_lt l).
Proof.
  intros Hall. unfold sort_mods.
  destruct (res_mapM_spec sort_key l) as [(ys & Hys & _)|(e & z & _ & Hz & He)].
  - rewrite Hys. simpl. rewrite (sort_key_zip l ys Hys).
    rewrite stable_sort_decorated, map_map. simpl. by rewrite map_id.
  - rewrite Forall_forall in Hall. rewrite (Hall z Hz) in He. done.
Qed.

(** An ascending list is what sorting it gives. *)
Lemma stable_sort_id {A K : Type} (key : A → K) (lt : K → K → bool) (l : list A) :
  StronglySorted (key_le key lt) l → stable_sort key lt l = l.
Proof.
  induction 1 as [|x l Hl IH Hx]; [reflexivity|].
  simpl. rewrite IH. destruct l as [|y l]; [reflexivity|].
  simpl. apply Forall_cons in Hx as [Hxy _]. unfold key_le in Hxy.
  by rewrite Hxy.
Qed.

(** X6: when sort_mods returns, its result is a rearrangement of the
    input in ascending order of the pair (author lowercased, name
    lowercased), and the records of one key keep the order they had. *)
Theorem sort_mods_stable (l l' : list (ModInfo PyVal)) :
  sort_mods l = Ok l' →
  l' ≡ₚ l
  ∧ (∀ i j x y kx ky, i < j → l' !! i = Some x → l' !! j = Some y →
       sort_key x = Ok kx → sort_key y = Ok ky → pair_lt ky kx = false)
  ∧ (∀ k, filter (λ x, sort_key x = Ok k) l' = filter (λ x, sort_key x = Ok k) l).
Proof.
  intros Hsort. pose proof (sort_mods_keys l l' Hsort) as Hkeys.
  apply sort_mods_sorted in Hsort as ->.
  pose proof (stable_sort_perm key_of pair_lt l) as Hperm.
  split; [exact Hperm|]. split.
  - intros i j x y kx ky Hij Hi Hj Hx Hy.
    pose proof (stable_sort_sorted key_of pair_lt
                  pair_lt_irrefl pair_lt_trans pair_lt_total l) as Hsorted.
    pose proof (StronglySorted_lookup _ _ _ _ _ _ Hsorted Hij Hi Hj) as Hle.
    unfold key_le, key_of in Hle. by rewrite Hx, Hy in Hle.
  - intros k.
    assert (Hfilter : ∀ s : list (ModInfo PyVal),
              Forall (λ x, sort_key x = Ok (key_of x)) s →
              filter (λ x, sort_key x = Ok k) s = filter (λ x, key_of x = k) s).
    { induction 1 as [|x s Hx _ IH]; [reflexivity|].
      rewrite !filter_cons, IH.
      destruct (decide (key_of x = k)) as [<-|Hne].
      - by rewrite decide_True.
      - rewrite decide_False; [done|]. rewrite Hx. by intros [= ?]. }
    rewrite !Hfilter; [|exact Hkeys|by rewrite Hperm].
    apply (stable_sort_filter key_of pair_lt pair_lt_irrefl).
Qed.

Lemma sort_mods_stable_witness :
  [sample_info "ModA" "Azumatt"; sample_info "moda" "azumatt";
   sample_info "Jotunn" "ValheimModding"]
  ≡ₚ [sample_info "Jotunn" "ValheimModding"; sample_info "ModA" "Azumatt";
      sample_info "moda" "azumatt"]
  ∧ (∀ i j x y kx ky, i < j →
       [sample_info "ModA" "Azumatt"; sample_info "moda" "azumatt";
        sample_info "Jotunn" "ValheimModding"] !! i = Some x →
       [sample_info "ModA" "Azumatt"; sample_info "moda" "azumatt";
        sample_info "Jotunn" "ValheimModding"] !! j = Some y →
       sort_key x = Ok kx → sort_key y = Ok ky → pair_lt ky kx = false)
  ∧ (∀ k, filter (λ x, sort_key x = Ok k)
            [sample_info "ModA" "Azumatt"; sample_info "moda" "azumatt";
             sample_info "Jotunn" "ValheimModding"]
          = filter (λ x, sort_key x = Ok k)
              [sample_info "Jotunn" "ValheimModding"; sample_info "ModA" "Azumatt";
               sample_info "moda" "azumatt"]).
Proof.
  apply (sort_mods_stable
           [sample_info "Jotunn" "ValheimModding"; sample_info "ModA" "Azumatt";
            sample_info "moda" "azumatt"]).
  vm_compute. reflexivity.
Defined.

(** X7: sorting twice changes nothing more. *)
Theorem sort_mods_idempotent (l l' : list (ModInfo PyVal)) :
  sort_mods l = Ok l' → sort_mods l' = Ok l'.
Proof.
  intros Hsort. pose proof (sort_mods_keys l l' Hsort) as Hkeys.
  apply sort_mods_sorted in Hsort as ->.
  rewrite sort_mods_defined.
  - f_equal. apply stable_sort_id.
    apply (stable_sort_sorted key_of pair_lt
             pair_lt_irrefl pair_lt_trans pair_lt_total).
  - by rewrite stable_sort_perm.
Qed.

Lemma sort_mods_idempotent_witness :
  sort_mods [mkModInfo (PyStr "WardIsLove") (PyStr "Azumatt") "3.0.1"
               (PyStr "") "Yes" (PyStr "");
             mkModInfo (PyStr "Jotunn") (PyStr "ValheimModding") "2.20.1"
               (PyStr "") "Yes" (PyStr "")]
  = Ok [mkModInfo (PyStr "WardIsLove") (PyStr "Azumatt") "3.0.1"
          (PyStr "") "Yes" (PyStr "");
        mkModInfo (PyStr "Jotunn") (PyStr "ValheimModding") "2.20.1"
          (PyStr "") "Yes" (PyStr "")].
Proof.
  apply (sort_mods_idempotent
           [mkModInfo (PyStr "Jotunn") (PyStr "ValheimModding") "2.20.1"
              (PyStr "") "Yes" (PyStr "");
            mkModInfo (PyStr "WardIsLove") (PyStr "Azumatt") "3.0.1"
              (PyStr "") "Yes" (PyStr "")]).
  reflexivity.
Defined.

(** ** From the manifest to the sorted records *)

Lemma sort_key_raise_kind (x : ModInfo PyVal) (e : PyExc) :
  sort_key x = Raise e → e = AttributeError.
Proof.
  unfold sort_key, py_lower. destruct (author x); simpl; try (by intros [= <-]).
  destruct (name x); simpl; try done; by intros [= <-].
Qed.

Lemma parse_mod_info_sort_key (raw : RawMod) (r : ModInfo PyVal) :
  parse_mod_info raw = Ok r →
  if sortable_entry raw then sort_key r = Ok (key_of r)
  else sort_key r = Raise AttributeError.
Proof.
  intros (Hnorm & Hname & Hauthor & _)%parse_mod_info_fields.
  unfold sortable_entry, key_of, sort_key. rewrite Hnorm, Hname, Hauthor.
  destruct (dict_get raw "authorName" (PyStr "Unknown")),
    (dict_get raw "displayName" (dict_get raw "name" (PyStr "Unknown")));
    reflexivity.
Qed.

Lemma forallb_false_elem {A : Type} (f : A → bool) (l : list A) :
  forallb f l = false → ∃ x, x ∈ l ∧ f x = false.
Proof.
  induction l as [|x l IH]; [done|].
  simpl. destruct (f x) eqn:Hx; simpl.
  - intros (y & Hy & Hfy)%IH. exists y. split; [by right|done].
  - intros _. exists x. split; [by left|done].
Qed.

(** The comprehension over the manifest stops at the first entry the
    normalizer does not accept, with the exception of that entry. *)
Lemma normalize_all_outcome (mods_data : list RawMod) :
  match List.find (λ raw, negb (normalizable raw)) mods_data with
  | Some raw =>
      res_mapM parse_mod_info mods_data
      = Raise (if version_is_mapping raw then ValueError else AttributeError)
  | None =>
      ∃ parsed, res_mapM parse_mod_info mods_data = Ok parsed
                ∧ Forall2 (λ raw r, parse_mod_info raw = Ok r) mods_data parsed
  end.
Proof.
  induction mods_data as [|raw l IH]; simpl.
  - eexists. split; [reflexivity|constructor].
  - pose proof (parse_mod_info_outcome raw) as Hraw.
    destruct (normalizable raw); simpl.
    + destruct Hraw as [v Hraw]. rewrite Hraw. simpl.
      destruct (List.find _ l) as [bad|].
      * by rewrite IH.
      * destruct IH as (parsed & -> & Hparsed). simpl.
        eexists. split; [reflexivity|]. by constructor.
    + destruct (version_is_mapping raw); by rewrite Hraw.
Qed.

(** X8: the outcome of the first two steps of the export on a manifest
    whose values are nulls, booleans, ints, texts, lists and mappings.  When
    the normalizer does not accept some entry, the steps end in the
    exception of the first such entry: ValueError when its version
    sub-record is a mapping, one of whose major, minor and patch then holds
    an int of more than 4300 digits, and AttributeError when it is no
    mapping.  When the normalizer accepts every entry, the steps end in
    AttributeError if the value that becomes the name or the author of some
    entry is not a text, and otherwise they return the normalized records,
    rearranged. *)
Theorem normalize_and_sort_outcome (mods_data : list RawMod) :
  match List.find (λ raw, negb (normalizable raw)) mods_data with
  | Some raw =>
      normalize_and_sort mods_data
      = Raise (if version_is_mapping raw then ValueError else AttributeError)
  | None =>
      if forallb sortable_entry mods_data
      then ∃ parsed l', Forall2 (λ raw r, parse_mod_info raw = Ok r) mods_data parsed
                        ∧ normalize_and_sort mods_data = Ok l'
                        ∧ l' ≡ₚ parsed
      else normalize_and_sort mods_data = Raise AttributeError
  end.
Proof.
  unfold normalize_and_sort.
  pose proof (normalize_all_outcome mods_data) as Hall.
  destruct (List.find _ mods_data) as [bad|]; [by rewrite Hall|].
  destruct Hall as (parsed & -> & Hparsed). simpl.
  destruct (forallb sortable_entry mods_data) eqn:Hsort.
  - rewrite forallb_forall in Hsort.
    assert (Forall (λ x, sort_key x = Ok (key_of x)) parsed) as Hkeys.
    { apply Forall_forall. intros r [i Hi]%list_elem_of_lookup.
      destruct (Forall2_lookup_r _ _ _ _ _ Hparsed Hi) as (raw & Hraw & Hr).
      pose proof (parse_mod_info_sort_key raw r Hr) as Hk.
      rewrite Hsort in Hk; [exact Hk|].
      apply list_elem_of_In. eapply list_elem_of_lookup_2, Hraw. }
    exists parsed, (stable_sort key_of pair_lt parsed).
    split; [exact Hparsed|]. split; [by apply sort_mods_defined|].
    apply stable_sort_perm.
  - apply forallb_false_elem in Hsort as (raw & Hraw & Hbad).
    unfold sort_mods.
    rewrite (res_mapM_raise sort_key parsed AttributeError); [reflexivity| |].
    + intros x e' _. apply sort_key_raise_kind.
    + apply list_elem_of_lookup in Hraw as [i Hi].
      destruct (Forall2_lookup_l _ _ _ _ _ Hparsed Hi) as (r & Hr & Hparse).
      exists r. split; [eapply list_elem_of_lookup_2, Hr|].
      pose proof (parse_mod_info_sort_key raw r Hparse) as Hk.
      rewrite Hbad in Hk. eauto.
Qed.

(** The three ways the steps fail, and a manifest they accept. *)
Example normalize_and_sort_failures :
  normalize_and_sort [[("versionNumber", PyStr "2.20.1")];
                      [("versionNumber", PyDict [("major", PyInt (10 ^ 4300))])]]
  = Raise AttributeError
  ∧ normalize_and_sort [[("versionNumber", PyDict [("major", PyInt (10 ^ 4300))])];
                        [("versionNumber", PyStr "2.20.1")]]
    = Raise ValueError
  ∧ normalize_and_sort [[("name", PyStr "Jotunn")]; [("name", PyInt 7)]]
    = Raise AttributeError
  ∧ ∃ l', normalize_and_sort [[("name", PyStr "Jotunn")]; [("name", PyStr "Azu")]]
          = Ok l'.
Proof.
  split; [vm_compute; reflexivity|].
  split; [vm_compute; reflexivity|].
  split; [reflexivity|]. eexists. reflexivity.
Qed.

(** ** Colours *)

Lemma colors_NoDup : NoDup colors.
Proof. apply (bool_decide_unpack _). vm_compute. exact I. Qed.

Lemma colors_lookup_total (k : nat) :
  k < 10 → colors !! k = Some (colors !!! k).
Proof.
  intros Hk.
  destruct (lookup_lt_is_Some_2 colors k) as [c Hc]; [exact Hk|].
  rewrite Hc. f_equal. symmetry. by apply list_lookup_total_correct.
Qed.

Lemma generate_colors_lookup (n i : nat) :
  i < n → generate_colors n !! i = colors !! (i mod 10).
Proof.
  intros Hi. unfold generate_colors.
  change (map ?f ?l) with (f <$> l).
  rewrite list_lookup_fmap, lookup_seq_lt by exact Hi.
  cbn [fmap option_fmap option_map Nat.add].
  change (length colors) with 10.
  symmetry. apply colors_lookup_total. apply Nat.mod_upper_bound. done.
Qed.

(** X9: generate_colors gives one colour of the palette per author, the
    palette repeating every ten authors: two positions have the same
    colour exactly when they are congruent modulo 10. *)
Theorem generate_colors_cycle (n : nat) :
  length (generate_colors n) = n
  ∧ (∀ i, i < n → generate_colors n !! i = colors !! (i mod 10))
  ∧ (∀ i j, i < n → j < n →
       generate_colors n !! i = generate_colors n !! j ↔ i mod 10 = j mod 10).
Proof.
  split; [|split].
  - unfold generate_colors. by rewrite length_map, length_seq.
  - intros i Hi. by apply generate_colors_lookup.
  - intros i j Hi Hj. rewrite !generate_colors_lookup by done.
    split; [|by intros ->].
    assert (i mod 10 < 10) as Hi10 by (by apply Nat.mod_upper_bound).
    rewrite (colors_lookup_total (i mod 10)) by exact Hi10.
    intros Heq. symmetry in Heq.
    eapply NoDup_lookup; [apply colors_NoDup| |exact Heq].
    by apply colors_lookup_total.
Qed.

Lemma dict_fromkeys_Counter (l : list string) :
  dict_fromkeys l = (Counter l).*1.
Proof.
  induction l as [|a l IH] using rev_ind; [reflexivity|].
  rewrite Counter_snoc, counter_add_keys. unfold dict_fromkeys in *.
  rewrite foldl_snoc, IH.
  destruct (decide (a ∈ (Counter l).*1)) as [Hin|Hin].
  - by rewrite bool_decide_eq_true_2.
  - by rewrite bool_decide_eq_false_2.
Qed.

Lemma dict_lookup_zip {V : Type} (ks : list string) (vs : list V)
    (i : nat) (k : string) (v : V) :
  NoDup ks → ks !! i = Some k → vs !! i = Some v →
  dict_lookup (zip ks vs) k = Some v.
Proof.
  intros Hnd. revert vs i. induction Hnd as [|k' ks Hk' Hnd IH]; intros vs i Hk Hv.
  - done.
  - destruct vs as [|v' vs]; [by rewrite lookup_nil in Hv|].
    destruct i as [|i]; simpl in *.
    + injection Hk as ->. injection Hv as ->. by rewrite str_eqb_refl.
    + destruct (str_eqb k' k) eqn:E; [|by eapply IH].
      apply str_eqb_eq in E as ->. exfalso. apply Hk'.
      eapply list_elem_of_lookup_2, Hk.
Qed.

(** X10: the colours of the rich export.  The authors are listed once
    each, in the order they first come in the collection; the author at
    position i of that list gets colour i mod 10 of the palette; so every
    record's author has a colour. *)
Theorem author_colors_assigned (mods_list : list Mod) :
  let authors := dict_fromkeys (map author mods_list) in
  NoDup authors
  ∧ (∀ m, m ∈ mods_list → author m ∈ authors)
  ∧ (∀ i j a b, i < j → authors !! i = Some a → authors !! j = Some b →
       ∃ pa pb, first_seen_at (map author mods_list) a pa
                ∧ first_seen_at (map author mods_list) b pb ∧ pa < pb)
  ∧ (∀ i a, authors !! i = Some a →
       dict_lookup (author_colors mods_list) a = colors !! (i mod 10))
  ∧ (∀ m, m ∈ mods_list → is_Some (dict_lookup (author_colors mods_list) (author m))).
Proof.
  intros authors.
  assert (Hnd : NoDup authors).
  { unfold authors. rewrite dict_fromkeys_Counter. apply Counter_keys_NoDup. }
  assert (Hin : ∀ m, m ∈ mods_list → author m ∈ authors).
  { intros m Hm. unfold authors. rewrite dict_fromkeys_Counter.
    apply Counter_keys_elem. change (map author mods_list) with (author <$> mods_list).
    by apply list_elem_of_fmap_2. }
  assert (Hcol : ∀ i a, authors !! i = Some a →
            dict_lookup (author_colors mods_list) a = colors !! (i mod 10)).
  { intros i a Hi. pose proof (lookup_lt_Some _ _ _ Hi) as Hlt.
    assert (i mod 10 < 10) as Hi10 by (by apply Nat.mod_upper_bound).
    rewrite (colors_lookup_total _ Hi10).
    unfold author_colors. fold authors.
    eapply dict_lookup_zip; [exact Hnd|exact Hi|].
    rewrite generate_colors_lookup by exact Hlt.
    by apply colors_lookup_total. }
  split; [exact Hnd|]. split; [exact Hin|]. split; [|split; [exact Hcol|]].
  - intros i j a b Hij Hi Hj. apply Counter_keys_order.
    rewrite <- dict_fromkeys_Counter. fold authors.
    eapply sublist_pair_lookup; eassumption.
  - intros m Hm. destruct (proj1 (list_elem_of_lookup _ _) (Hin m Hm)) as [i Hi].
    rewrite (Hcol i _ Hi).
    apply lookup_lt_is_Some_2. by apply Nat.mod_upper_bound.
Qed.

(** ** The menus *)

Lemma py_list_item_in_range {A : Type} (l : list A) (i : Z) :
  (0 ≤ i < Z.of_nat (length l))%Z →
  ∃ x, py_list_item l i = Some x ∧ l !! Z.to_nat i = Some x.
Proof.
  intros [H0 Hlen]. unfold py_list_item.
  destruct (i <? 0)%Z eqn:E; [apply Z.ltb_lt in E; lia|].
  destruct (lookup_lt_is_Some_2 l (Z.to_nat i)) as [x Hx]; [lia|].
  by exists x.
Qed.

Lemma py_list_item_elem {A : Type} (l : list A) (i : Z) (x : A) :
  py_list_item l i = Some x → x ∈ l.
Proof.
  unfold py_list_item.
  destruct (i <? 0)%Z; [destruct (i + Z.of_nat (length l) <? 0)%Z; [done|]|];
    apply list_elem_of_lookup_2.
Qed.

(** X11: the profile menu answers with nothing (the way back) or with one
    of the profiles it was given; no index is out of range, and the only
    exception it lets through is the end of the input, which it meets only
    if no interrupt came before. *)
Theorem select_profile_safe (profiles : list string) (inputs : list InputEvent) :
  (∀ p, select_profile profiles inputs = Answered (Some p) → p ∈ profiles)
  ∧ (∀ e, select_profile profiles inputs = Uncaught e →
       e = "EOFError" ∧ Interrupted ∉ inputs).
Proof.
  induction inputs as [|ev inputs [IHp IHe]].
  - split; [discriminate|]. intros e [= <-]. split; [reflexivity|]. apply not_elem_of_nil.
  - destruct ev as [line|]; [|split; discriminate].
    assert (Hrest : ∀ e, select_profile profiles inputs = Uncaught e →
              e = "EOFError" ∧ Interrupted ∉ Typed line :: inputs).
    { intros e He. destruct (IHe e He) as [-> Hni]. split; [reflexivity|].
      rewrite not_elem_of_cons. done. }
    simpl. destruct (int_of_input (strip line)) as [idx|]; [|by split].
    destruct (idx =? 0)%Z; [split; discriminate|].
    destruct ((1 <=? idx)%Z && (idx <=? Z.of_nat (length profiles))%Z) eqn:E;
      [|by split].
    apply andb_true_iff in E as [H1%Z.leb_le Hn%Z.leb_le].
    destruct (py_list_item_in_range profiles (idx - 1)) as (x & Hx & _); [lia|].
    rewrite Hx. split; [|discriminate].
    intros p [= <-]. by eapply py_list_item_elem.
Qed.

Lemma select_profile_rejected (profiles : list string) (line : string)
    (rest : list InputEvent) :
  rejected_choice (length profiles) line = true →
  select_profile profiles (Typed line :: rest) = select_profile profiles rest.
Proof.
  unfold rejected_choice. simpl.
  destruct (int_of_input (strip line)) as [idx|]; [|done].
  intros [H%Z.ltb_lt|H%Z.ltb_lt]%orb_true_iff.
  - destruct (idx =? 0)%Z eqn:E0; [apply Z.eqb_eq in E0; lia|].
    destruct (1 <=? idx)%Z eqn:E1; [apply Z.leb_le in E1; lia|]. reflexivity.
  - destruct (idx =? 0)%Z eqn:E0; [apply Z.eqb_eq in E0; lia|].
    destruct (idx <=? Z.of_nat (length profiles))%Z eqn:E1; [apply Z.leb_le in E1; lia|].
    by rewrite andb_false_r.
Qed.

Lemma digit_not_py_space (c : ascii) : is_digit c = true → py_isspace c = false.
Proof. destruct c as [[] [] [] [] [] [] [] []]; done. Qed.

Lemma strip_digits (s : string) : str_forall is_digit s = true → strip s = s.
Proof.
  intros Hs. unfold strip.
  assert (lstrip_with py_isspace s = s) as ->.
  { destruct s as [|c r]; [reflexivity|]. apply lstrip_with_head.
    simpl in Hs. apply andb_true_iff in Hs as [Hc _]. by apply digit_not_py_space. }
  apply rstrip_with_none.
  induction s as [|c s IH]; [reflexivity|].
  simpl in *. apply andb_true_iff in Hs as [Hc Hs].
  rewrite (digit_not_py_space c Hc), (IH Hs). reflexivity.
Qed.

Lemma count_digits_all (s : string) :
  str_forall is_digit s = true → count_digits s = N.of_nat (String.length s).
Proof.
  induction s as [|c s IH]; [reflexivity|].
  simpl str_forall. intros [Hc Hs]%andb_true_iff.
  cbn [count_digits String.length]. rewrite Hc, (IH Hs). lia.
Qed.

(** Typing the number of a menu entry, as the menu prints it, is read as
    that number. *)
Lemma int_of_input_numeral (n : nat) :
  (N.of_nat (String.length (str_of_nat n)) ≤ int_max_str_digits)%N →
  int_of_input (strip (str_of_nat n)) = Some (Z.of_nat n).
Proof.
  intros Hlen.
  assert (str_forall is_digit (str_of_nat n) = true) as Hd.
  { pose proof (str_of_nonneg_digits (Z.of_nat n) (Nat2Z.is_nonneg n)) as H.
    unfold all_digits in H. by apply andb_true_iff in H as [_ H]. }
  rewrite strip_digits by exact Hd. unfold int_of_input, str_of_nat.
  apply py_int_decimal. unfold within_limit. apply N.leb_le.
  rewrite count_digits_all by exact Hd. exact Hlen.
Qed.

(** X12: after any number of rejected lines, a line that reads as the
    number i+1 of a profile on the menu selects that profile, whatever is
    typed afterwards. *)
Theorem select_profile_picks (profiles : list string) (bad : list string)
    (line : string) (i : nat) (p : string) (rest : list InputEvent) :
  Forall (λ l, rejected_choice (length profiles) l = true) bad →
  int_of_input (strip line) = Some (Z.of_nat (S i)) →
  profiles !! i = Some p →
  select_profile profiles ((Typed <$> bad) ++ Typed line :: rest)
  = Answered (Some p).
Proof.
  intros Hbad Hline Hp. induction Hbad as [|l bad Hl _ IH].
  - simpl. rewrite Hline.
    pose proof (lookup_lt_Some _ _ _ Hp) as Hlt.
    destruct (Z.of_nat (S i) =? 0)%Z eqn:E0; [apply Z.eqb_eq in E0; lia|].
    destruct (1 <=? Z.of_nat (S i))%Z eqn:E1; [|apply Z.leb_gt in E1; lia].
    destruct (Z.of_nat (S i) <=? Z.of_nat (length profiles))%Z eqn:E2;
      [|apply Z.leb_gt in E2; lia].
    simpl. destruct (py_list_item_in_range profiles (Z.of_nat (S i) - 1))
      as (x & -> & Hx); [lia|].
    replace (Z.to_nat (Z.of_nat (S i) - 1)) with i in Hx by lia.
    congruence.
  - rewrite fmap_cons. cbn [app]. rewrite select_profile_rejected by exact Hl.
    exact IH.
Qed.

Lemma select_profile_picks_witness :
  select_profile ["Default"; "MODS-TEST"]
    ((Typed <$> ["x"; "7"; "-1"; ""]) ++ Typed (str_of_nat 2) :: [Typed "1"])
  = Answered (Some "MODS-TEST").
Proof.
  apply (select_profile_picks ["Default"; "MODS-TEST"] ["x"; "7"; "-1"; ""]
           (str_of_nat 2) 1 "MODS-TEST" [Typed "1"]).
  - apply (bool_decide_unpack _). vm_compute. exact I.
  - apply int_of_input_numeral. apply (bool_decide_unpack _). vm_compute. exact I.
  - reflexivity.
Defined.

Lemma int_of_input_mode (choice : string) :
  choice ∈ ["1"; "2"; "3"] →
  ∃ z, int_of_input choice = Some z ∧ z ∈ [1; 2; 3]%Z.
Proof.
  rewrite !elem_of_cons, elem_of_nil.
  intros [->|[->|[->|[]]]]; eexists; (split; [vm_compute; reflexivity|]);
    rewrite !elem_of_cons; auto.
Qed.

(** X13: the main menu answers 1, 2 or 3 only; it never fails to convert
    the choice it accepted; it skips every line that is not 1, 2 or 3
    once stripped; an interrupt is the answer 3; and the only exception it
    lets through is the end of the input. *)
Theorem select_mode_outcome (inputs : list InputEvent) :
  (∀ z, select_mode inputs = Answered z → z ∈ [1; 2; 3]%Z)
  ∧ (∀ e, select_mode inputs = Uncaught e → e = "EOFError" ∧ Interrupted ∉ inputs)
  ∧ (∀ bad rest, inputs = (Typed <$> bad) ++ rest →
       Forall (λ l, rejected_mode l = true) bad →
       select_mode inputs = select_mode rest)
  ∧ (∀ bad rest, inputs = (Typed <$> bad) ++ Interrupted :: rest →
       Forall (λ l, rejected_mode l = true) bad →
       select_mode inputs = Answered 3%Z).
Proof.
  assert (Hskip : ∀ bad rest, Forall (λ l, rejected_mode l = true) bad →
            select_mode ((Typed <$> bad) ++ rest) = select_mode rest).
  { intros bad rest Hbad. induction Hbad as [|l bad Hl _ IH]; [reflexivity|].
    rewrite fmap_cons. cbn [app select_mode].
    unfold rejected_mode in Hl. apply negb_true_iff in Hl. rewrite Hl. exact IH. }
  split; [|split; [|split]].
  - induction inputs as [|ev inputs IH]; [discriminate|].
    destruct ev as [line|]; simpl.
    + case_bool_decide as Hc; [|exact IH].
      destruct (int_of_input_mode _ Hc) as (z' & -> & Hz'). by intros z [= <-].
    + intros z [= <-]. rewrite !elem_of_cons. auto.
  - induction inputs as [|ev inputs IH].
    + intros e [= <-]. split; [reflexivity|apply not_elem_of_nil].
    + destruct ev as [line|]; simpl; [|discriminate].
      case_bool_decide as Hc.
      * destruct (int_of_input_mode _ Hc) as (z' & -> & _). discriminate.
      * intros e He. destruct (IH e He) as [-> Hni]. split; [reflexivity|].
        rewrite not_elem_of_cons. done.
  - intros bad rest -> Hbad. by apply Hskip.
  - intros bad rest -> Hbad. by rewrite Hskip.
Qed.

Lemma choose_files_bounds {A : Type} (csv_files : list A) (i1 i2 : Z)
    (rest2 : list InputEvent) :
  match
    (if ((i1 - 1 <? 0) || (Z.of_nat (length csv_files) <=? i1 - 1)
         || (i2 - 1 <? 0) || (Z.of_nat (length csv_files) <=? i2 - 1))%Z
     then match rest2 with
          | [] => Uncaught "EOFError"
          | _ :: _ => Answered None
          end
     else match py_list_item csv_files (i1 - 1), py_list_item csv_files (i2 - 1) with
          | Some file1, Some file2 => Answered (Some (file1, file2))
          | _, _ => Uncaught "IndexError"
          end)
  with
  | Answered None => True
  | Answered (Some (f1, f2)) => f1 ∈ csv_files ∧ f2 ∈ csv_files
  | Uncaught e => e = "EOFError"
  end.
Proof.
  destruct ((i1 - 1 <? 0) || (Z.of_nat (length csv_files) <=? i1 - 1)
            || (i2 - 1 <? 0) || (Z.of_nat (length csv_files) <=? i2 - 1))%Z eqn:E.
  - by destruct rest2.
  - rewrite !orb_false_iff in E. destruct E as [[[E1 E2] E3] E4].
    apply Z.ltb_ge in E1, E3. apply Z.leb_gt in E2, E4.
    destruct (py_list_item_in_range csv_files (i1 - 1)) as (x1 & Hx1 & _); [lia|].
    destruct (py_list_item_in_range csv_files (i2 - 1)) as (x2 & Hx2 & _); [lia|].
    rewrite Hx1, Hx2. split; by eapply py_list_item_elem.
Qed.

(** X14: the dialogue that picks the two files to compare answers with
    nothing or with two of the files it was given, and only when there are
    at least two; no index is out of range; it lets through the end of the
    input and, when there are fewer than two files, an interrupt. *)
Theorem choose_files_in_range {A : Type} (csv_files : list A)
    (inputs : list InputEvent) :
  (∀ file1 file2, choose_files csv_files inputs = Answered (Some (file1, file2)) →
     2 ≤ length csv_files ∧ file1 ∈ csv_files ∧ file2 ∈ csv_files)
  ∧ (∀ e, choose_files csv_files inputs = Uncaught e →
       e = "EOFError" ∨ (e = "KeyboardInterrupt" ∧ length csv_files < 2)).
Proof.
  unfold choose_files.
  destruct (Z.of_nat (length csv_files) <? 2)%Z eqn:Elen.
  { apply Z.ltb_lt in Elen. split.
    - intros f1 f2. destruct inputs as [|[line|] ?]; discriminate.
    - intros e. destruct inputs as [|[line|] ?]; intros [= <-]; [by left|right].
      split; [reflexivity|lia]. }
  apply Z.ltb_ge in Elen.
  split.
  - intros f1 f2.
    destruct inputs as [|[line1|] rest1]; [discriminate| |discriminate].
    destruct (str_eqb (strip line1) "0"); [discriminate|].
    destruct (int_of_input (strip line1)) as [i1|]; [|discriminate].
    destruct rest1 as [|[line2|] rest2]; [discriminate| |discriminate].
    destruct (str_eqb (strip line2) "0"); [discriminate|].
    destruct (int_of_input (strip line2)) as [i2|]; [|discriminate].
    cbv zeta. pose proof (choose_files_bounds csv_files i1 i2 rest2) as H.
    intros Heq. rewrite Heq in H. split; [lia|exact H].
  - intros e.
    destruct inputs as [|[line1|] rest1]; [intros [= <-]; by left| |discriminate].
    destruct (str_eqb (strip line1) "0"); [discriminate|].
    destruct (int_of_input (strip line1)) as [i1|]; [|discriminate].
    destruct rest1 as [|[line2|] rest2]; [intros [= <-]; by left| |discriminate].
    destruct (str_eqb (strip line2) "0"); [discriminate|].
    destruct (int_of_input (strip line2)) as [i2|]; [|discriminate].
    cbv zeta. pose proof (choose_files_bounds csv_files i1 i2 rest2) as H.
    intros Heq. rewrite Heq in H. by left.
Qed.

Lemma positive_choice_not_zero (line : string) (i : nat) :
  int_of_input (strip line) = Some (Z.of_nat (S i)) →
  str_eqb (strip line) "0" = false.
Proof.
  intros Hint. apply str_eqb_neq. intros Heq. rewrite Heq in Hint.
  vm_compute in Hint. injection Hint as Hint. lia.
Qed.

(** X15: two lines that read as the numbers i+1 and j+1 of two listed
    files pick the files at positions i and j, the first as the newer and
    the second as the older; nothing asks that the two differ, so one
    file can be compared with itself. *)
Theorem choose_files_picks {A : Type} (csv_files : list A)
    (line1 line2 : string) (i j : nat) (file1 file2 : A)
    (rest : list InputEvent) :
  2 ≤ length csv_files →
  int_of_input (strip line1) = Some (Z.of_nat (S i)) →
  int_of_input (strip line2) = Some (Z.of_nat (S j)) →
  csv_files !! i = Some file1 →
  csv_files !! j = Some file2 →
  choose_files csv_files (Typed line1 :: Typed line2 :: rest)
  = Answered (Some (file1, file2)).
Proof.
  intros Hlen H1 H2 Hf1 Hf2. unfold choose_files.
  destruct (Z.of_nat (length csv_files) <? 2)%Z eqn:Elen;
    [apply Z.ltb_lt in Elen; lia|].
  rewrite (positive_choice_not_zero line1 i H1), H1.
  rewrite (positive_choice_not_zero line2 j H2), H2. cbv zeta.
  pose proof (lookup_lt_Some _ _ _ Hf1) as Hlt1.
  pose proof (lookup_lt_Some _ _ _ Hf2) as Hlt2.
  assert (∀ k, k < length csv_files →
            ((Z.of_nat (S k) - 1 <? 0)
             || (Z.of_nat (length csv_files) <=? Z.of_nat (S k) - 1))%Z = false) as Hin.
  { intros k Hk. apply orb_false_iff. split; [apply Z.ltb_ge|apply Z.leb_gt]; lia. }
  rewrite (Hin i Hlt1). cbn [orb]. rewrite (Hin j Hlt2).
  destruct (py_list_item_in_range csv_files (Z.of_nat (S i) - 1)) as (x1 & -> & Hx1); [lia|].
  destruct (py_list_item_in_range csv_files (Z.of_nat (S j) - 1)) as (x2 & -> & Hx2); [lia|].
  replace (Z.to_nat (Z.of_nat (S i) - 1)) with i in Hx1 by lia.
  replace (Z.to_nat (Z.of_nat (S j) - 1)) with j in Hx2 by lia.
  congruence.
Qed.

Lemma choose_files_picks_witness :
  choose_files ["Default_Jan-02-2024.csv"; "Default_Jan-01-2024.csv"]
    (Typed " 1" :: Typed "1 " :: [])
  = Answered (Some ("Default_Jan-02-2024.csv", "Default_Jan-02-2024.csv")).
Proof.
  apply (choose_files_picks ["Default_Jan-02-2024.csv"; "Default_Jan-01-2024.csv"]
           " 1" "1 " 0 0); (reflexivity || (simpl; lia)).
Defined.

(** ** The snapshot reader on any file *)

Lemma find_header_app_Some (l1 l2 : list string) :
  is_Some (find_header l2) → is_Some (find_header (l1 ++ l2)).
Proof.
  intros H2. induction l1 as [|line l1 IH]; [exact H2|].
  simpl. destruct (is_header_line line); [by eexists|].
  destruct IH as [i ->]. by eexists.
Qed.

Lemma writerow_headers : writerow headers = csv_line headers +:+ CRLF.
Proof. reflexivity. Qed.

Lemma readlines_export_header (mods_list : list Mod) (stats : Stats) :
  ∃ before after,
    readlines (export_to_csv mods_list stats)
    = before ++ (csv_line headers +:+ String LF "") :: after.
Proof.
  unfold readlines, export_to_csv, statistics_section.
  destruct (str_concat_writerow_ends_crlf (statistics_rows stats)) as [u ->]; [done|].
  rewrite (app_assoc_str u CRLF), universal_newlines_app_crlf.
  destruct (universal_newlines_ends_lf false u) as [v ->].
  rewrite writerow_headers, (app_assoc_str (csv_line headers)).
  rewrite universal_newlines_no_cr by reflexivity.
  rewrite universal_newlines_crlf.
  rewrite (app_assoc_str v), app_cons_str, app_nil_l_str, split_lines_app.
  rewrite (split_lines_app (csv_line headers)).
  rewrite (split_lines_single (csv_line headers)) by reflexivity.
  by eexists _, _.
Qed.

(** X16: a file written by export_to_csv always has the header line the
    snapshot reader looks for, whatever the records and the statistics
    hold: reading it back never gives the missing-header warning. *)
Theorem export_has_header (mods_list : list Mod) (stats : Stats)
    (file_name : string) :
  ∃ result,
    load_csv_for_comparison file_name (export_to_csv mods_list stats)
    = ([], result).
Proof.
  destruct (readlines_export_header mods_list stats) as (before & after & Hlines).
  unfold load_csv_for_comparison. rewrite Hlines.
  destruct (find_header_app_Some before ((csv_line headers +:+ String LF "") :: after))
    as [idx ->]; [by eexists|].
  by eexists.
Qed.

(** After a line feed the translation of the newlines starts afresh. *)
Lemma universal_newlines_app_lf (b : bool) (s t : string) :
  universal_newlines b (s +:+ String LF t)
  = universal_newlines b (s +:+ String LF "") +:+ universal_newlines false t.
Proof.
  revert b. induction s as [|c s IH]; intros b.
  - rewrite !app_nil_l_str. simpl. destruct b; reflexivity.
  - rewrite !app_cons_str. simpl.
    destruct (char_eqb c CR); [by rewrite IH|].
    destruct (char_eqb c LF); [destruct b; by rewrite IH|].
    by rewrite IH.
Qed.

Lemma universal_newlines_lf_end (b : bool) (s : string) :
  (b = true ∧ universal_newlines b (s +:+ String LF "") = "")
  ∨ ∃ u, universal_newlines b (s +:+ String LF "") = u +:+ String LF "".
Proof.
  revert b. induction s as [|c s IH]; intros b.
  - rewrite app_nil_l_str. simpl. destruct b; [by left|right]. by exists "".
  - right. rewrite app_cons_str. simpl.
    assert (Hplain : ∀ a, ∃ u,
              String a (universal_newlines false (s +:+ String LF "")) = u +:+ String LF "").
    { intros a. destruct (IH false) as [[? _]|[u ->]]; [done|]. by exists (String a u). }
    destruct (char_eqb c CR).
    { destruct (IH true) as [[_ ->]|[u ->]]; [by exists ""|by exists (String LF u)]. }
    destruct (char_eqb c LF); [|apply Hplain].
    destruct b; [|apply Hplain].
    destruct (IH false) as [[? _]|Hu]; [done|exact Hu].
Qed.

Lemma readlines_app_lf (pre body : string) :
  readlines (pre +:+ String LF body)
  = readlines (pre +:+ String LF "") ++ readlines body.
Proof.
  unfold readlines. rewrite universal_newlines_app_lf.
  destruct (universal_newlines_lf_end false pre) as [[? _]|[u ->]]; [done|].
  rewrite (app_assoc_str u), app_cons_str, app_nil_l_str.
  apply split_lines_app.
Qed.

(** X17: what stands before the header line does not count.  A preamble
    that ends with a line feed and has no line starting with the header
    prefix can be put before any content without changing what the
    snapshot reader prints and returns. *)
Theorem load_skips_preamble (file_name pre body : string) :
  Forall (λ line, is_header_line line = false) (readlines (pre +:+ String LF "")) →
  load_csv_for_comparison file_name (pre +:+ String LF body)
  = load_csv_for_comparison file_name body.
Proof.
  intros Hpre. unfold load_csv_for_comparison.
  rewrite readlines_app_lf, find_header_app by exact Hpre.
  destruct (find_header (readlines body)) as [idx|]; [|reflexivity].
  simpl. by rewrite drop_app_add'.
Qed.

Lemma load_skips_preamble_witness :
  load_csv_for_comparison "Default.csv"
    (("PROFILE STATISTICS" +:+ CRLF +:+ "Mod Name,Author,Version" +:+ String CR "")
     +:+ String LF ("Author,Mod Name,Version,Enabled" +:+ CRLF
                    +:+ "Azumatt,WardIsLove,3.0.1,Yes" +:+ CRLF))
  = load_csv_for_comparison "Default.csv"
      ("Author,Mod Name,Version,Enabled" +:+ CRLF
       +:+ "Azumatt,WardIsLove,3.0.1,Yes" +:+ CRLF).
Proof.
  apply (load_skips_preamble "Default.csv").
  apply (bool_decide_unpack _). vm_compute. exact I.
Defined.

(** ** Keys *)

Lemma str_split_once_found (sep : ascii) (s : string) :
  str_contains sep s = true →
  ∃ a n, str_split_once sep s = [a; n] ∧ s = a +:+ String sep n
         ∧ str_contains sep a = false.
Proof.
  induction s as [|c s IH]; [done|].
  simpl. destruct (char_eqb c sep) eqn:E.
  - intros _. apply char_eqb_eq in E as ->. by exists "", s.
  - simpl. intros Hs. destruct (IH Hs) as (a & n & -> & -> & Ha).
    exists (String c a), n. rewrite app_cons_str. simpl. by rewrite E, Ha.
Qed.

Lemma str_split_once_app (sep : ascii) (a n : string) :
  str_contains sep a = false →
  str_split_once sep (a +:+ String sep n) = [a; n].
Proof.
  induction a as [|c a IH].
  - intros _. rewrite app_nil_l_str. simpl. by rewrite char_eqb_refl.
  - simpl. intros [Hc Ha]%orb_false_iff.
    by rewrite Hc, (IH Ha).
Qed.

Lemma str_contains_app_sep (sep : ascii) (a n : string) :
  str_contains sep (a +:+ String sep n) = true.
Proof.
  rewrite str_contains_app. simpl. rewrite char_eqb_refl.
  by rewrite orb_true_r.
Qed.

Lemma split_key_defined (a n : string) :
  ∃ a' n', split_key (a +:+ ":" +:+ n) = Ok (a', n')
           ∧ a' +:+ ":" +:+ n' = a +:+ ":" +:+ n
           ∧ str_contains ":" a' = false.
Proof.
  destruct (str_split_once_found ":" (a +:+ ":" +:+ n)) as (a' & n' & Hs & Heq & Ha').
  { apply str_contains_app_sep. }
  exists a', n'. unfold split_key. by rewrite Hs, Heq.
Qed.

(** X18: splitting a key at its first colon gives back the author and the
    name it was built from exactly when the author holds no colon; with a
    colon in the author the two parts are cut elsewhere, though they
    still make up the key. *)
Theorem split_key_mod_key (a n : string) :
  (∃ a' n', split_key (a +:+ ":" +:+ n) = Ok (a', n')
            ∧ a' +:+ ":" +:+ n' = a +:+ ":" +:+ n
            ∧ str_contains ":" a' = false)
  ∧ (split_key (a +:+ ":" +:+ n) = Ok (a, n) ↔ str_contains ":" a = false).
Proof.
  destruct (split_key_defined a n) as (a' & n' & Hkey & Heq & Ha').
  split.
  - by exists a', n'.
  - rewrite Hkey. split.
    + by intros [= <- _].
    + intros Ha. unfold split_key in Hkey.
      change (a +:+ ":" +:+ n) with (a +:+ String ":" n) in Hkey.
      rewrite str_split_once_app in Hkey by exact Ha. by injection Hkey as <- <-.
Qed.

Lemma add_row_lookup (mods : gmap string Row) (row : Row) (k : string) (r : Row) :
  add_row mods row !! k = Some r →
  mods !! k = Some r
  ∨ (r = row ∧ ∃ a n, row_text row "Author" = Some a
                      ∧ row_text row "Mod Name" = Some n
                      ∧ k = a +:+ ":" +:+ n).
Proof.
  unfold add_row.
  destruct (row_text row "Author") as [a|]; [|by left].
  destruct (row_text row "Mod Name") as [n|]; [|by left].
  destruct (decide (k = a +:+ ":" +:+ n)) as [->|Hne].
  - rewrite lookup_insert_eq. intros [= <-]. right. split; [done|]. by exists a, n.
  - rewrite lookup_insert_ne by done. by left.
Qed.

Lemma foldl_add_row_keys (rows : list Row) (mods : gmap string Row)
    (k : string) (r : Row) :
  foldl add_row mods rows !! k = Some r →
  mods !! k = Some r
  ∨ (r ∈ rows ∧ ∃ a n, row_text r "Author" = Some a
                       ∧ row_text r "Mod Name" = Some n
                       ∧ k = a +:+ ":" +:+ n).
Proof.
  revert mods. induction rows as [|row rows IH]; intros mods; [by left|].
  simpl. intros [H|[Hin Hr]]%IH.
  - apply add_row_lookup in H as [H|[-> Hr]]; [by left|right].
    split; [by left|exact Hr].
  - right. split; [by right|exact Hr].
Qed.

Lemma row_text_nonempty (row : Row) (col s : string) :
  row_text row col = Some s → s ≠ "" ∧ row_cells row !! col = Some (Some s).
Proof.
  unfold row_text. destruct (row_cells row !! col) as [[t|]|]; [|done..].
  destruct t; [done|]. by intros [= <-].
Qed.

(** X19: whatever the file holds, every entry of the mapping the snapshot
    reader returns stands under the key author:name made of the non-empty
    Author and Mod Name cells of its own row; so every key holds a colon
    and the report can split it without an error. *)
Theorem loaded_keys (file_name content : string) (snapshot : gmap string Row)
    (k : string) (row : Row) :
  (load_csv_for_comparison file_name content).2 = Ok snapshot →
  snapshot !! k = Some row →
  ∃ a n, row_cells row !! "Author" = Some (Some a)
         ∧ row_cells row !! "Mod Name" = Some (Some n)
         ∧ a ≠ "" ∧ n ≠ ""
         ∧ k = a +:+ ":" +:+ n
         ∧ ∃ a' n', split_key k = Ok (a', n').
Proof.
  unfold load_csv_for_comparison.
  destruct (find_header (readlines content)) as [idx|]; simpl.
  - destruct (DictReader _) as [rows|e]; [|done]. simpl. intros [= <-] Hk.
    apply foldl_add_row_keys in Hk as [Hk|[_ (a & n & Ha & Hn & ->)]].
    { by rewrite lookup_empty in Hk. }
    apply row_text_nonempty in Ha as [Ha HA], Hn as [Hn HN].
    exists a, n. repeat (split; [done|]).
    destruct (split_key_defined a n) as (a' & n' & Hs & _). by exists a', n'.
  - intros [= <-] Hk. by rewrite lookup_empty in Hk.
Qed.

Lemma loaded_keys_witness :
  ∃ a n, row_cells (dict_row ["Author"; "Mod Name"; "Version"]
                             ["Team: Valheim"; "Jotunn"; "2.20.1"])
           !! "Author" = Some (Some a)
         ∧ row_cells (dict_row ["Author"; "Mod Name"; "Version"]
                               ["Team: Valheim"; "Jotunn"; "2.20.1"])
             !! "Mod Name" = Some (Some n)
         ∧ a ≠ "" ∧ n ≠ ""
         ∧ "Team: Valheim:Jotunn" = a +:+ ":" +:+ n
         ∧ ∃ a' n', split_key "Team: Valheim:Jotunn" = Ok (a', n').
Proof.
  apply (loaded_keys "old.csv"
           ("notes" +:+ String LF ("Author,Mod Name,Version" +:+ String LF
              ("Team: Valheim,Jotunn,2.20.1" +:+ String LF
                 (",Orphan,1.0.0" +:+ String LF ""))))
           {["Team: Valheim:Jotunn" :=
               dict_row ["Author"; "Mod Name"; "Version"]
                        ["Team: Valheim"; "Jotunn"; "2.20.1"]]}).
  - vm_compute. reflexivity.
  - vm_compute. reflexivity.
Defined.

(** ** Round trip of any collection *)

Lemma safe_cells_spec (m : Mod) :
  safe_cells m = true →
  Forall (λ s, str_contains CR s = false) (mod_row m) ∧ Forall fits (mod_row m).
Proof.
  unfold safe_cells. rewrite forallb_forall. intros Hcells.
  split; apply Forall_forall; intros s Hs%list_elem_of_In;
    by destruct (csv_safe_spec s (Hcells s Hs)).
Qed.

Lemma export_table_text (mods_list : list Mod) (stats : Stats) :
  Forall (λ m, safe_cells m = true) mods_list →
  Forall (λ line, is_header_line line = false) (readlines (statistics_section stats)) →
  ∃ idx, find_header (readlines (export_to_csv mods_list stats)) = Some idx
         ∧ str_concat (drop idx (readlines (export_to_csv mods_list stats)))
           = table_text (headers :: (mod_row <$> mods_list)).
Proof.
  intros Hsafe Hstats.
  assert (readlines (export_to_csv mods_list stats)
          = readlines (statistics_section stats)
            ++ split_lines (table_text (headers :: (mod_row <$> mods_list)))) as ->.
  { unfold readlines, export_to_csv, statistics_section.
    destruct (str_concat_writerow_ends_crlf (statistics_rows stats)) as [u ->]; [done|].
    rewrite (app_assoc_str u CRLF), universal_newlines_app_crlf.
    destruct (universal_newlines_ends_lf false u) as [v ->].
    rewrite (app_assoc_str v), app_cons_str, app_nil_l_str, split_lines_app.
    f_equal. f_equal.
    rewrite <- (map_map mod_row writerow).
    change (writerow headers +:+ str_concat (map writerow (map mod_row mods_list)))
      with (str_concat (map writerow (headers :: (mod_row <$> mods_list)))).
    apply universal_newlines_table; [apply mod_rows_wide|].
    constructor; [by apply (bool_decide_unpack _)|].
    apply Forall_fmap. eapply Forall_impl; [exact Hsafe|].
    intros m Hm. by apply safe_cells_spec. }
  exists (length (readlines (statistics_section stats)) + 0). split.
  - rewrite find_header_app by exact Hstats.
    destruct (header_line_first (mod_row <$> mods_list)) as [lines ->].
    reflexivity.
  - rewrite Nat.add_0_r, drop_app_length. apply split_lines_concat.
Qed.

Lemma DictReader_safe_table (mods_list : list Mod) :
  Forall (λ m, safe_cells m = true) mods_list →
  DictReader (split_lines (table_text (headers :: (mod_row <$> mods_list))))
  = Ok (snapshot_row <$> mods_list).
Proof.
  intros Hsafe. unfold DictReader.
  rewrite csv_reader_read_text, read_text_table.
  - simpl. rewrite filter_mod_rows. f_equal.
    rewrite <- list_fmap_compose. reflexivity.
  - apply mod_rows_wide.
  - constructor; [by apply (bool_decide_unpack _)|].
    apply Forall_fmap. eapply Forall_impl; [exact Hsafe|].
    intros m Hm. by apply safe_cells_spec.
Qed.

Lemma add_row_snapshot_row (mods : gmap string Row) (m : Mod) :
  add_row mods (snapshot_row m)
  = if keyed m then <[mod_key m := snapshot_row m]> mods else mods.
Proof.
  destruct (snapshot_row_cells m) as (HA & HN & _).
  unfold add_row, row_text, keyed, mod_key. rewrite HA, HN.
  destruct (author m); [reflexivity|]. destruct (name m); reflexivity.
Qed.

Lemma foldl_add_row_last (mods_list : list Mod) (k : string) :
  foldl add_row ∅ (snapshot_row <$> mods_list) !! k
  = snapshot_row <$> record_of mods_list k.
Proof.
  unfold record_of.
  induction mods_list as [|m l IH] using rev_ind; [apply lookup_empty|].
  rewrite fmap_app. simpl. rewrite foldl_snoc, add_row_snapshot_row, filter_app.
  rewrite filter_cons, filter_nil.
  destruct (keyed m) eqn:Ek.
  - destruct (decide (mod_key m = k)) as [<-|Hne].
    + rewrite decide_True by done. rewrite lookup_insert_eq, last_snoc. reflexivity.
    + rewrite decide_False by (by intros [_ ?]).
      rewrite lookup_insert_ne by done. rewrite app_nil_r. exact IH.
  - rewrite decide_False by (by intros [? _]). rewrite app_nil_r. exact IH.
Qed.

Lemma record_of_Some (mods_list : list Mod) (k : string) (m : Mod) :
  record_of mods_list k = Some m → m ∈ mods_list ∧ keyed m = true ∧ mod_key m = k.
Proof.
  unfold record_of. intros Hlast.
  apply last_Some_elem_of, list_elem_of_filter in Hlast as [[Hkeyed Hk] Hm]. done.
Qed.

(** What the snapshot reader returns on an export. *)
Lemma load_export (mods_list : list Mod) (stats : Stats) (file_name : string) :
  Forall (λ m, safe_cells m = true) mods_list →
  Forall (λ line, is_header_line line = false) (readlines (statistics_section stats)) →
  load_csv_for_comparison file_name (export_to_csv mods_list stats)
  = ([], Ok (foldl add_row ∅ (snapshot_row <$> mods_list))).
Proof.
  intros Hsafe Hstats.
  destruct (export_table_text mods_list stats Hsafe Hstats) as (idx & Hidx & Hdata).
  unfold load_csv_for_comparison. rewrite Hidx, Hdata.
  rewrite DictReader_safe_table by exact Hsafe. reflexivity.
Qed.

(** X20: the round trip for any collection, repeated keys and blank names
    included.  When no cell holds a carriage return or exceeds the
    reader's limit, and no line of the statistics section starts with the
    header prefix, the mapping read back holds, under each key, the row of
    the last record written with that key, and nothing for a record
    without an author or without a name. *)
Theorem export_load_last_wins (mods_list : list Mod) (stats : Stats)
    (file_name : string) :
  Forall (λ m, safe_cells m = true) mods_list →
  Forall (λ line, is_header_line line = false) (readlines (statistics_section stats)) →
  ∃ snapshot,
    load_csv_for_comparison file_name (export_to_csv mods_list stats)
    = ([], Ok snapshot)
    ∧ (∀ k, snapshot !! k = snapshot_row <$> record_of mods_list k)
    ∧ (∀ k row, snapshot !! k = Some row →
         ∃ m, m ∈ mods_list ∧ keyed m = true ∧ mod_key m = k
              ∧ row_cells row !! "Version" = Some (Some (version m))
              ∧ row_cells row !! "Enabled" = Some (Some (enabled m))).
Proof.
  intros Hsafe Hstats.
  exists (foldl add_row ∅ (snapshot_row <$> mods_list)).
  split; [|split].
  - by apply load_export.
  - apply foldl_add_row_last.
  - intros k row. rewrite foldl_add_row_last.
    destruct (record_of mods_list k) as [m|] eqn:Hrec; [|done]. intros [= <-].
    apply record_of_Some in Hrec as (Hm & Hkeyed & Hk).
    exists m. destruct (snapshot_row_cells m) as (_ & _ & Hv & He). done.
Qed.

Lemma export_load_last_wins_witness :
  ∃ snapshot,
    load_csv_for_comparison "Default.csv"
      (export_to_csv
         [sample_mod "Jotunn" "2.20.0"; sample_mod "" "1.0.0"; sample_mod "Jotunn" "2.20.1"]
         (calculate_statistics
            [sample_mod "Jotunn" "2.20.0"; sample_mod "" "1.0.0"; sample_mod "Jotunn" "2.20.1"]
            "Default" "2024-01-01 00:00:00"))
    = ([], Ok snapshot)
    ∧ (∀ k, snapshot !! k
            = snapshot_row
              <$> record_of [sample_mod "Jotunn" "2.20.0"; sample_mod "" "1.0.0";
                             sample_mod "Jotunn" "2.20.1"] k)
    ∧ (∀ k row, snapshot !! k = Some row →
         ∃ m, m ∈ [sample_mod "Jotunn" "2.20.0"; sample_mod "" "1.0.0";
                   sample_mod "Jotunn" "2.20.1"]
              ∧ keyed m = true ∧ mod_key m = k
              ∧ row_cells row !! "Version" = Some (Some (version m))
              ∧ row_cells row !! "Enabled" = Some (Some (enabled m))).
Proof.
  apply (export_load_last_wins
           [sample_mod "Jotunn" "2.20.0"; sample_mod "" "1.0.0"; sample_mod "Jotunn" "2.20.1"]).
  - apply (bool_decide_unpack _). vm_compute. exact I.
  - apply (bool_decide_unpack _). vm_compute. exact I.
Defined.

(** ** The comparison engine: errors, symmetry, special cases *)

Lemma compare_key_outcome (mods1 mods2 : gmap string Row)
    (acc : list Change * list Change) (key : string) :
  (∃ row1 row2 v1 v2 e1 e2,
     mods1 !! key = Some row1 ∧ mods2 !! key = Some row2
     ∧ row_cells row1 !! "Version" = Some v1 ∧ row_cells row2 !! "Version" = Some v2
     ∧ row_cells row1 !! "Enabled" = Some e1 ∧ row_cells row2 !! "Enabled" = Some e2
     ∧ compare_key mods1 mods2 acc key
       = Ok (if cell_eqb v1 v2 then acc.1 else acc.1 ++ [(key, v2, v1)],
             if cell_eqb e1 e2 then acc.2 else acc.2 ++ [(key, e2, e1)]))
  ∨ compare_key mods1 mods2 acc key = Raise KeyError.
Proof.
  unfold compare_key, mods_item, row_item.
  destruct (mods1 !! key) as [row1|]; [|by right].
  destruct (mods2 !! key) as [row2|]; [|by right]. simpl.
  destruct (row_cells row1 !! "Version") as [v1|] eqn:Hv1; [|by right].
  destruct (row_cells row2 !! "Version") as [v2|] eqn:Hv2; [|by right]. simpl.
  destruct (row_cells row1 !! "Enabled") as [e1|] eqn:He1; [|by right].
  destruct (row_cells row2 !! "Enabled") as [e2|] eqn:He2; [|by right]. simpl.
  left. by exists row1, row2, v1, v2, e1, e2.
Qed.

Lemma compare_keys_raise (mods1 mods2 : gmap string Row) (keys : list string)
    (acc : list Change * list Change) (e : PyExc) :
  compare_keys mods1 mods2 acc keys = Raise e → e = KeyError.
Proof.
  revert acc. induction keys as [|key keys IH]; intros acc; [done|]. simpl.
  destruct (compare_key_outcome mods1 mods2 acc key)
    as [(?&?&?&?&?&?&_&_&_&_&_&_& ->)| ->]; simpl.
  - apply IH.
  - by intros [= <-].
Qed.

Lemma compare_keys_inv (mods1 mods2 : gmap string Row) (keys : list string)
    (acc acc' : list Change * list Change) :
  compare_keys mods1 mods2 acc keys = Ok acc' →
  ∀ k, k ∈ keys → ∃ row1 row2, mods1 !! k = Some row1 ∧ mods2 !! k = Some row2
                               ∧ has_columns row1 ∧ has_columns row2.
Proof.
  revert acc. induction keys as [|key keys IH]; intros acc Hok k Hk.
  { by apply elem_of_nil in Hk. }
  simpl in Hok.
  destruct (compare_key_outcome mods1 mods2 acc key)
    as [(row1&row2&v1&v2&e1&e2&H1&H2&Hv1&Hv2&He1&He2&Heq)|Heq];
    rewrite Heq in Hok; [|done].
  simpl in Hok. apply elem_of_cons in Hk as [->|Hk]; [|by eapply IH].
  exists row1, row2. unfold has_columns. rewrite Hv1, Hv2, He1, He2. eauto 10.
Qed.

(** The changes recorded are in the order of the keys, one at most for
    each key. *)
Lemma compare_keys_sublist (mods1 mods2 : gmap string Row) (keys : list string)
    (acc acc' : list Change * list Change) :
  compare_keys mods1 mods2 acc keys = Ok acc' →
  ∃ upd ena, acc'.1 = acc.1 ++ upd ∧ acc'.2 = acc.2 ++ ena
             ∧ ((λ t : Change, t.1.1) <$> upd) `sublist_of` keys
             ∧ ((λ t : Change, t.1.1) <$> ena) `sublist_of` keys.
Proof.
  revert acc. induction keys as [|key keys IH]; intros acc Hok.
  { injection Hok as <-. exists [], []. by rewrite !app_nil_r. }
  simpl in Hok.
  destruct (compare_key_outcome mods1 mods2 acc key)
    as [(row1&row2&v1&v2&e1&e2&_&_&_&_&_&_&Heq)|Heq];
    rewrite Heq in Hok; [|done].
  simpl in Hok. destruct (IH _ Hok) as (upd & ena & Hu & He & Hsu & Hse).
  simpl in Hu, He.
  exists ((if cell_eqb v1 v2 then [] else [(key, v2, v1)]) ++ upd),
         ((if cell_eqb e1 e2 then [] else [(key, e2, e1)]) ++ ena).
  split; [|split; [|split]].
  - rewrite Hu. destruct (cell_eqb v1 v2); [done|]. by rewrite <- app_assoc.
  - rewrite He. destruct (cell_eqb e1 e2); [done|]. by rewrite <- app_assoc.
  - destruct (cell_eqb v1 v2); simpl; [by apply sublist_cons|by apply sublist_skip].
  - destruct (cell_eqb e1 e2); simpl; [by apply sublist_cons|by apply sublist_skip].
Qed.

Lemma compare_exports_ok_inv (newer older : gmap string Row) (r : Comparison) :
  compare_exports newer older = Ok r →
  ∀ k row1 row2, newer !! k = Some row1 → older !! k = Some row2 →
                 has_columns row1 ∧ has_columns row2.
Proof.
  unfold compare_exports.
  destruct (compare_keys newer older ([], []) (elements (dom newer ∩ dom older)))
    as [acc|e] eqn:Hkeys; [|done].
  intros _ k row1 row2 H1 H2.
  destruct (compare_keys_inv _ _ _ _ _ Hkeys k) as (r1 & r2 & Hr1 & Hr2 & Hc).
  { apply elem_of_elements, elem_of_intersection. split; apply elem_of_dom; eauto. }
  by simplify_eq.
Qed.

(** X21: the computation of the changes returns exactly when every key
    the two snapshots share has rows with a Version and an Enabled cell on
    both sides; otherwise it raises KeyError, and it raises nothing
    else. *)
Theorem compare_exports_defined (newer older : gmap string Row) :
  ((∃ r, compare_exports newer older = Ok r)
   ↔ ∀ k row1 row2, newer !! k = Some row1 → older !! k = Some row2 →
                    has_columns row1 ∧ has_columns row2)
  ∧ (∀ e, compare_exports newer older = Raise e → e = KeyError).
Proof.
  split; [split|].
  - intros [r Hr]. by eapply compare_exports_ok_inv.
  - intros Hrows. unfold compare_exports.
    destruct (compare_keys_spec newer older (elements (dom newer ∩ dom older)) ([], []))
      as (acc & -> & _).
    { intros k [H1 H2]%elem_of_elements%elem_of_intersection.
      apply elem_of_dom in H1 as [row1 H1], H2 as [row2 H2].
      exists row1, row2. destruct (Hrows k row1 row2 H1 H2). auto. }
    by eexists.
  - intros e. unfold compare_exports.
    destruct (compare_keys newer older ([], []) (elements (dom newer ∩ dom older)))
      as [acc|e'] eqn:Hkeys; [done|].
    intros [= <-]. by eapply compare_keys_raise.
Qed.

(** X22: the status changes.  When the comparison returns, a triple
    (key, older status, newer status) is recorded exactly for the shared
    keys whose two Enabled cells differ, and each list of changes holds
    one entry at most for a key. *)
Theorem compare_exports_enabled (newer older : gmap string Row) (r : Comparison) :
  compare_exports newer older = Ok r →
  (∀ k eo en, (k, eo, en) ∈ enabled_changes r ↔
     k ∈ common r
     ∧ ∃ row1 row2, newer !! k = Some row1 ∧ older !! k = Some row2
         ∧ row_cells row1 !! "Enabled" = Some en
         ∧ row_cells row2 !! "Enabled" = Some eo
         ∧ eo ≠ en)
  ∧ NoDup ((λ t : Change, t.1.1) <$> updated r)
  ∧ NoDup ((λ t : Change, t.1.1) <$> enabled_changes r)
  ∧ length (updated r) ≤ size (common r)
  ∧ length (enabled_changes r) ≤ size (common r).
Proof.
  intros Hok. pose proof (compare_exports_ok_inv _ _ _ Hok) as Hrows.
  unfold compare_exports in Hok.
  destruct (compare_keys newer older ([], []) (elements (dom newer ∩ dom older)))
    as [acc|e] eqn:Hkeys; [|done].
  injection Hok as <-. simpl.
  destruct (compare_keys_sublist _ _ _ _ _ Hkeys) as (upd & ena & Hu & He & Hsu & Hse).
  simpl in Hu, He. subst upd ena.
  destruct (compare_keys_spec newer older (elements (dom newer ∩ dom older)) ([], []))
    as (acc' & Hacc' & _ & Hena).
  { intros k [H1 H2]%elem_of_elements%elem_of_intersection.
    apply elem_of_dom in H1 as [row1 H1], H2 as [row2 H2].
    exists row1, row2. destruct (Hrows k row1 row2 H1 H2). auto. }
  rewrite Hkeys in Hacc'. injection Hacc' as <-.
  pose proof (NoDup_elements (dom newer ∩ dom older)) as Hnd.
  split; [|split; [|split; [|split]]].
  - intros k eo en. rewrite Hena. simpl. rewrite elem_of_elements.
    unfold column_change. simpl. rewrite elem_of_nil. tauto.
  - by eapply sublist_NoDup.
  - by eapply sublist_NoDup.
  - apply sublist_length in Hsu. by rewrite length_fmap in Hsu.
  - apply sublist_length in Hse. by rewrite length_fmap in Hse.
Qed.

Lemma compare_exports_enabled_witness :
  (∀ k eo en, (k, eo, en) ∈ enabled_changes sample_comparison ↔
     k ∈ common sample_comparison
     ∧ ∃ row1 row2, sample_newer !! k = Some row1 ∧ sample_older !! k = Some row2
         ∧ row_cells row1 !! "Enabled" = Some en
         ∧ row_cells row2 !! "Enabled" = Some eo
         ∧ eo ≠ en)
  ∧ NoDup ((λ t : Change, t.1.1) <$> updated sample_comparison)
  ∧ NoDup ((λ t : Change, t.1.1) <$> enabled_changes sample_comparison)
  ∧ length (updated sample_comparison) ≤ size (common sample_comparison)
  ∧ length (enabled_changes sample_comparison) ≤ size (common sample_comparison).
Proof.
  apply (compare_exports_enabled sample_newer sample_older sample_comparison).
  vm_compute. reflexivity.
Defined.

Lemma list_no_elem {A : Type} (l : list A) : (∀ x, x ∉ l) → l = [].
Proof.
  destruct l as [|x l]; [done|]. intros H. destruct (H x). by left.
Qed.

(** X23: a snapshot compared with itself shows no change: nothing added,
    nothing removed, every key common, no version update and no status
    change. *)
Theorem compare_exports_self (mods : gmap string Row) :
  (∀ k row, mods !! k = Some row → has_columns row) →
  compare_exports mods mods = Ok (mkComparison ∅ ∅ (dom mods) [] []).
Proof.
  intros Hrows. unfold compare_exports.
  destruct (compare_keys_spec mods mods (elements (dom mods ∩ dom mods)) ([], []))
    as (acc & -> & Hupd & Hena).
  { intros k [H1 _]%elem_of_elements%elem_of_intersection.
    apply elem_of_dom in H1 as [row H1]. exists row, row.
    pose proof (Hrows k row H1). auto. }
  assert (Hsame : ∀ col t, ¬ column_change mods mods col t).
  { intros col t (row1 & row2 & H1 & H2 & Hc1 & Hc2 & Hne). simplify_eq. }
  simpl. f_equal. f_equal.
  - apply difference_diag_L.
  - apply difference_diag_L.
  - apply (idemp_L (∩)).
  - apply list_no_elem. intros t. rewrite Hupd. simpl. rewrite elem_of_nil.
    intros [[]|[_ H]]. by eapply Hsame.
  - apply list_no_elem. intros t. rewrite Hena. simpl. rewrite elem_of_nil.
    intros [[]|[_ H]]. by eapply Hsame.
Qed.

Lemma compare_exports_self_witness :
  compare_exports sample_older sample_older
  = Ok (mkComparison ∅ ∅ (dom sample_older) [] []).
Proof.
  apply (compare_exports_self sample_older).
  intros k row. unfold sample_older.
  intros [[_ <-]|[_ [_ <-]%lookup_singleton_Some]]%lookup_insert_Some;
    apply sample_row_columns.
Defined.

(** X24: swapping the two snapshots swaps added with removed and, in
    every recorded change, the older value with the newer one; the common
    keys stay, and the comparison returns for one order exactly when it
    returns for the other. *)
Theorem compare_exports_swap (newer older : gmap string Row) (r : Comparison) :
  compare_exports newer older = Ok r →
  ∃ r', compare_exports older newer = Ok r'
    ∧ added r' = removed r
    ∧ removed r' = added r
    ∧ common r' = common r
    ∧ (∀ k x y, (k, x, y) ∈ updated r' ↔ (k, y, x) ∈ updated r)
    ∧ (∀ k x y, (k, x, y) ∈ enabled_changes r' ↔ (k, y, x) ∈ enabled_changes r).
Proof.
  intros Hok. pose proof (compare_exports_ok_inv _ _ _ Hok) as Hrows.
  unfold compare_exports in *.
  destruct (compare_keys_spec newer older (elements (dom newer ∩ dom older)) ([], []))
    as (acc & Hacc & Hupd & Hena).
  { intros k [H1 H2]%elem_of_elements%elem_of_intersection.
    apply elem_of_dom in H1 as [row1 H1], H2 as [row2 H2].
    exists row1, row2. destruct (Hrows k row1 row2 H1 H2). auto. }
  rewrite Hacc in Hok. injection Hok as <-.
  destruct (compare_keys_spec older newer (elements (dom older ∩ dom newer)) ([], []))
    as (acc' & -> & Hupd' & Hena').
  { intros k [H2 H1]%elem_of_elements%elem_of_intersection.
    apply elem_of_dom in H1 as [row1 H1], H2 as [row2 H2].
    exists row2, row1. destruct (Hrows k row1 row2 H1 H2). auto. }
  eexists. split; [reflexivity|]. simpl.
  assert (Hswap : ∀ col k x y,
            column_change older newer col (k, x, y)
            ↔ column_change newer older col (k, y, x)).
  { intros col k x y. unfold column_change. simpl.
    split; intros (row1 & row2 & H1 & H2 & Hc1 & Hc2 & Hne);
      exists row2, row1; eauto 10. }
  split; [done|]. split; [done|]. split; [apply (comm_L (∩))|].
  split; intros k x y.
  - rewrite Hupd', Hupd. simpl. rewrite !elem_of_nil, !elem_of_elements, Hswap.
    rewrite (comm_L (∩) (dom older)). tauto.
  - rewrite Hena', Hena. simpl. rewrite !elem_of_nil, !elem_of_elements, Hswap.
    rewrite (comm_L (∩) (dom older)). tauto.
Qed.

Lemma compare_exports_swap_witness :
  ∃ r', compare_exports sample_older sample_newer = Ok r'
    ∧ added r' = removed sample_comparison
    ∧ removed r' = added sample_comparison
    ∧ common r' = common sample_comparison
    ∧ (∀ k x y, (k, x, y) ∈ updated r' ↔ (k, y, x) ∈ updated sample_comparison)
    ∧ (∀ k x y, (k, x, y) ∈ enabled_changes r'
                ↔ (k, y, x) ∈ enabled_changes sample_comparison).
Proof.
  apply (compare_exports_swap sample_newer sample_older sample_comparison).
  vm_compute. reflexivity.
Defined.

Lemma compare_exports_empty_r (newer : gmap string Row) :
  compare_exports newer ∅ = Ok (mkComparison (dom newer) ∅ ∅ [] []).
Proof.
  unfold compare_exports. rewrite dom_empty_L.
  rewrite (right_absorb_L ∅ (∩)), elements_empty. simpl.
  by rewrite difference_empty_L, empty_difference_L.
Qed.

Lemma compare_exports_empty_l (older : gmap string Row) :
  compare_exports ∅ older = Ok (mkComparison ∅ (dom older) ∅ [] []).
Proof.
  unfold compare_exports. rewrite dom_empty_L.
  rewrite (left_absorb_L ∅ (∩)), elements_empty. simpl.
  by rewrite difference_empty_L, empty_difference_L.
Qed.

(** X25: a file without a header line against a file that loads.  The
    computation of the changes does not fail: the warning is printed for
    the file without a header, and every entry of the other file counts
    as added when that file is the newer one, as removed when it is the
    older one. *)
Theorem compare_files_headerless (name1 content1 name2 content2 : string)
    (out1 : list string) (mods1 : gmap string Row) :
  load_csv_for_comparison name1 content1 = (out1, Ok mods1) →
  Forall (λ line, is_header_line line = false) (readlines content2) →
  compare_files name1 content1 name2 content2
  = (out1 ++ ["Warning: Could not find mod data header in " +:+ name2],
     Ok (mkComparison (dom mods1) ∅ ∅ [] []))
  ∧ compare_files name2 content2 name1 content1
    = (["Warning: Could not find mod data header in " +:+ name2] ++ out1,
       Ok (mkComparison ∅ (dom mods1) ∅ [] [])).
Proof.
  intros H1 Hnone.
  assert (load_csv_for_comparison name2 content2
          = (["Warning: Could not find mod data header in " +:+ name2], Ok ∅)) as H2.
  { unfold load_csv_for_comparison.
    apply find_header_None in Hnone. by rewrite Hnone. }
  unfold compare_files. rewrite H1, H2.
  by rewrite compare_exports_empty_r, compare_exports_empty_l.
Qed.

Lemma compare_files_headerless_witness :
  compare_files "new.csv"
    ("Author,Mod Name,Version,Enabled" +:+ CRLF +:+ "Azumatt,WardIsLove,3.0.1,Yes" +:+ CRLF)
    "old.csv" ("Mod Name,Author,Version" +:+ CRLF)
  = ([] ++ ["Warning: Could not find mod data header in " +:+ "old.csv"],
     Ok (mkComparison
           (dom ({["Azumatt:WardIsLove" :=
                     dict_row ["Author"; "Mod Name"; "Version"; "Enabled"]
                              ["Azumatt"; "WardIsLove"; "3.0.1"; "Yes"]]}
                 : gmap string Row))
           ∅ ∅ [] []))
  ∧ compare_files "old.csv" ("Mod Name,Author,Version" +:+ CRLF) "new.csv"
      ("Author,Mod Name,Version,Enabled" +:+ CRLF +:+ "Azumatt,WardIsLove,3.0.1,Yes" +:+ CRLF)
    = (["Warning: Could not find mod data header in " +:+ "old.csv"] ++ [],
       Ok (mkComparison ∅
             (dom ({["Azumatt:WardIsLove" :=
                       dict_row ["Author"; "Mod Name"; "Version"; "Enabled"]
                                ["Azumatt"; "WardIsLove"; "3.0.1"; "Yes"]]}
                   : gmap string Row))
             ∅ [] [])).
Proof.
  apply (compare_files_headerless "new.csv" _ "old.csv").
  - vm_compute. reflexivity.
  - apply (bool_decide_unpack _). vm_compute. exact I.
Defined.

(** ** Columns of the rows read *)

Lemma foldl_insert_cells (l : list (string * string))
    (d : gmap string (option string)) (k : string) :
  is_Some (foldl (λ d kv, <[kv.1 := Some kv.2]> d) d l !! k)
  ↔ is_Some (d !! k) ∨ k ∈ l.*1.
Proof.
  revert d. induction l as [|[k' v] l IH]; intros d; simpl.
  - rewrite elem_of_nil. tauto.
  - rewrite IH, elem_of_cons. destruct (decide (k = k')) as [->|Hne].
    + rewrite lookup_insert_eq. split; [intros _|intros _; left; by eexists].
      right. by left.
    + rewrite lookup_insert_ne by done. tauto.
Qed.

Lemma foldl_insert_missing (l : list string)
    (d : gmap string (option string)) (k : string) :
  is_Some (foldl (λ d k', <[k' := None]> d) d l !! k)
  ↔ is_Some (d !! k) ∨ k ∈ l.
Proof.
  revert d. induction l as [|k' l IH]; intros d; simpl.
  - rewrite elem_of_nil. tauto.
  - rewrite IH, elem_of_cons. destruct (decide (k = k')) as [->|Hne].
    + rewrite lookup_insert_eq. split; [intros _|intros _; left; by eexists].
      right. by left.
    + rewrite lookup_insert_ne by done. tauto.
Qed.

Lemma fst_zip_take {A B : Type} (l : list A) (k : list B) :
  (zip l k).*1 = take (length k) l.
Proof.
  revert k. induction l as [|a l IH]; intros [|b k]; simpl; try done.
  by rewrite IH.
Qed.

(** A row of the DictReader has the columns of the header, neither more
    nor fewer, however long the record is. *)
Lemma dict_row_columns (fieldnames record : list string) (col : string) :
  is_Some (row_cells (dict_row fieldnames record) !! col) ↔ col ∈ fieldnames.
Proof.
  unfold dict_row.
  destruct (length fieldnames <? length record) eqn:E; simpl.
  - apply Nat.ltb_lt in E. rewrite foldl_insert_cells, lookup_empty, fst_zip_take.
    rewrite take_ge by lia. split; [intros [[? ?]|?]; done|by right].
  - rewrite foldl_insert_missing, foldl_insert_cells, lookup_empty, fst_zip_take.
    rewrite <- (take_drop (length record) fieldnames) at 3.
    rewrite elem_of_app. split; [intros [[[? ?]|?]|?]; [done|by left|by right]|].
    intros [?|?]; [left; by right|by right].
Qed.

Lemma DictReader_columns (lines : list string) (rows : list Row) :
  DictReader lines = Ok rows →
  ∃ fieldnames : list string, ∀ row, row ∈ rows →
    ∀ col, is_Some (row_cells row !! col) ↔ col ∈ fieldnames.
Proof.
  unfold DictReader. destruct (csv_reader lines) as [[|fieldnames rest]|e]; simpl.
  - intros [= <-]. exists []. intros row Hrow. by apply elem_of_nil in Hrow.
  - intros [= <-]. exists fieldnames. intros row Hrow col.
    change (map ?f ?l) with (f <$> l) in Hrow.
    apply list_elem_of_fmap in Hrow as (record & -> & _).
    apply dict_row_columns.
  - done.
Qed.

(** X26: all the rows of a snapshot have the same columns, those named on
    the header line of the file, whatever the length of their records; in
    particular either every row has a Version and an Enabled cell or none
    has. *)
Theorem loaded_columns (file_name content : string) (snapshot : gmap string Row) :
  (load_csv_for_comparison file_name content).2 = Ok snapshot →
  ∃ fieldnames : list string,
    (∀ k row, snapshot !! k = Some row →
       ∀ col, is_Some (row_cells row !! col) ↔ col ∈ fieldnames)
    ∧ ((∀ k row, snapshot !! k = Some row → has_columns row)
       ∨ (∀ k row, snapshot !! k = Some row → ¬ has_columns row)).
Proof.
  unfold load_csv_for_comparison.
  assert (Hempty : snapshot = ∅ →
    ∃ fieldnames : list string,
      (∀ k row, snapshot !! k = Some row →
         ∀ col, is_Some (row_cells row !! col) ↔ col ∈ fieldnames)
      ∧ ((∀ k row, snapshot !! k = Some row → has_columns row)
         ∨ (∀ k row, snapshot !! k = Some row → ¬ has_columns row))).
  { intros ->. exists []. split; [|left]; intros k row Hk; by rewrite lookup_empty in Hk. }
  destruct (find_header (readlines content)) as [idx|]; simpl;
    [|intros [= <-]; by apply Hempty].
  destruct (DictReader _) as [rows|e] eqn:Hrows; [|done]. simpl. intros [= <-].
  destruct (DictReader_columns _ _ Hrows) as [fieldnames Hcols].
  exists fieldnames.
  assert (Hsnap : ∀ k row, foldl add_row ∅ rows !! k = Some row →
            ∀ col, is_Some (row_cells row !! col) ↔ col ∈ fieldnames).
  { intros k row Hk. apply foldl_add_row_keys in Hk as [Hk|[Hin _]].
    - by rewrite lookup_empty in Hk.
    - by apply Hcols. }
  split; [exact Hsnap|].
  destruct (decide ("Version" ∈ fieldnames ∧ "Enabled" ∈ fieldnames)) as [[Hv He]|Hno].
  - left. intros k row Hk. split; by apply (Hsnap k row Hk).
  - right. intros k row Hk [Hv He]. apply Hno.
    split; by apply (Hsnap k row Hk).
Qed.

Lemma loaded_columns_witness :
  ∃ fieldnames : list string,
    (∀ k row,
       ({["Azumatt:WardIsLove" :=
            dict_row ["Author"; "Mod Name"; "Version"] ["Azumatt"; "WardIsLove"]]}
        : gmap string Row) !! k = Some row →
       ∀ col, is_Some (row_cells row !! col) ↔ col ∈ fieldnames)
    ∧ ((∀ k row,
          ({["Azumatt:WardIsLove" :=
               dict_row ["Author"; "Mod Name"; "Version"] ["Azumatt"; "WardIsLove"]]}
           : gmap string Row) !! k = Some row → has_columns row)
       ∨ (∀ k row,
            ({["Azumatt:WardIsLove" :=
                 dict_row ["Author"; "Mod Name"; "Version"] ["Azumatt"; "WardIsLove"]]}
             : gmap string Row) !! k = Some row → ¬ has_columns row)).
Proof.
  apply (loaded_columns "old.csv"
           ("Author,Mod Name,Version" +:+ String LF ("Azumatt,WardIsLove" +:+ String LF ""))).
  vm_compute. reflexivity.
Defined.

(** ** From two exports to the comparison *)

Lemma snapshot_lookup_columns (mods_list : list Mod) (k : string) (row : Row) :
  foldl add_row ∅ (snapshot_row <$> mods_list) !! k = Some row → has_columns row.
Proof.
  rewrite foldl_add_row_last. destruct (record_of mods_list k); [|done].
  intros [= <-]. apply snapshot_row_columns.
Qed.

Lemma snapshot_dom (mods_list : list Mod) (k : string) :
  k ∈ dom (foldl add_row ∅ (snapshot_row <$> mods_list))
  ↔ is_Some (record_of mods_list k).
Proof.
  rewrite elem_of_dom, foldl_add_row_last. apply fmap_is_Some.
Qed.

Lemma not_is_Some_None {A : Type} (o : option A) : ¬ is_Some o ↔ o = None.
Proof. rewrite <- eq_None_not_Some. done. Qed.

(** X27: from two collections to the report.  Two exports of collections
    with safe cells, each after a statistics section without a line that
    starts with the header prefix, are compared without a warning and
    without an error: a key is added when only the newer collection has a
    record for it, removed when only the older has one, and a version
    update (a status change) is recorded exactly when both have one and
    the versions (the statuses) of the two records differ, the older
    value first. *)
Theorem compare_exported (newer older : list Mod) (stats1 stats2 : Stats)
    (name1 name2 : string) :
  Forall (λ m, safe_cells m = true) newer →
  Forall (λ m, safe_cells m = true) older →
  Forall (λ line, is_header_line line = false) (readlines (statistics_section stats1)) →
  Forall (λ line, is_header_line line = false) (readlines (statistics_section stats2)) →
  ∃ r, compare_files name1 (export_to_csv newer stats1)
                     name2 (export_to_csv older stats2) = ([], Ok r)
    ∧ (∀ k, k ∈ added r ↔ is_Some (record_of newer k) ∧ record_of older k = None)
    ∧ (∀ k, k ∈ removed r ↔ is_Some (record_of older k) ∧ record_of newer k = None)
    ∧ (∀ k, k ∈ common r ↔ is_Some (record_of newer k) ∧ is_Some (record_of older k))
    ∧ (∀ k vo vn, (k, vo, vn) ∈ updated r ↔
         ∃ m1 m2, record_of newer k = Some m1 ∧ record_of older k = Some m2
                  ∧ vo = Some (version m2) ∧ vn = Some (version m1)
                  ∧ version m2 ≠ version m1)
    ∧ (∀ k eo en, (k, eo, en) ∈ enabled_changes r ↔
         ∃ m1 m2, record_of newer k = Some m1 ∧ record_of older k = Some m2
                  ∧ eo = Some (enabled m2) ∧ en = Some (enabled m1)
                  ∧ enabled m2 ≠ enabled m1).
Proof.
  intros Hsafe1 Hsafe2 Hstats1 Hstats2.
  unfold compare_files.
  rewrite (load_export newer stats1 name1 Hsafe1 Hstats1).
  rewrite (load_export older stats2 name2 Hsafe2 Hstats2).
  set (mods1 := foldl add_row ∅ (snapshot_row <$> newer)).
  set (mods2 := foldl add_row ∅ (snapshot_row <$> older)).
  unfold compare_exports.
  destruct (compare_keys_spec mods1 mods2 (elements (dom mods1 ∩ dom mods2)) ([], []))
    as (acc & -> & Hupd & Hena).
  { intros k [H1 H2]%elem_of_elements%elem_of_intersection.
    apply elem_of_dom in H1 as [row1 H1], H2 as [row2 H2].
    exists row1, row2. split; [done|]. split; [done|].
    split; eapply snapshot_lookup_columns; eassumption. }
  eexists. split; [reflexivity|]. simpl.
  assert (Hcol : ∀ col (get : Mod → string) k (o n : option string),
            (∀ m, row_cells (snapshot_row m) !! col = Some (Some (get m))) →
            (k ∈ elements (dom mods1 ∩ dom mods2)
             ∧ column_change mods1 mods2 col (k, o, n))
            ↔ ∃ m1 m2, record_of newer k = Some m1 ∧ record_of older k = Some m2
                       ∧ o = Some (get m2) ∧ n = Some (get m1) ∧ get m2 ≠ get m1).
  { intros col get k o n Hget. unfold column_change, mods1, mods2. simpl.
    rewrite elem_of_elements, elem_of_intersection, !snapshot_dom.
    setoid_rewrite foldl_add_row_last. split.
    - intros [_ (row1 & row2 & H1 & H2 & Hc1 & Hc2 & Hne)].
      destruct (record_of newer k) as [m1|]; [|done].
      destruct (record_of older k) as [m2|]; [|done].
      simpl in H1, H2. injection H1 as <-. injection H2 as <-.
      rewrite Hget in Hc1, Hc2. injection Hc1 as <-. injection Hc2 as <-.
      exists m1, m2. repeat (split; [done|]). congruence.
    - intros (m1 & m2 & -> & -> & -> & -> & Hne).
      split; [split; by eexists|].
      exists (snapshot_row m1), (snapshot_row m2). rewrite !Hget.
      repeat (split; [done|]). congruence. }
  split; [|split; [|split; [|split]]].
  - intros k. rewrite elem_of_difference. unfold mods1, mods2.
    by rewrite !snapshot_dom, not_is_Some_None.
  - intros k. rewrite elem_of_difference. unfold mods1, mods2.
    by rewrite !snapshot_dom, not_is_Some_None.
  - intros k. rewrite elem_of_intersection. unfold mods1, mods2.
    by rewrite !snapshot_dom.
  - intros k vo vn. rewrite Hupd. simpl. rewrite elem_of_nil.
    rewrite (Hcol "Version" version). { tauto. }
    intros m. by destruct (snapshot_row_cells m) as (_ & _ & Hv & _).
  - intros k eo en. rewrite Hena. simpl. rewrite elem_of_nil.
    rewrite (Hcol "Enabled" enabled). { tauto. }
    intros m. by destruct (snapshot_row_cells m) as (_ & _ & _ & He).
Qed.

Lemma compare_exported_witness :
  ∃ r, compare_files "new.csv"
         (export_to_csv sample_newer_mods
            (calculate_statistics sample_newer_mods "Default" "2024-01-02 00:00:00"))
         "old.csv"
         (export_to_csv sample_older_mods
            (calculate_statistics sample_older_mods "Default" "2024-01-01 00:00:00"))
       = ([], Ok r)
    ∧ (∀ k, k ∈ added r
            ↔ is_Some (record_of sample_newer_mods k) ∧ record_of sample_older_mods k = None)
    ∧ (∀ k, k ∈ removed r
            ↔ is_Some (record_of sample_older_mods k) ∧ record_of sample_newer_mods k = None)
    ∧ (∀ k, k ∈ common r
            ↔ is_Some (record_of sample_newer_mods k)
              ∧ is_Some (record_of sample_older_mods k))
    ∧ (∀ k vo vn, (k, vo, vn) ∈ updated r ↔
         ∃ m1 m2, record_of sample_newer_mods k = Some m1
                  ∧ record_of sample_older_mods k = Some m2
                  ∧ vo = Some (version m2) ∧ vn = Some (version m1)
                  ∧ version m2 ≠ version m1)
    ∧ (∀ k eo en, (k, eo, en) ∈ enabled_changes r ↔
         ∃ m1 m2, record_of sample_newer_mods k = Some m1
                  ∧ record_of sample_older_mods k = Some m2
                  ∧ eo = Some (enabled m2) ∧ en = Some (enabled m1)
                  ∧ enabled m2 ≠ enabled m1).
Proof.
  apply (compare_exported sample_newer_mods sample_older_mods).
  - apply (bool_decide_unpack _). vm_compute. exact I.
  - apply (bool_decide_unpack _). vm_compute. exact I.
  - apply (bool_decide_unpack _). vm_compute. exact I.
  - apply (bool_decide_unpack _). vm_compute. exact I.
Defined.

(** ** The statistics section never hides the header *)

Lemma csv_double_quotes_without (c : ascii) (s : string) :
  char_eqb DQUOTE c = false →
  str_contains c s = false → str_contains c (csv_double_quotes s) = false.
Proof.
  intros Hq. induction s as [|a s IH]; [reflexivity|].
  cbn [str_contains csv_double_quotes]. intros [Ha Hs]%orb_false_iff.
  destruct (char_eqb a DQUOTE) eqn:E; cbn [str_contains].
  - by rewrite Hq, (IH Hs).
  - by rewrite Ha, (IH Hs).
Qed.

Lemma csv_field_without (c : ascii) (s : string) :
  char_eqb DQUOTE c = false →
  str_contains c s = false → str_contains c (csv_field s) = false.
Proof.
  intros Hq Hs. unfold csv_field. destruct (csv_needs_quotes s); [|exact Hs].
  cbn [str_contains]. rewrite Hq, str_contains_app, csv_double_quotes_without by done.
  cbn [str_contains]. by rewrite Hq.
Qed.

Lemma csv_line_without (c : ascii) (cells : list string) :
  char_eqb DQUOTE c = false → char_eqb COMMA c = false →
  Forall (λ s, str_contains c s = false) cells →
  str_contains c (csv_line cells) = false.
Proof.
  intros Hq Hcomma. induction 1 as [|s cells Hs Hcells IH]; [reflexivity|].
  destruct cells as [|s2 cells]; [by apply csv_field_without|].
  rewrite csv_line_cons, str_contains_app, csv_field_without by done.
  cbn [str_contains orb]. by rewrite Hcomma.
Qed.

Lemma writerow_row_line (cells : list string) :
  writerow cells = row_line cells +:+ CRLF.
Proof.
  unfold writerow, row_line. destruct cells as [|c cells]; [reflexivity|].
  destruct (str_is_empty _); reflexivity.
Qed.

Lemma single_line_spec (s : string) :
  single_line s = true ↔ str_contains CR s = false ∧ str_contains LF s = false.
Proof.
  unfold single_line. rewrite andb_true_iff, !negb_true_iff. done.
Qed.

Lemma row_line_single (cells : list string) :
  Forall (λ s, single_line s = true) cells →
  str_contains CR (row_line cells) = false ∧ str_contains LF (row_line cells) = false.
Proof.
  intros Hcells. unfold row_line. destruct cells as [|c cells]; [done|].
  destruct (str_is_empty _); [done|].
  split; apply csv_line_without; try reflexivity;
    (eapply Forall_impl; [exact Hcells|]); intros s Hs%single_line_spec; tauto.
Qed.

(** The lines of a text written row by row, when no cell has a line
    break: one line for each row. *)
Lemma readlines_rows (rows : list (list string)) :
  Forall (Forall (λ s, single_line s = true)) rows →
  readlines (str_concat (map writerow rows))
  = map (λ cells, row_line cells +:+ String LF "") rows.
Proof.
  unfold readlines. induction 1 as [|cells rows Hcells _ IH]; [reflexivity|].
  destruct (row_line_single cells Hcells) as [Hcr Hlf].
  simpl. rewrite writerow_row_line, app_assoc_str.
  rewrite universal_newlines_no_cr by exact Hcr.
  rewrite universal_newlines_crlf, split_lines_app.
  rewrite split_lines_single by exact Hlf. simpl. by rewrite IH.
Qed.

Lemma prefix_cons (a b : ascii) (p s : string) :
  String.prefix (String a p) (String b s) = true ↔ a = b ∧ String.prefix p s = true.
Proof.
  simpl. destruct (ascii_dec a b) as [->|Hne]; [tauto|].
  split; [done|]. intros [? _]. done.
Qed.

Lemma header_prefix_head (c : ascii) (s : string) :
  startswith (String c s) header_prefix = true → c = "A"%char.
Proof.
  unfold startswith, header_prefix. intros [<- _]%prefix_cons. reflexivity.
Qed.

Lemma startswith_rstrip (sp : ascii → bool) (s p : string) :
  startswith (rstrip_with sp s) p = true → startswith s p = true.
Proof.
  unfold startswith. revert p. induction s as [|c s IH]; intros p; [done|].
  destruct p as [|a p]; [done|]. simpl rstrip_with.
  destruct (sp c && str_is_empty (rstrip_with sp s)); [done|].
  rewrite !prefix_cons. intros [-> Hp]. split; [done|]. by apply IH.
Qed.

Lemma is_header_line_lstrip (line : string) :
  is_header_line line = true →
  startswith (lstrip_with py_isspace line) header_prefix = true.
Proof. unfold is_header_line, strip. apply startswith_rstrip. Qed.

(** A line whose first character is neither a blank nor an A is not the
    header. *)
Lemma is_header_line_head (c : ascii) (s : string) :
  py_isspace c = false → c ≠ "A"%char → is_header_line (String c s) = false.
Proof.
  intros Hsp Hc. destruct (is_header_line (String c s)) eqn:E; [|done].
  apply is_header_line_lstrip in E. rewrite lstrip_with_head in E by exact Hsp.
  by apply header_prefix_head in E.
Qed.

Lemma lstrip_with_app_stop (sp : ascii → bool) (a : string) (c : ascii) (t : string) :
  sp c = false →
  lstrip_with sp (a +:+ String c t) = lstrip_with sp a +:+ String c t.
Proof.
  intros Hc. induction a as [|x a IH].
  - rewrite !app_nil_l_str. simpl. by rewrite Hc.
  - rewrite app_cons_str. simpl. destruct (sp x); [exact IH|].
    by rewrite app_cons_str.
Qed.

Lemma lstrip_with_without (sp : ascii → bool) (c : ascii) (s : string) :
  str_contains c s = false → str_contains c (lstrip_with sp s) = false.
Proof.
  induction s as [|x s IH]; [done|]. simpl.
  intros [Hx Hs]%orb_false_iff. destruct (sp x); [by apply IH|].
  simpl. by rewrite Hx, Hs.
Qed.

(** Two texts cut at their first separator: one is a prefix of the other
    only if the first parts are equal. *)
Lemma prefix_split_at (sep : ascii) (p1 p2 a rest : string) :
  str_contains sep p1 = false → str_contains sep a = false →
  String.prefix (p1 +:+ String sep p2) (a +:+ String sep rest) = true →
  a = p1 ∧ String.prefix p2 rest = true.
Proof.
  revert a. induction p1 as [|x p1 IH]; intros a Hp1 Ha.
  - rewrite app_nil_l_str. destruct a as [|y a].
    + rewrite app_nil_l_str. intros [_ H]%prefix_cons. done.
    + rewrite app_cons_str. intros [<- _]%prefix_cons.
      simpl in Ha. by rewrite char_eqb_refl in Ha.
  - simpl in Hp1. apply orb_false_iff in Hp1 as [Hx Hp1].
    rewrite app_cons_str. destruct a as [|y a].
    + rewrite app_nil_l_str. intros [-> _]%prefix_cons.
      by rewrite char_eqb_refl in Hx.
    + simpl in Ha. apply orb_false_iff in Ha as [Hy Ha].
      rewrite app_cons_str. intros [-> H]%prefix_cons.
      destruct (IH a Hp1 Ha H) as [-> Hrest]. done.
Qed.

(** A line that starts with an unquoted field is the header only if that
    field is Author, leading blanks apart, and Mod Name and Version come
    next. *)
Lemma header_line_first_field (a rest : string) :
  str_contains COMMA a = false →
  is_header_line (a +:+ String COMMA rest) = true →
  lstrip_with py_isspace a = "Author"
  ∧ startswith rest "Mod Name,Version" = true.
Proof.
  intros Ha Hline. apply is_header_line_lstrip in Hline.
  rewrite lstrip_with_app_stop in Hline by reflexivity.
  unfold startswith, header_prefix in Hline.
  change "Author,Mod Name,Version" with ("Author" +:+ String COMMA "Mod Name,Version")
    in Hline.
  apply prefix_split_at in Hline; [done|reflexivity|].
  by apply lstrip_with_without.
Qed.

Lemma row_line_wide (c1 c2 : string) (cells : list string) :
  row_line (c1 :: c2 :: cells) = csv_field c1 +:+ String COMMA (csv_line (c2 :: cells)).
Proof.
  unfold row_line. rewrite csv_line_cons, str_is_empty_app_cons. reflexivity.
Qed.

Lemma wide_row_header (c1 c2 : string) (cells : list string) :
  is_header_line (row_line (c1 :: c2 :: cells) +:+ String LF "") = true →
  lstrip_with py_isspace c1 = "Author"
  ∧ startswith (csv_line (c2 :: cells) +:+ String LF "") "Mod Name,Version" = true.
Proof.
  rewrite row_line_wide. unfold csv_field at 1.
  destruct (csv_needs_quotes c1) eqn:Hq.
  - rewrite !app_cons_str. by rewrite is_header_line_head.
  - rewrite app_assoc_str, app_cons_str. apply header_line_first_field.
    unfold csv_needs_quotes in Hq. rewrite !orb_false_iff in Hq. tauto.
Qed.

Lemma single_line_digits (s : string) :
  str_forall is_digit s = true → single_line s = true.
Proof.
  intros Hs. apply single_line_spec.
  split; by apply (str_forall_not_contains is_digit).
Qed.

Lemma str_of_nat_digits (n : nat) :
  ∃ d r, str_of_nat n = String d r ∧ is_digit d = true
         ∧ str_forall is_digit (str_of_nat n) = true.
Proof.
  pose proof (str_of_nonneg_digits (Z.of_nat n) (Nat2Z.is_nonneg n)) as H.
  unfold all_digits in H. apply andb_true_iff in H as [Hne Hd].
  fold (str_of_nat n) in *. destruct (str_of_nat n) as [|d r]; [done|].
  exists d, r. split; [done|]. split; [|done].
  simpl in Hd. by apply andb_true_iff in Hd as [? _].
Qed.

Lemma single_line_app (s t : string) :
  single_line s = true → single_line t = true → single_line (s +:+ t) = true.
Proof.
  rewrite !single_line_spec, !str_contains_app, !orb_false_iff. tauto.
Qed.

(** A row that starts with a label is plain. *)
Lemma label_row_plain (label value : string) :
  single_line label = true → single_line value = true →
  lstrip_with py_isspace label ≠ "Author" →
  plain_row [label; value].
Proof.
  intros Hl Hv Hne. split; [by repeat constructor|].
  destruct (is_header_line _) eqn:E; [|done].
  by apply wide_row_header in E as [? _].
Qed.

(** A row of the top authors is plain: what follows the author starts
    with a digit. *)
Lemma author_row_plain (a : string) (n : nat) :
  single_line a = true → plain_row [a; str_of_nat n +:+ " mods"].
Proof.
  intros Ha. destruct (str_of_nat_digits n) as (d & r & Hn & Hd & Hds).
  assert (single_line (str_of_nat n +:+ " mods") = true) as Hcount.
  { apply single_line_app; [by apply single_line_digits|reflexivity]. }
  split; [by repeat constructor|].
  destruct (is_header_line _) eqn:E; [|done].
  apply wide_row_header in E as [_ E]. exfalso.
  unfold csv_line in E. simpl in E. unfold csv_field in E.
  destruct (csv_needs_quotes _).
  - rewrite app_cons_str in E. unfold startswith in E.
    by apply prefix_cons in E as [? _].
  - rewrite Hn, !app_cons_str in E. unfold startswith in E.
    apply prefix_cons in E as [<- _]. done.
Qed.

(** A summary row is plain unless the record is named Author. *)
Lemma summary_row_plain (m : Mod) :
  single_line_summary m = true → named_author m = false →
  plain_row (summary_row m).
Proof.
  unfold single_line_summary, named_author. intros Hs Hn.
  split.
  - apply Forall_forall. intros s Hin%list_elem_of_In.
    rewrite forallb_forall in Hs. by apply Hs.
  - destruct (is_header_line _) eqn:E; [|done].
    apply wide_row_header in E as [E _]. rewrite E in Hn. done.
Qed.

Lemma fixed_row_plain (cells : list string) :
  forallb single_line cells = true →
  is_header_line (row_line cells +:+ String LF "") = false →
  plain_row cells.
Proof.
  intros Hs Hh. split; [|exact Hh].
  apply Forall_forall. intros s Hin%list_elem_of_In.
  rewrite forallb_forall in Hs. by apply Hs.
Qed.

Lemma statistics_rows_plain (stats : Stats) :
  single_line (profile_name stats) = true →
  single_line (export_date stats) = true →
  Forall (λ ac, single_line ac.1 = true) (top_authors stats) →
  Forall (λ m, single_line_summary m = true ∧ named_author m = false)
         (newest_mods stats ++ oldest_mods stats) →
  Forall plain_row (statistics_rows stats).
Proof.
  intros Hp Hd Htop [Hnew Hold]%Forall_app.
  assert (Hnum : ∀ label n, single_line label = true →
            lstrip_with py_isspace label ≠ "Author" →
            plain_row [label; str_of_nat n]).
  { intros label n Hl Hne. apply label_row_plain; [done| |done].
    destruct (str_of_nat_digits n) as (_ & _ & _ & _ & Hds).
    by apply single_line_digits. }
  unfold statistics_rows. repeat apply Forall_app_2.
  - repeat apply Forall_cons_2; try apply Forall_nil_2;
      first [ by apply fixed_row_plain
            | by apply label_row_plain
            | by apply Hnum ].
  - apply Forall_forall. intros cells Hin%list_elem_of_In%in_map_iff.
    destruct Hin as ([a n] & <- & Hin%list_elem_of_In).
    rewrite Forall_forall in Htop. apply author_row_plain. by apply (Htop (a, n)).
  - repeat apply Forall_cons_2; try apply Forall_nil_2; by apply fixed_row_plain.
  - apply Forall_forall. intros cells Hin%list_elem_of_In%in_map_iff.
    destruct Hin as (m & <- & Hin%list_elem_of_In).
    rewrite Forall_forall in Hnew. destruct (Hnew m Hin). by apply summary_row_plain.
  - repeat apply Forall_cons_2; try apply Forall_nil_2; by apply fixed_row_plain.
  - apply Forall_forall. intros cells Hin%list_elem_of_In%in_map_iff.
    destruct Hin as (m & <- & Hin%list_elem_of_In).
    rewrite Forall_forall in Hold. destruct (Hold m Hin). by apply summary_row_plain.
  - repeat apply Forall_cons_2; try apply Forall_nil_2; by apply fixed_row_plain.
Qed.

Lemma statistics_lines_plain (stats : Stats) :
  Forall plain_row (statistics_rows stats) →
  Forall (λ line, is_header_line line = false) (readlines (statistics_section stats)).
Proof.
  intros Hrows. unfold statistics_section. rewrite readlines_rows.
  - change (map ?f ?l) with (f <$> l). apply Forall_fmap.
    eapply Forall_impl; [exact Hrows|]. by intros cells [_ H].
  - eapply Forall_impl; [exact Hrows|]. by intros cells [H _].
Qed.

Lemma calculate_statistics_members (mods_list : list Mod) (profile now : string) :
  (∀ ac, ac ∈ top_authors (calculate_statistics mods_list profile now) →
         ∃ m, m ∈ mods_list ∧ author m = ac.1)
  ∧ (∀ m, m ∈ newest_mods (calculate_statistics mods_list profile now)
            ++ oldest_mods (calculate_statistics mods_list profile now) →
          m ∈ mods_list).
Proof.
  split.
  - intros [a n] Hin. rewrite top_authors_eq in Hin.
    apply elem_of_take in Hin as (i & Hin & _).
    apply list_elem_of_lookup_2 in Hin.
    rewrite (sorted_perm snd Nat.ltb true) in Hin.
    assert (a ∈ (Counter (author <$> mods_list)).*1) as Ha.
    { by apply (list_elem_of_fmap_2 fst) in Hin. }
    apply (proj1 (Counter_keys_elem _ _)) in Ha.
    apply (proj1 (list_elem_of_fmap _ _ _)) in Ha as (m & Ha & Hm). by exists m.
  - intros m. rewrite newest_mods_eq, oldest_mods_eq, elem_of_app, elem_of_reverse.
    unfold last_n.
    intros [Hin|Hin].
    + apply elem_of_take in Hin as (i & Hin & _). apply list_elem_of_lookup_2 in Hin.
      by rewrite (sorted_perm version_key tuple_lt true) in Hin.
    + apply list_elem_of_lookup in Hin as (i & Hin). rewrite lookup_drop in Hin.
      apply list_elem_of_lookup_2 in Hin.
      by rewrite (sorted_perm version_key tuple_lt true) in Hin.
Qed.

Lemma single_line_summary_author (m : Mod) :
  single_line_summary m = true → single_line (author m) = true.
Proof.
  unfold single_line_summary, summary_row. simpl. rewrite !andb_true_iff. tauto.
Qed.

(** The statistics that [calculate_statistics] makes of a collection give
    a section without a line that the reader takes for the header, when
    no text has a line break and no record is named Author. *)
Lemma calculated_statistics_plain (mods_list : list Mod) (profile now : string) :
  single_line profile = true → single_line now = true →
  Forall (λ m, single_line_summary m = true ∧ named_author m = false) mods_list →
  Forall (λ line, is_header_line line = false)
    (readlines (statistics_section (calculate_statistics mods_list profile now))).
Proof.
  intros Hp Hn Hmods. rewrite Forall_forall in Hmods.
  destruct (calculate_statistics_members mods_list profile now) as [Htop Hsum].
  apply statistics_lines_plain, statistics_rows_plain; [exact Hp|exact Hn|..].
  - apply Forall_forall. intros ac Hac.
    destruct (Htop ac Hac) as (m & Hm & <-).
    apply single_line_summary_author. by destruct (Hmods m Hm).
  - apply Forall_forall. intros m Hm. apply Hmods. by apply Hsum.
Qed.

(** X28: the export of a collection with its own statistics, read back.
    When neither the profile name, the date nor a name, author or version
    has a line break, no record is named Author, and no cell holds a
    carriage return or exceeds the reader's limit, the snapshot reader
    finds the header of the table, not a line of the statistics, and
    returns under each key the row of the last record with that key. *)
Theorem export_statistics_load (mods_list : list Mod) (profile now file_name : string) :
  single_line profile = true → single_line now = true →
  Forall (λ m, single_line_summary m = true ∧ named_author m = false) mods_list →
  Forall (λ m, safe_cells m = true) mods_list →
  ∃ snapshot,
    load_csv_for_comparison file_name
      (export_to_csv mods_list (calculate_statistics mods_list profile now))
    = ([], Ok snapshot)
    ∧ (∀ k, snapshot !! k = snapshot_row <$> record_of mods_list k).
Proof.
  intros Hp Hn Hmods Hsafe.
  exists (foldl add_row ∅ (snapshot_row <$> mods_list)). split.
  - apply load_export; [exact Hsafe|]. by apply calculated_statistics_plain.
  - apply foldl_add_row_last.
Qed.

Lemma export_statistics_load_witness :
  ∃ snapshot,
    load_csv_for_comparison "Default.csv"
      (export_to_csv sample_older_mods
         (calculate_statistics sample_older_mods "Default" "2024-01-01 00:00:00"))
    = ([], Ok snapshot)
    ∧ (∀ k, snapshot !! k = snapshot_row <$> record_of sample_older_mods k).
Proof.
  apply (export_statistics_load sample_older_mods "Default" "2024-01-01 00:00:00").
  - reflexivity.
  - reflexivity.
  - apply (bool_decide_unpack _). vm_compute. exact I.
  - apply (bool_decide_unpack _). vm_compute. exact I.
Defined.


(** The condition on the names is needed: with a record named Author by
    Mod Name whose version starts with Version, the reader takes the
    record's line in the statistics for the header; the snapshot then has
    an entry for the header of the table, and the row of the record has no
    Version cell. *)
Example export_statistics_fooled :
  is_header_line (row_line (summary_row confusing_mod) +:+ String LF "") = true
  ∧ loaded_cell
      (load_csv_for_comparison "Default.csv"
         (export_to_csv [confusing_mod]
            (calculate_statistics [confusing_mod] "Default" "2024-01-01 00:00:00")))
      "Author:Mod Name" "Author" = Some (Some "Author")
  ∧ loaded_cell
      (load_csv_for_comparison "Default.csv"
         (export_to_csv [confusing_mod]
            (calculate_statistics [confusing_mod] "Default" "2024-01-01 00:00:00")))
      (mod_key confusing_mod) "Version" = None.
Proof. repeat split; vm_compute; reflexivity. Qed.
